(** * NED resource cache and type resolver (omnetpp-6.0.1, src/nedxml/nedresourcecache.cc)

    A shallow embedding of [NedResourceCache]: the source-folder loader, the
    file index, the two-phase type registrar with its fixed point, the name
    resolver and the folder queries, together with the properties the
    specification states about them. *)

From Stdlib Require Import List String Ascii Bool Arith ZArith Lia.
Import ListNotations.

Open Scope string_scope.
Open Scope list_scope.

Set Implicit Arguments.

(** String concatenation, kept apart from list append. *)
Infix "+++" := String.append (right associativity, at level 60).

(** ** C strings and the std::string operations the cache uses

    The [opp_] helpers are those of common/stringutil, which is not among
    the sources; they are written out here from their use in the cache and
    from the specification. *)

Module Str.

Definition strlen (s : string) : nat := String.length s.

Definition opp_isempty (s : string) : bool :=
  match s with EmptyString => true | _ => false end.

(** [s[strlen(s)-1]], when the string has a last character. *)
Fixpoint lastChar (s : string) : option ascii :=
  match s with
  | EmptyString => None
  | String c EmptyString => Some c
  | String _ s' => lastChar s'
  end.

(** [strchr(s, c) != nullptr] *)
Fixpoint strchr (s : string) (c : ascii) : bool :=
  match s with
  | EmptyString => false
  | String d s' => Ascii.eqb d c || strchr s' c
  end.

(** [s.rfind(c)]: the index of the last occurrence, [None] for [npos]. *)
Fixpoint rfind (s : string) (c : ascii) : option nat :=
  match s with
  | EmptyString => None
  | String d s' =>
      match rfind s' c with
      | Some i => Some (S i)
      | None => if Ascii.eqb d c then Some 0 else None
      end
  end.

(** [strncmp(a, b, n) == 0] *)
Definition strncmp_eq (a b : string) (n : nat) : bool :=
  String.eqb (substring 0 n a) (substring 0 n b).

Definition opp_stringbeginswith (s pre : string) : bool :=
  String.eqb (substring 0 (strlen pre) s) pre.

Definition opp_stringendswith (s suffix : string) : bool :=
  let n := strlen s in
  let m := strlen suffix in
  if (n <? m)%nat then false
  else String.eqb (substring (n - m) m s) suffix.

(** Modelled from the spec: [opp_join(separator, s1, s2)] of
    common/stringutil.  The package of a sub-folder is "P.<childname> (or
    <childname> if P empty)", and a source folder's own package is its root
    package: an empty part is left out, with its separator. *)
Definition opp_join (separator s1 s2 : string) : string :=
  if opp_isempty s1 then s2
  else if opp_isempty s2 then s1
  else s1 +++ separator +++ s2.

(** Modelled from the spec: [opp_replacesubstring(text, substring,
    replacement, replaceAll)] of common/stringutil, by which the folder
    query goes about "converting / to .".  [skip] counts the characters of a
    match that are still to be dropped, [live] tells whether replacing is
    still on. *)
Fixpoint replace_from (text sub repl : string) (replaceAll : bool)
         (skip : nat) (live : bool) : string :=
  match text with
  | EmptyString => EmptyString
  | String c rest =>
      match skip with
      | S k => replace_from rest sub repl replaceAll k live
      | O =>
          if live && opp_stringbeginswith text sub then
            repl +++ replace_from rest sub repl replaceAll
                                 (strlen sub - 1) replaceAll
          else String c (replace_from rest sub repl replaceAll 0 live)
      end
  end.

Definition opp_replacesubstring (text sub repl : string) (replaceAll : bool) : string :=
  if opp_isempty sub then text
  else replace_from text sub repl replaceAll 0 true.

(** [opp_toupper] on one character. *)
Definition opp_toupper (c : ascii) : ascii :=
  let n := nat_of_ascii c in
  if ((97 <=? n)%nat && (n <=? 122)%nat)%bool then ascii_of_nat (n - 32) else c.

(** [", "]-separated listing, as built for the unresolved-types message. *)
Fixpoint join_names (l : list string) : string :=
  match l with
  | [] => ""
  | [x] => x
  | x :: rest => x +++ ", " +++ join_names rest
  end.

End Str.
Import Str.

(** ** Outcomes: normal return, or what ends the call otherwise *)

Inductive Exn : Type :=
| NedException (what : string)      (* throw NedException(...) *)
| AssertFailure (cond : string)     (* a failed Assert(...) *)
| NullPointer                       (* a member call through nullptr *)
| OutOfRange                        (* std::out_of_range of std::string::substr *)
| RuntimeError (what : string)      (* the exception of PushDir(folder) *)
| Undefined (expr : string).        (* a read before an array: no defined behaviour *)

Inductive Res (A : Type) : Type :=
| Ok (a : A)
| Throw (e : Exn).
Arguments Ok {A} a.
Arguments Throw {A} e.

Definition bindR {A B} (r : Res A) (k : A -> Res B) : Res B :=
  match r with
  | Ok a => k a
  | Throw e => Throw e
  end.

Notation "x <- r ;; k" := (bindR r (fun x => k))
  (at level 61, r at next level, right associativity).

(** Modelled from the spec: the [Assert] macro, whose definition is not
    among the sources.  A failed assertion ends the call with an outcome of
    its own, which is neither a return nor a [NedException]. *)
Definition Assert (cond : bool) (text : string) : Res unit :=
  if cond then Ok tt else Throw (AssertFailure text).

(** [e.what()] *)
Definition what (e : Exn) : string :=
  match e with
  | NedException m => m
  | AssertFailure c => "ASSERT: Condition '" +++ c +++ "' does not hold"
  | NullPointer => "null pointer"
  | OutOfRange => "basic_string::substr"
  | RuntimeError m => m
  | Undefined expr => expr
  end.

(** ** Maps of the cache

    [NedFileMap], [NedTypeInfoMap] and [StringMap] are declared in
    nedresourcecache.h, which is not among the sources.  The cache uses
    [find], [[]] and iteration; one container model serves the three maps: a
    list of bindings with unique keys, iterated from its head. *)

Module SMap.
Section WithValue.
Variable V : Type.

Definition t := list (string * V).

(** [m.find(k)] *)
Fixpoint find (m : t) (k : string) : option V :=
  match m with
  | [] => None
  | (k', v) :: r => if String.eqb k' k then Some v else find r k
  end.

Definition containsKey (m : t) (k : string) : bool :=
  match find m k with Some _ => true | None => false end.

(** Modelled from the spec: the place of a new key in the iteration, which
    the declaration of the map type (nedresourcecache.h) decides.  "The
    oracle's iteration order is insertion order into the type index": [m[k] =
    v] keeps the place of a key that is present and puts a new key last. *)
Fixpoint set (m : t) (k : string) (v : V) : t :=
  match m with
  | [] => [(k, v)]
  | (k', v') :: r =>
      if String.eqb k' k then (k', v) :: r else (k', v') :: set r k v
  end.

(** [m[k]] read through a non-const map: an absent key is inserted with
    the default value. *)
Definition index (m : t) (k : string) (dflt : V) : V * t :=
  match find m k with
  | Some v => (v, m)
  | None => (dflt, set m k dflt)
  end.

Definition keys (m : t) : list string := map fst m.
End WithValue.
End SMap.

(** ** Path prefixes and the folder queries *)

(** The specification's [isPathPrefix]: equal, or [path] begins with
    [prefix] followed by a slash. *)
Definition isPathPrefix (pre path : string) : Prop :=
  path = pre \/ exists rest, path = pre +++ "/" +++ rest.

(** The same as a test. *)
Definition isPathPrefixb (pre path : string) : bool :=
  String.eqb path pre || opp_stringbeginswith path (pre +++ "/").

(** The form of a canonical path: not empty, and the last character is not
    a slash. *)
Definition noTrailingSlash (s : string) : bool :=
  match lastChar s with
  | Some c => negb (Ascii.eqb c "/")
  | None => false
  end.

(** [isPathPrefixOf(prefix, path)].  The assertion reads the last character
    of [prefix] and, when that is not a slash, the last character of [path];
    on an empty string the read is at index -1, before the array, and what
    the call does from there on is not defined. *)
Definition isPathPrefixOf (pre path : string) : Res bool :=
  let pathlen := strlen path in
  let prefixlen := strlen pre in
  prefixLast <- match lastChar pre with
                | Some ch => Ok ch
                | None => Throw (Undefined "prefix[prefixlen-1]")
                end ;;
  holds <- (if negb (Ascii.eqb prefixLast "/") then
              match lastChar path with
              | Some ch => Ok (negb (Ascii.eqb ch "/"))
              | None => Throw (Undefined "path[pathlen-1]")
              end
            else Ok false) ;;
  _ <- Assert holds "prefix[prefixlen-1] != '/' && path[pathlen-1] != '/'" ;;
  if (pathlen =? prefixlen)%nat then Ok (String.eqb path pre)
  else if (pathlen <? prefixlen)%nat then Ok false
  else if negb (strncmp_eq path pre (strlen pre)) then Ok false
  else Ok (match String.get prefixlen path with
           | Some c => Ascii.eqb c "/"
           | None => false
           end).

(** ** Syntax trees

    [ASTNode] is the parser's tree type.  The cache uses a node's tag, its
    attributes, its children in order, and the walk to the parent; a pointer
    to a node is the node together with the chain of its ancestors, nearest
    first. *)

Inductive TagCode : Type :=
| NED_NED_FILE | NED_PACKAGE | NED_IMPORT | NED_EXTENDS | NED_INTERFACE_NAME
| NED_SIMPLE_MODULE | NED_MODULE_INTERFACE | NED_COMPOUND_MODULE
| NED_CHANNEL_INTERFACE | NED_CHANNEL | NED_TYPES
| NED_OTHER (code : nat).

Definition TagCode_eq_dec (a b : TagCode) : {a = b} + {a <> b}.
Proof. decide equality. apply Nat.eq_dec. Defined.

Definition tag_eqb (a b : TagCode) : bool :=
  if TagCode_eq_dec a b then true else false.

Definition getTagNameOf (t : TagCode) : string :=
  match t with
  | NED_NED_FILE => "ned-file"
  | NED_PACKAGE => "package"
  | NED_IMPORT => "import"
  | NED_EXTENDS => "extends"
  | NED_INTERFACE_NAME => "interface-name"
  | NED_SIMPLE_MODULE => "simple-module"
  | NED_MODULE_INTERFACE => "module-interface"
  | NED_COMPOUND_MODULE => "compound-module"
  | NED_CHANNEL_INTERFACE => "channel-interface"
  | NED_CHANNEL => "channel"
  | NED_TYPES => "types"
  | NED_OTHER _ => "element"
  end.

#[warnings="-register-all"]
Inductive ASTNode : Type :=
| mkNode (tag : TagCode) (attrs : list (string * string)) (children : list ASTNode).

Definition getTagCode (n : ASTNode) : TagCode :=
  match n with mkNode t _ _ => t end.

Definition getTagName (n : ASTNode) : string := getTagNameOf (getTagCode n).

Definition getChildren (n : ASTNode) : list ASTNode :=
  match n with mkNode _ _ cs => cs end.

(** [getAttribute(name)]; an attribute that is not set reads as empty. *)
Definition getAttribute (n : ASTNode) (name : string) : string :=
  match n with
  | mkNode _ attrs _ =>
      match SMap.find attrs name with Some v => v | None => "" end
  end.

Definition getFirstChildWithTag (n : ASTNode) (t : TagCode) : option ASTNode :=
  find (fun c => tag_eqb (getTagCode c) t) (getChildren n).

(** [PackageElement::getName], [ImportElement::getImportSpec],
    [NedFileElement::getFilename] *)
Definition getName (n : ASTNode) : string := getAttribute n "name".
Definition getImportSpec (n : ASTNode) : string := getAttribute n "import-spec".
Definition getFilename (n : ASTNode) : string := getAttribute n "filename".

Record ASTPtr : Type := mkPtr {
  target : ASTNode;
  ancestors : list ASTNode
}.

Definition getParent (p : ASTPtr) : option ASTPtr :=
  match ancestors p with
  | [] => None
  | a :: r => Some (mkPtr a r)
  end.

(** Modelled from the spec: [ASTNode::getParentWithTag(tag)], the "nearest
    ancestor with tag".  The search starts at the node itself: the resolver
    calls it on a file element to reach that same element. *)
Fixpoint parentWithTagFrom (n : ASTNode) (anc : list ASTNode) (t : TagCode)
  : option ASTPtr :=
  if tag_eqb (getTagCode n) t then Some (mkPtr n anc)
  else match anc with
       | [] => None
       | a :: r => parentWithTagFrom a r t
       end.

Definition getParentWithTag (p : ASTPtr) (t : TagCode) : option ASTPtr :=
  parentWithTagFrom (target p) (ancestors p) t.

(** Dereferencing a pointer that may be null. *)
Definition deref {A} (p : option A) : Res A :=
  match p with
  | Some x => Ok x
  | None => Throw NullPointer
  end.

(** ** The cache *)

(** What [registerNedType] hands to the constructor of [NedTypeInfo]. *)
Record NedTypeInfo : Type := mkNedTypeInfo {
  info_qname : string;
  info_isInnerType : bool;
  info_node : ASTPtr
}.

(** [PendingNedType(qname, isInnerType, node)] *)
Record PendingNedType : Type := mkPending {
  pending_qname : string;
  pending_isInnerType : bool;
  pending_node : ASTPtr
}.

(** [NedLookupContext(element, qname)]; the element may be null. *)
Record NedLookupContext : Type := mkContext {
  ctx_element : option ASTPtr;
  ctx_qname : string
}.

(** The members of [NedResourceCache] that the operations read and write. *)
Record Cache : Type := mkCache {
  nedFiles : SMap.t ASTNode;
  packageDotNedFiles : SMap.t ASTNode;
  doneLoadingNedFilesCalled : bool;
  nedTypes : SMap.t NedTypeInfo;
  nedTypeNames : list string;
  folderPackages : SMap.t string;
  pendingList : list PendingNedType
}.

Definition emptyCache : Cache := mkCache [] [] false [] [] [] [].

Definition with_nedFiles (c : Cache) (m : SMap.t ASTNode) : Cache :=
  mkCache m (packageDotNedFiles c) (doneLoadingNedFilesCalled c) (nedTypes c)
          (nedTypeNames c) (folderPackages c) (pendingList c).

Definition with_packageDotNedFiles (c : Cache) (m : SMap.t ASTNode) : Cache :=
  mkCache (nedFiles c) m (doneLoadingNedFilesCalled c) (nedTypes c)
          (nedTypeNames c) (folderPackages c) (pendingList c).

Definition with_done (c : Cache) (b : bool) : Cache :=
  mkCache (nedFiles c) (packageDotNedFiles c) b (nedTypes c)
          (nedTypeNames c) (folderPackages c) (pendingList c).

Definition with_nedTypes (c : Cache) (m : SMap.t NedTypeInfo) : Cache :=
  mkCache (nedFiles c) (packageDotNedFiles c) (doneLoadingNedFilesCalled c) m
          (nedTypeNames c) (folderPackages c) (pendingList c).

Definition with_nedTypeNames (c : Cache) (l : list string) : Cache :=
  mkCache (nedFiles c) (packageDotNedFiles c) (doneLoadingNedFilesCalled c)
          (nedTypes c) l (folderPackages c) (pendingList c).

Definition with_folderPackages (c : Cache) (m : SMap.t string) : Cache :=
  mkCache (nedFiles c) (packageDotNedFiles c) (doneLoadingNedFilesCalled c)
          (nedTypes c) (nedTypeNames c) m (pendingList c).

Definition with_pendingList (c : Cache) (l : list PendingNedType) : Cache :=
  mkCache (nedFiles c) (packageDotNedFiles c) (doneLoadingNedFilesCalled c)
          (nedTypes c) (nedTypeNames c) (folderPackages c) l.

(** *** Type index *)

(** [lookup(qname)] *)
Definition lookup (c : Cache) (qname : string) : option NedTypeInfo :=
  SMap.find (nedTypes c) qname.

(** [getDecl(qname)] *)
Definition getDecl (c : Cache) (qname : string) : Res NedTypeInfo :=
  match lookup c qname with
  | Some decl => Ok decl
  | None => Throw (NedException ("NED declaration '" +++ qname +++ "' not found"))
  end.

(** [registerNedType(qname, isInnerType, node)] *)
Definition registerNedType (c : Cache) (qname : string) (isInnerType : bool)
           (node : ASTPtr) : Cache :=
  let decl := mkNedTypeInfo qname isInnerType node in
  with_nedTypeNames (with_nedTypes c (SMap.set (nedTypes c) qname decl)) [].

(** [getTypeNames()]: the listing is filled from the type index when it is
    empty and the index is not; the filled cache is part of the result. *)
Definition getTypeNames (c : Cache) : Cache * list string :=
  match nedTypeNames c, nedTypes c with
  | [], _ :: _ =>
      let names := SMap.keys (nedTypes c) in
      (with_nedTypeNames c names, names)
  | names, _ => (c, names)
  end.

(** *** The view of the registered names that the resolver consults *)

(** Modelled from the spec: the interface [INedTypeNames] of
    nedresourcecache.h, "membership test and indexed enumeration over
    currently registered QNames"; the resolver calls [contains], [size] and
    [get] on it.  The object behind the interface may keep a memo:
    [consulted] is the object as a call of [size] or [get] leaves it, and
    such a call changes none of its answers. *)
Class INedTypeNames (T : Type) : Type := {
  contains : T -> string -> bool;
  size : T -> nat;
  get : T -> nat -> string;
  consulted : T -> T;
  consulted_contains : forall qnames qname,
      contains (consulted qnames) qname = contains qnames qname;
  consulted_size : forall qnames, size (consulted qnames) = size qnames;
  consulted_get : forall qnames k, get (consulted qnames) k = get qnames k
}.

(** [getTypeNames] after [getTypeNames]: the listing is the same, and so is
    the cache. *)
Lemma getTypeNames_again (c : Cache) :
  getTypeNames (fst (getTypeNames c)) = (fst (getTypeNames c), snd (getTypeNames c)).
Proof.
  unfold getTypeNames.
  destruct (nedTypeNames c) as [|n names] eqn:N; destruct (nedTypes c) as [|b m] eqn:M;
    simpl; rewrite ?N, ?M; reflexivity.
Qed.

Lemma getTypeNames_lookup (c : Cache) (qname : string) :
  lookup (fst (getTypeNames c)) qname = lookup c qname.
Proof.
  unfold getTypeNames, lookup.
  destruct (nedTypeNames c) as [|n names] eqn:N; destruct (nedTypes c) as [|b m] eqn:M;
    simpl; rewrite ?M; reflexivity.
Qed.

(** Modelled from the spec: [CachedTypeNames] of nedresourcecache.h, the view
    of the cache's own type index against which the dependencies of a
    pending type are resolved: membership by [lookup], enumeration by
    [getTypeNames].  [size] and [get] go through [getTypeNames], which fills
    the memo [nedTypeNames] of the cache when it is empty: the cache after
    such a call is the one [getTypeNames] leaves. *)
#[export] Instance CachedTypeNames : INedTypeNames Cache := {
  contains c qname := match lookup c qname with Some _ => true | None => false end;
  size c := List.length (snd (getTypeNames c));
  get c k := nth k (snd (getTypeNames c)) "";
  consulted c := fst (getTypeNames c);
  consulted_contains c qname :=
    f_equal (fun o => match o with Some _ => true | None => false end)
            (getTypeNames_lookup c qname);
  consulted_size c :=
    f_equal (fun r => List.length (snd r)) (getTypeNames_again c);
  consulted_get c k :=
    f_equal (fun r => nth k (snd r) "") (getTypeNames_again c)
}.

(** The names a view enumerates, [get(0)], ..., [get(size()-1)]. *)
Definition enumerate {T} `{INedTypeNames T} (qnames : T) : list string :=
  map (get qnames) (seq 0 (size qnames)).

(** ** The surroundings of the cache

    The parser, the validators, the pattern matcher and the file system are
    other components; the cache sees them through these operations.  Paths
    are interpreted against the working directory [cwd]. *)

Inductive Severity : Type := SEVERITY_INFO | SEVERITY_WARNING | SEVERITY_ERROR.

Record ErrorEntry : Type := mkError {
  errorSeverityCode : Severity;
  errorText : string;
  errorLocation : string
}.

Definition ErrorStore := list ErrorEntry.

Record ParseOut : Type := mkParseOut {
  parsedTree : option ASTNode;
  parseErrors : ErrorStore
}.

(** A directory entry as the globber and [isDirectory] report it. *)
#[warnings="-register-all"]
Inductive FsEntry : Type :=
| FsFile (filename : string)
| FsDir (filename : string) (content : list FsEntry).

Record World : Type := mkWorld {
  (** [tidyFilename(toAbsolutePath(pathname), true)] *)
  canonicalize : string -> string -> string;
  (** [PushDir(folderName)] of common/fileutil: the working directory it
      sets, and the message of the exception it throws when the folder
      cannot be entered *)
  chdir : string -> string -> string;
  pushDirError : string -> string -> option string;
  fileExists : string -> string -> bool;
  (** what is on disk under a folder: entries in globbing order *)
  folderContent : string -> string -> list FsEntry;
  parseXML : string -> string -> ParseOut;
  parseNedFile : string -> string -> ParseOut;
  (** [parseNedText(nedText, fname)] *)
  parseNedText : string -> string -> ParseOut;
  dtdValidate : option ASTNode -> ErrorStore;
  syntaxValidate : option ASTNode -> ErrorStore;
  getBuiltInDeclarations : string;
  (** [PatternMatcher::containsWildcards(pattern)] *)
  containsWildcards : string -> bool;
  (** [PatternMatcher(pattern, true, true, true).matches(s)] *)
  patternMatches : string -> string -> bool
}.

Section Resolver.

Variable W : World.

(** [getParentContextOf(qname, node)] *)
Definition getParentContextOf (qname : string) (node : ASTPtr) : Res NedLookupContext :=
  contextNode <- deref (getParent node) ;;
  let contextNode' :=
    if tag_eqb (getTagCode (target contextNode)) NED_TYPES
    then getParent contextNode
    else Some contextNode in
  let contextQName :=
    match rfind qname "." with
    | None => ""
    | Some lastdot => substring 0 lastdot qname
    end in
  Ok (mkContext contextNode' contextQName).

(** The test both import steps apply to a candidate for the simple name. *)
Definition namesType (candidate nedTypeName : string) : bool :=
  opp_stringendswith candidate ("." +++ nedTypeName)
  || String.eqb candidate nedTypeName.

(** Step (a): [nedTypeName] as an inner type of the enclosing compound
    module; [None] when the step does not apply or finds nothing. *)
Definition innerTypeStep {T} `{INedTypeNames T} (qnames : T)
           (element : ASTPtr) (contextQName nedTypeName : string)
  : Res (option string) :=
  if tag_eqb (getTagCode (target element)) NED_COMPOUND_MODULE then
    parent <- deref (getParent element) ;;
    let contextIsInnerType :=
      match getParentWithTag parent NED_COMPOUND_MODULE with
      | Some _ => true
      | None => false
      end in
    qname <- (if contextIsInnerType then
                match rfind contextQName "." with
                | Some index => Ok (substring 0 index contextQName)
                | None => Throw (AssertFailure "index != -1")
                end
              else Ok contextQName) ;;
    let qname := qname +++ "." +++ nedTypeName in
    if contains qnames qname then Ok (Some qname) else Ok None
  else Ok None.

(** The import specs of a file element, in file order. *)
Definition collectImports (nedfileNode : ASTNode) : list string :=
  map getImportSpec
      (filter (fun c => tag_eqb (getTagCode c) NED_IMPORT) (getChildren nedfileNode)).

(** Step (b): the first import that is a registered name and names the type. *)
Definition exactImportStep {T} `{INedTypeNames T} (qnames : T)
           (imports : list string) (nedTypeName : string) : option string :=
  find (fun import => contains qnames import && namesType import nedTypeName) imports.

(** Step (c): the name in the package of the file. *)
Definition samePackageName (nedfileNode : ASTNode) (nedTypeName : string) : string :=
  let packageName :=
    match getFirstChildWithTag nedfileNode NED_PACKAGE with
    | Some packageNode => getName packageNode
    | None => ""
    end in
  if opp_isempty packageName then nedTypeName
  else packageName +++ "." +++ nedTypeName.

(** Step (d): for each import with wildcards, in file order, the first
    enumerated name that names the type and matches the pattern.  The loop
    over the names calls [size] and [get], so the view that comes out is the
    consulted one; the answer comes with it. *)
Fixpoint wildcardImportStep {T} `{INedTypeNames T} (qnames : T)
         (imports : list string) (nedTypeName : string) : T * option string :=
  match imports with
  | [] => (qnames, None)
  | import :: rest =>
      if containsWildcards W import then
        match find (fun qname => namesType qname nedTypeName
                                 && patternMatches W import qname)
                   (enumerate qnames) with
        | Some qname => (consulted qnames, Some qname)
        | None => wildcardImportStep (consulted qnames) rest nedTypeName
        end
      else wildcardImportStep qnames rest nedTypeName
  end.

(** Steps (c) and (d), tried when no import names the type exactly. *)
Definition laterSteps {T} `{INedTypeNames T} (qnames : T) (nedfileNode : ASTNode)
           (imports : list string) (nedTypeName : string) : T * string :=
  let qname := samePackageName nedfileNode nedTypeName in
  if contains qnames qname then (qnames, qname)
  else match wildcardImportStep qnames imports nedTypeName with
       | (qnames', Some qname) => (qnames', qname)
       | (qnames', None) => (qnames', "")
       end.

(** [resolveNedType(context, nedTypeName, qnames)]: the answer, and the view
    as the call leaves it. *)
Definition resolveNedType {T} `{INedTypeNames T} (context : NedLookupContext)
           (nedTypeName : string) (qnames : T) : T * Res string :=
  if negb (strchr nedTypeName ".") then
    match deref (ctx_element context) with
    | Throw e => (qnames, Throw e)
    | Ok element =>
        match innerTypeStep qnames element (ctx_qname context) nedTypeName with
        | Throw e => (qnames, Throw e)
        | Ok (Some qname) => (qnames, Ok qname)
        | Ok None =>
            match deref (getParentWithTag element NED_NED_FILE) with
            | Throw e => (qnames, Throw e)
            | Ok nedfile =>
                let nedfileNode := target nedfile in
                let imports := collectImports nedfileNode in
                match exactImportStep qnames imports nedTypeName with
                | Some import => (qnames, Ok import)
                | None =>
                    let (qnames', qname) :=
                      laterSteps qnames nedfileNode imports nedTypeName in
                    (qnames', Ok qname)
                end
            end
        end
    end
  else
    (qnames, if contains qnames nedTypeName then Ok nedTypeName else Ok "").

(** ** Pending types and their registration *)

(** The tags of the elements that declare a type. *)
Definition isNedTypeTag (t : TagCode) : bool :=
  match t with
  | NED_CHANNEL | NED_CHANNEL_INTERFACE | NED_SIMPLE_MODULE
  | NED_COMPOUND_MODULE | NED_MODULE_INTERFACE => true
  | _ => false
  end.

(** [collectNedTypesFrom(node, packagePrefix, areInnerTypes)]: the entries
    it pushes onto the pending list, in order; [up] is the chain of
    ancestors of [node]. *)
Fixpoint collectNedTypesFrom (node : ASTNode) (up : list ASTNode)
         (packagePrefix : string) (areInnerTypes : bool) : list PendingNedType :=
  match node with
  | mkNode _ _ cs =>
      (fix each (l : list ASTNode) : list PendingNedType :=
         match l with
         | [] => []
         | child :: rest =>
             (if isNedTypeTag (getTagCode child) then
                let qname := packagePrefix +++ getAttribute child "name" in
                mkPending qname areInnerTypes (mkPtr child (node :: up))
                :: match child with
                   | mkNode _ _ gcs =>
                       (fix firstTypes (g : list ASTNode) : list PendingNedType :=
                          match g with
                          | [] => []
                          | types :: g' =>
                              if tag_eqb (getTagCode types) NED_TYPES
                              then collectNedTypesFrom types (child :: node :: up)
                                                       (qname +++ ".") true
                              else firstTypes g'
                          end) gcs
                   end
              else [])
             ++ each rest
         end) cs
  end.

(** The same as an update of the cache ([collectNedType] pushes each entry
    at the back of the pending list). *)
Definition collectNedTypes (c : Cache) (node : ASTNode) (up : list ASTNode)
           (packagePrefix : string) (areInnerTypes : bool) : Cache :=
  with_pendingList c
    (pendingList c ++ collectNedTypesFrom node up packagePrefix areInnerTypes).

(** The loop of [areDependenciesResolved] over the children of the node.
    Modelled from the spec: the two-argument [resolveNedType] of
    nedresourcecache.h, which resolves against the cache's own view; the
    cache comes back from each call with its memo as the view left it. *)
Fixpoint allResolve (c : Cache) (context : NedLookupContext)
         (cs : list ASTNode) : Cache * Res bool :=
  match cs with
  | [] => (c, Ok true)
  | child :: rest =>
      if negb (tag_eqb (getTagCode child) NED_EXTENDS)
         && negb (tag_eqb (getTagCode child) NED_INTERFACE_NAME)
      then allResolve c context rest
      else
        let name := getAttribute child "name" in
        match resolveNedType context name c with
        | (c', Throw e) => (c', Throw e)
        | (c', Ok qname) =>
            if opp_isempty qname then (c', Ok false)
            else allResolve c' context rest
        end
  end.

(** [areDependenciesResolved(qname, node)]: the answer, and the cache as the
    resolver leaves it (all it writes is the memo of [getTypeNames]). *)
Definition areDependenciesResolved (c : Cache) (qname : string) (node : ASTPtr)
  : Cache * Res bool :=
  match getParentContextOf qname node with
  | Throw e => (c, Throw e)
  | Ok context => allResolve c context (getChildren (target node))
  end.

(** The redeclaration check and the registration that follows it, as the
    loop of [registerPendingNedTypes] performs them on an entry. *)
Definition registerChecked (c : Cache) (type : PendingNedType) : Res Cache :=
  match lookup c (pending_qname type) with
  | Some _ =>
      Throw (NedException
               ("Redeclaration of " +++ getTagName (target (pending_node type))
                +++ " " +++ pending_qname type))
  | None =>
      Ok (registerNedType c (pending_qname type) (pending_isInnerType type)
                          (pending_node type))
  end.

(** One run of the [for] loop of [registerPendingNedTypes]: [kept] are the
    entries before index [i], [todo] those from [i] on, so that the pending
    list of [c] is [kept ++ todo]. *)
Fixpoint scanPending (c : Cache) (kept todo : list PendingNedType)
         (again : bool) : Cache * Res bool :=
  match todo with
  | [] => (c, Ok again)
  | type :: rest =>
      match areDependenciesResolved c (pending_qname type) (pending_node type) with
      | (c0, Throw e) => (c0, Throw e)
      | (c0, Ok false) => scanPending c0 (kept ++ [type]) rest again
      | (c0, Ok true) =>
          match registerChecked c0 type with
          | Throw e => (c0, Throw e)
          | Ok c1 =>
              let c2 := with_pendingList c1 (kept ++ rest) in
              scanPending c2 kept rest true
          end
      end
  end.

(** The [while (again)] loop; each further pass follows one that erased an
    entry, so [fuel] above the length of the pending list is never used up. *)
Fixpoint registerLoop (fuel : nat) (c : Cache) : Cache * Res unit :=
  match fuel with
  | O => (c, Ok tt)
  | S fuel' =>
      match scanPending c [] (pendingList c) false with
      | (c', Throw e) => (c', Throw e)
      | (c', Ok true) => registerLoop fuel' c'
      | (c', Ok false) => (c', Ok tt)
      end
  end.

(** The exception of [registerPendingNedTypes] for the entries left. *)
Definition unresolvedError (pending : list PendingNedType) : Exn :=
  let unresolvedNames := join_names (map pending_qname pending) in
  match pending with
  | [_] => NedException ("NED type '" +++ unresolvedNames +++
             "' could not be fully resolved due to a missing base type or interface")
  | _ => NedException ("The following NED types could not be fully resolved due to a missing base type or interface: "
                       +++ unresolvedNames)
  end.

(** [registerPendingNedTypes()] *)
Definition registerPendingNedTypes (c : Cache) : Cache * Res unit :=
  match registerLoop (S (List.length (pendingList c))) c with
  | (c', Throw e) => (c', Throw e)
  | (c', Ok _) =>
      match pendingList c' with
      | [] => (c', Ok tt)
      | pending => (c', Throw (unresolvedError pending))
      end
  end.

End Resolver.

(** ** Loading files and folders *)

Module Excluded.

Definition isspace (c : ascii) : bool :=
  let n := nat_of_ascii c in
  ((n =? 32) || ((9 <=? n) && (n <=? 13)))%nat.

Fixpoint split (sep : ascii) (s : string) : list string :=
  match s with
  | EmptyString => [EmptyString]
  | String c r =>
      if Ascii.eqb c sep then EmptyString :: split sep r
      else match split sep r with
           | [] => [String c EmptyString]
           | tok :: toks => String c tok :: toks
           end
  end.

Fixpoint ltrim (s : string) : string :=
  match s with
  | String c r => if isspace c then ltrim r else s
  | EmptyString => EmptyString
  end.

Fixpoint rtrim (s : string) : string :=
  match s with
  | EmptyString => EmptyString
  | String c r =>
      let r' := rtrim r in
      if isspace c && opp_isempty r' then EmptyString else String c r'
  end.

(** Modelled from the spec: [opp_splitandtrim(text, ";")] of
    common/stringutil, for "a string of ;-separated package names". *)
Definition opp_splitandtrim (text : string) (sep : ascii) : list string :=
  map (fun tok => rtrim (ltrim tok)) (split sep text).

Definition opp_nulltoempty (s : option string) : string :=
  match s with Some x => x | None => "" end.

(** The set of excluded packages that [loadNedSourceFolder] builds. *)
Definition parse (excludedPackagesStr : option string) : list string :=
  filter (fun pkg => negb (opp_isempty pkg))
         (opp_splitandtrim (opp_nulltoempty excludedPackagesStr) ";").

End Excluded.

(** [contains(vector, x)] *)
Definition containsName (l : list string) (x : string) : bool :=
  existsb (String.eqb x) l.

(** [isPackageNedFile(fname)] *)
Definition isPackageNedFile (fname : string) : bool :=
  String.eqb fname "package.ned" || opp_stringendswith fname "/package.ned".

(** [ErrorStore::containsError()]: some message has the severity of an
    error. *)
Definition containsError (errors : ErrorStore) : bool :=
  existsb (fun e => match errorSeverityCode e with SEVERITY_ERROR => true | _ => false end)
          errors.

(** [getFirstError(errors, prefix)] *)
Definition getFirstError (errors : ErrorStore) (pre : option string) : Res string :=
  match find (fun e => match errorSeverityCode e with SEVERITY_ERROR => true | _ => false end)
             errors with
  | None => Throw (AssertFailure "i != errors->numMessages()")
  | Some e =>
      let message :=
        match errorText e with
        | EmptyString => EmptyString
        | String c r => String (opp_toupper c) r
        end in
      let location := errorLocation e in
      let message :=
        if opp_stringbeginswith message "Syntax error, unexpected"
        then "Syntax error" else message in
      let message :=
        if negb (opp_isempty location) then message +++ ", at " +++ location
        else message in
      Ok (match pre with Some p => p +++ message | None => message end)
  end.

(** [throw NedException("%s", getFirstError(&errors, prefix).c_str())] *)
Definition throwFirstError {A} (errors : ErrorStore) (pre : option string) : Res A :=
  msg <- getFirstError errors pre ;; Throw (NedException msg).

Section Loader.

Variable W : World.

(** [parseAndValidateNedFileOrText(fname, nedText, isXML)] *)
Definition parseAndValidateNedFileOrText (cwd fname : string)
           (nedText : option string) (isXML : bool) : Res ASTNode :=
  out <- (if isXML then
            match nedText with
            | Some _ => Throw (NedException
                          "loadNedText(): Parsing XML from string not supported")
            | None => Ok (parseXML W cwd fname)
            end
          else
            match nedText with
            | Some text => Ok (parseNedText W text fname)
            | None => Ok (parseNedFile W cwd fname)
            end) ;;
  let tree := parsedTree out in
  let errors := parseErrors out in
  if containsError errors then throwFirstError errors None
  else
    let errors := errors ++ dtdValidate W tree in
    if containsError errors
    then throwFirstError errors (Some "NED internal DTD validation failure: ")
    else
      let errors := errors ++ syntaxValidate W tree in
      if containsError errors then throwFirstError errors None
      else
        match tree with
        | Some nedFileElement =>
            if tag_eqb (getTagCode nedFileElement) NED_NED_FILE
            then Ok nedFileElement
            else Throw (NedException
                          ("<ned-file> expected as root element, in file " +++ fname))
        | None => Throw (NedException
                           ("<ned-file> expected as root element, in file " +++ fname))
        end.

(** [addFile(nedFilename, node)] *)
Definition addFile (c : Cache) (nedFilename : string) (node : ASTNode) : Res Cache :=
  _ <- Assert (negb (SMap.containsKey (nedFiles c) nedFilename))
         "!containsKey(nedFiles, std::string(nedFilename))" ;;
  Ok (with_nedFiles c (SMap.set (nedFiles c) nedFilename node)).

(** The name of the package declaration of a file, empty without one. *)
Definition declaredPackageOf (tree : ASTNode) : string :=
  match getFirstChildWithTag tree NED_PACKAGE with
  | Some packageDecl => getName packageDecl
  | None => ""
  end.

(** [doLoadNedFileOrText(nedFilename, nedText, expectedPackage, isXML)] *)
Definition doLoadNedFileOrText (cwd : string) (nedFilename nedText : option string)
           (expectedPackage : option string) (isXML : bool) (c : Cache)
  : Cache * Res unit :=
  match nedFilename with
  | None => (c, Throw (AssertFailure "nedFilename"))
  | Some nedFilename =>
      let canonicalFilename :=
        match nedText with
        | Some _ => nedFilename
        | None => canonicalize W cwd nedFilename
        end in
      if SMap.containsKey (nedFiles c) canonicalFilename then (c, Ok tt)
      else if doneLoadingNedFilesCalled c && isPackageNedFile canonicalFilename then
        (c, Throw (NedException
                     ("Cannot load " +++ canonicalFilename +++
                      ": 'package.ned' files can no longer be loaded at this point")))
      else
        match parseAndValidateNedFileOrText cwd canonicalFilename nedText isXML with
        | Throw e => (c, Throw e)
        | Ok tree =>
            let declaredPackage := declaredPackageOf tree in
            let mismatch :=
              match expectedPackage with
              | Some expected => negb (String.eqb declaredPackage expected)
              | None => false
              end in
            if mismatch then
              (c, Throw (NedException
                           ("Declared package '" +++ declaredPackage +++
                            "' does not match expected package '" +++
                            Excluded.opp_nulltoempty expectedPackage +++
                            "' in file " +++ nedFilename)))
            else
              match addFile c canonicalFilename tree with
              | Throw e => (c, Throw e)
              | Ok c1 =>
                  if doneLoadingNedFilesCalled c1 then
                    let packagePrefix :=
                      if opp_isempty declaredPackage then ""
                      else declaredPackage +++ "." in
                    registerPendingNedTypes W
                      (collectNedTypes c1 tree [] packagePrefix false)
                  else (c1, Ok tt)
              end
        end
  end.

(** [loadNedFile(nedFilename, expectedPackage, isXML)] *)
Definition loadNedFile (cwd : string) (nedFilename expectedPackage : option string)
           (isXML : bool) (c : Cache) : Cache * Res unit :=
  match nedFilename with
  | None => (c, Throw (NedException "loadNedFile(): File name is nullptr"))
  | Some _ => doLoadNedFileOrText cwd nedFilename None expectedPackage isXML c
  end.

(** [loadNedText(name, nedText, expectedPackage, isXML)] *)
Definition loadNedText (cwd : string) (name nedText expectedPackage : option string)
           (isXML : bool) (c : Cache) : Cache * Res unit :=
  match name with
  | None => (c, Throw (NedException "loadNedText(): Name is nullptr"))
  | Some _ => doLoadNedFileOrText cwd name nedText expectedPackage isXML c
  end.

(** [registerBuiltinDeclarations()] *)
Definition registerBuiltinDeclarations (c : Cache) : Cache * Res unit :=
  let out := parseNedText W (getBuiltInDeclarations W) "built-in-declarations" in
  if containsError (parseErrors out) then (c, throwFirstError (parseErrors out) None)
  else
    match parsedTree out with
    | Some tree =>
        if tag_eqb (getTagCode tree) NED_NED_FILE then
          match addFile c "/[built-in-declarations]/package.ned" tree with
          | Ok c' => (c', Ok tt)
          | Throw e => (c, Throw e)
          end
        else (c, Throw (AssertFailure "nedFileElement"))
    | None => (c, Throw (AssertFailure "nedFileElement"))
    end.

(** [determineRootPackageName(nedSourceFolderName)] *)
Definition determineRootPackageName (cwd nedSourceFolderName : string) : Res string :=
  let packageNedFilename := nedSourceFolderName +++ "/package.ned" in
  if negb (fileExists W cwd packageNedFilename) then Ok ""
  else
    tree <- parseAndValidateNedFileOrText cwd packageNedFilename None false ;;
    Ok (declaredPackageOf tree).

(** [filename[0] == '.'] *)
Definition startsWithDot (filename : string) : bool :=
  match filename with
  | String c _ => Ascii.eqb c "."
  | EmptyString => false
  end.

(** The [while] loop of [doLoadNedSourceFolder] over the entries the globber
    returns in the folder [cwd]; [recur] is the call of
    [doLoadNedSourceFolder] on a sub-folder. *)
Section FolderEntries.

Variable recur : FsEntry -> option string -> Cache -> Cache * Res nat.
Variable cwd : string.
Variable expectedPackage : option string.

Fixpoint loadEntries (l : list FsEntry) (c : Cache) (count : nat) : Cache * Res nat :=
  match l with
  | [] => (c, Ok count)
  | e :: rest =>
      match e with
      | FsDir filename _ =>
          if startsWithDot filename then loadEntries rest c count
          else
            match recur e (option_map (fun p => opp_join "." p filename) expectedPackage) c with
            | (c', Ok n) => loadEntries rest c' (count + n)
            | (c', Throw ex) => (c', Throw ex)
            end
      | FsFile filename =>
          if startsWithDot filename then loadEntries rest c count
          else if opp_stringendswith filename ".ned" then
            match doLoadNedFileOrText cwd (Some filename) None expectedPackage false c with
            | (c', Ok _) => loadEntries rest c' (count + 1)
            | (c', Throw ex) => (c', Throw ex)
            end
          else loadEntries rest c count
      end
  end.

End FolderEntries.

(** The test at the head of [doLoadNedSourceFolder]: the root package [""]
    cannot be excluded. *)
Definition isExcluded (expectedPackage : option string) (excludedPackages : list string)
  : bool :=
  negb (opp_isempty (Excluded.opp_nulltoempty expectedPackage))
  && containsName excludedPackages (Excluded.opp_nulltoempty expectedPackage).

(** [doLoadNedSourceFolder(folderName, expectedPackage, excludedPackages)];
    [dir] is the folder as found on disk, [cwd] the working directory of the
    caller.  The walk calls it on the entries that are folders; an entry
    that is a file has no entries of its own for the globber to return.  The
    count is an [int] in the source; it is not taken past its range here. *)
Fixpoint doLoadNedSourceFolder (cwd : string) (dir : FsEntry)
         (expectedPackage : option string) (excludedPackages : list string)
         (c : Cache) : Cache * Res nat :=
  match dir with
  | FsFile folderName =>
      if isExcluded expectedPackage excludedPackages then (c, Ok 0)
      else
        match pushDirError W cwd folderName with
        | Some msg => (c, Throw (RuntimeError msg))
        | None => (c, Ok 0)
        end
  | FsDir folderName content =>
      if isExcluded expectedPackage excludedPackages then (c, Ok 0)
      else
        match pushDirError W cwd folderName with
        | Some msg => (c, Throw (RuntimeError msg))
        | None =>
            let cwd' := chdir W cwd folderName in
            loadEntries
              (fun e pkg c => doLoadNedSourceFolder cwd' e pkg excludedPackages c)
              cwd' expectedPackage content c 0
        end
  end.

(** The handler of [loadNedSourceFolder]: a caught exception is thrown
    again under the folder's name.  A failed assertion and a null
    dereference are passed on as they are. *)
Definition rethrowForFolder (folderName : string) (e : Exn) : Exn :=
  match e with
  | NedException _ | OutOfRange | RuntimeError _ =>
      NedException ("Could not load NED sources from '" +++ folderName +++ "': " +++ what e)
  | _ => e
  end.

(** [loadNedSourceFolder(folderName, excludedPackagesStr)] *)
Definition loadNedSourceFolder (cwd folderName : string)
           (excludedPackagesStr : option string) (c : Cache) : Cache * Res nat :=
  let excludedPackages := Excluded.parse excludedPackagesStr in
  let canonicalFolderName := canonicalize W cwd folderName in
  match determineRootPackageName cwd folderName with
  | Throw e => (c, Throw (rethrowForFolder folderName e))
  | Ok rootPackageName =>
      let c1 := with_folderPackages c
                  (SMap.set (folderPackages c) canonicalFolderName rootPackageName) in
      match doLoadNedSourceFolder cwd (FsDir folderName (folderContent W cwd folderName))
                                  (Some rootPackageName) excludedPackages c1 with
      | (c', Ok count) => (c', Ok count)
      | (c', Throw e) => (c', Throw (rethrowForFolder folderName e))
      end
  end.

(** The first loop of [doneLoadingNedFiles]: the [package.ned] files, one
    for a package. *)
Fixpoint collectPackageNedFiles (files : list (string * ASTNode)) (c : Cache)
  : Cache * Res unit :=
  match files with
  | [] => (c, Ok tt)
  | (_, nedFile) :: rest =>
      let fileName := getFilename nedFile in
      if isPackageNedFile fileName then
        let packageName := declaredPackageOf nedFile in
        match SMap.find (packageDotNedFiles c) packageName with
        | Some other =>
            (c, Throw (NedException
                         ("More than one package.ned file for package '" +++ packageName
                          +++ "'" +++ (if opp_isempty packageName
                                       then " (the default package)" else "")
                          +++ ": '" +++ fileName +++ "' and '" +++ getFilename other +++ "'")))
        | None =>
            collectPackageNedFiles rest
              (with_packageDotNedFiles c (SMap.set (packageDotNedFiles c) packageName nedFile))
        end
      else collectPackageNedFiles rest c
  end.

(** The second loop: the types of every file, onto the pending list. *)
Fixpoint collectFromFiles (files : list (string * ASTNode)) (c : Cache) : Cache :=
  match files with
  | [] => c
  | (_, nedFile) :: rest =>
      let packagePrefix :=
        match getFirstChildWithTag nedFile NED_PACKAGE with
        | Some packageDecl => getName packageDecl +++ "."
        | None => ""
        end in
      collectFromFiles rest (collectNedTypes c nedFile [] packagePrefix false)
  end.

(** [doneLoadingNedFiles()] *)
Definition doneLoadingNedFiles (c : Cache) : Cache * Res unit :=
  if doneLoadingNedFilesCalled c then
    (c, Throw (NedException
                 "NedResourceCache::doneLoadingNedFiles() may only be called once"))
  else
    let c := with_done c true in
    match collectPackageNedFiles (nedFiles c) c with
    | (c', Throw e) => (c', Throw e)
    | (c', Ok _) => registerPendingNedTypes W (collectFromFiles (nedFiles c') c')
    end.

(** ** Folder queries *)

(** The loop of [getNedSourceFolderForFolder] over the folder map. *)
Fixpoint firstPrefixOf (folders : list (string * string)) (folderName : string)
  : Res string :=
  match folders with
  | [] => Ok ""
  | (folder, _) :: rest =>
      isPrefix <- isPathPrefixOf folder folderName ;;
      if isPrefix then Ok folder else firstPrefixOf rest folderName
  end.

(** [getNedSourceFolderForFolder(folder)] *)
Definition getNedSourceFolderForFolder (cwd : string) (c : Cache) (folder : string)
  : Res string :=
  let folderName := canonicalize W cwd folder in
  firstPrefixOf (folderPackages c) folderName.

(** [s.substr(pos)] *)
Definition substr_from (s : string) (pos : nat) : Res string :=
  if (strlen s <? pos)%nat then Throw OutOfRange
  else Ok (substring pos (strlen s - pos) s).

(** [getNedPackageForFolder(folder)]; the root package is read with [[]]
    through a cast to a non-const map, so the cache is part of the result. *)
Definition getNedPackageForFolder (cwd : string) (c : Cache) (folder : string)
  : Cache * Res string :=
  match getNedSourceFolderForFolder cwd c folder with
  | Throw e => (c, Throw e)
  | Ok sourceFolder =>
      if opp_isempty sourceFolder then (c, Ok "")
      else
        let folderName := canonicalize W cwd folder in
        match substr_from folderName (strlen sourceFolder) with
        | Throw e => (c, Throw e)
        | Ok suffix =>
            let suffix :=
              match suffix with
              | String "/" rest => rest
              | _ => suffix
              end in
            let subpackage := opp_replacesubstring suffix "/" "." true in
            let (rootPackage, folders) := SMap.index (folderPackages c) sourceFolder "" in
            (with_folderPackages c folders, Ok (opp_join "." rootPackage subpackage))
        end
  end.

End Loader.


(** ** The count of the folder walk, as the specification words it

    A folder whose expected package is non-empty and excluded counts for
    nothing.  Elsewhere every entry the walk visits (names that begin with a
    dot are not visited) counts: a sub-folder for its own count under the
    package extended by its name, a file whose name ends in [.ned] for one. *)

Fixpoint countNedFiles (dir : FsEntry) (expectedPackage : option string)
         (excludedPackages : list string) : nat :=
  match dir with
  | FsFile _ => 0
  | FsDir _ content =>
      if isExcluded expectedPackage excludedPackages then 0
      else
        list_sum
          (map (fun e =>
                  match e with
                  | FsDir filename _ =>
                      if startsWithDot filename then 0
                      else countNedFiles e
                             (option_map (fun p => opp_join "." p filename) expectedPackage)
                             excludedPackages
                  | FsFile filename =>
                      if startsWithDot filename then 0
                      else if opp_stringendswith filename ".ned" then 1 else 0
                  end) content)
  end.

(** Induction on a folder, with the property available for every entry. *)
Section FsEntryInduction.

Variable P : FsEntry -> Prop.
Hypothesis P_file : forall filename, P (FsFile filename).
Hypothesis P_dir : forall filename content, Forall P content -> P (FsDir filename content).

Fixpoint FsEntry_induction (e : FsEntry) : P e :=
  match e with
  | FsFile filename => P_file filename
  | FsDir filename content =>
      @P_dir filename content
        ((fix all (l : list FsEntry) : Forall P l :=
            match l with
            | [] => Forall_nil P
            | x :: r => @Forall_cons _ P x r (FsEntry_induction x) (all r)
            end) content)
  end.

End FsEntryInduction.

(** ** Further operations of the cache *)

(** [getParentPackage(package)] *)
Definition getParentPackage (package : string) : string :=
  match rfind package "." with
  | Some pos => substring 0 pos package
  | None => ""
  end.

(** The [while (true)] loop of [getPackageNedListForLookup]; each turn takes
    the package to its parent, which is shorter, so [fuel] from the length of
    the name is never used up. *)
Fixpoint packageNedList (fuel : nat) (c : Cache) (package : string) : list ASTNode :=
  let here :=
    match SMap.find (packageDotNedFiles c) package with
    | Some nedFile => [nedFile]
    | None => []
    end in
  if String.eqb package "" then here
  else match fuel with
       | O => here
       | S fuel' => here ++ packageNedList fuel' c (getParentPackage package)
       end.

(** [getPackageNedListForLookup(packageName)] *)
Definition getPackageNedListForLookup (c : Cache) (packageName : string) : list ASTNode :=
  packageNedList (strlen packageName) c packageName.

(** [resolvePath(folder, path)], on the tokens of [path]: the loop over the
    tokens, [result] being the vector built so far.  [dir] is the working
    directory that [PushDir(folder)] has set. *)
Fixpoint resolvePathItems (W : World) (dir : string) (items : list string)
         (result : list string) : list string :=
  match items with
  | [] => result
  | item :: rest =>
      let folder := canonicalize W dir item in
      if fileExists W dir folder && negb (containsName result folder)
      then resolvePathItems W dir rest (result ++ [folder])
      else resolvePathItems W dir rest result
  end.

Definition resolvePath (W : World) (cwd folder : string) (items : list string)
  : Res (list string) :=
  match pushDirError W cwd folder with
  | Some msg => Throw (RuntimeError msg)
  | None => Ok (resolvePathItems W (chdir W cwd folder) items [])
  end.

(** Induction on a syntax tree, with the property available for every child. *)
Section ASTNodeInduction.

Variable P : ASTNode -> Prop.
Hypothesis P_node : forall tag attrs children, Forall P children -> P (mkNode tag attrs children).

Fixpoint ASTNode_induction (n : ASTNode) : P n :=
  match n with
  | mkNode tag attrs children =>
      @P_node tag attrs children
        ((fix all (l : list ASTNode) : Forall P l :=
            match l with
            | [] => Forall_nil P
            | x :: r => @Forall_cons _ P x r (ASTNode_induction x) (all r)
            end) children)
  end.

End ASTNodeInduction.

(** ** Checked integer casts (src/common/intutil.h) *)

Module IntUtil.

(** An integer type that [checked_int_cast] is instantiated with: its width
    in bits and whether it is signed ([char], [short], [int], [long],
    [long long], the fixed-width types and their unsigned versions; [bool],
    whose conversion is not modular, is left out). *)
Record IntType : Type := mkIntType { bits : Z; isSigned : bool }.

Definition minOf (T : IntType) : Z :=
  if isSigned T then (- 2 ^ (bits T - 1))%Z else 0%Z.

Definition maxOf (T : IntType) : Z :=
  if isSigned T then (2 ^ (bits T - 1) - 1)%Z else (2 ^ bits T - 1)%Z.

(** The values of the type. *)
Definition inRange (T : IntType) (x : Z) : bool :=
  (minOf T <=? x)%Z && (x <=? maxOf T)%Z.

(** Conversion to [T], as [ToInt res = x] does it: the value of the type
    that is congruent to [x] modulo two to the width. *)
Definition convert (T : IntType) (x : Z) : Z :=
  let m := (x mod 2 ^ bits T)%Z in
  if isSigned T && (2 ^ (bits T - 1) <=? m)%Z then (m - 2 ^ bits T)%Z else m.

(** Integral promotion, [intBits] being the width of [int]: a type narrower
    than [int] becomes [int]. *)
Definition promote (intBits : Z) (T : IntType) : IntType :=
  if (bits T <? intBits)%Z then mkIntType intBits true else T.

(** The usual arithmetic conversions on two promoted types: the wider type
    when both are signed or both unsigned; otherwise the unsigned one unless
    the signed one is wider. *)
Definition commonType (A B : IntType) : IntType :=
  if Bool.eqb (isSigned A) (isSigned B) then
    if (bits A <? bits B)%Z then B else A
  else
    let u := if isSigned A then B else A in
    let s := if isSigned A then A else B in
    if (bits s <=? bits u)%Z then mkIntType (bits u) false else s.

(** What a call of [checked_int_cast] does: it returns [res]; or it calls
    [intCastError] with the decimal form of [num] (the helper is declared in
    the header, its body is elsewhere; [res] is what is returned should the
    helper come back); or the subtraction of the test overflows a signed
    type, which leaves the behaviour undefined. *)
Inductive CastOutcome : Type :=
| Returns (res : Z)
| IntCastError (num : Z) (res : Z)
| SignedOverflow.

(** [a - b] in the type [C], both operands converted to it: modular in an
    unsigned type, without a value when it overflows a signed one. *)
Definition subIn (C : IntType) (a b : Z) : option Z :=
  let d := (convert C a - convert C b)%Z in
  if isSigned C then (if inRange C d then Some d else None)
  else Some (d mod 2 ^ bits C)%Z.

(** [checked_int_cast<ToInt, FromInt>(x)], for [x] a value of [FromInt].
    The test [(x<0) != (res<0) || x-res != 0] is evaluated left to right, the
    subtraction in the common type of the promoted operands. *)
Definition checked_int_cast (intBits : Z) (ToInt FromInt : IntType) (x : Z) : CastOutcome :=
  let res := convert ToInt x in
  if negb (Bool.eqb (x <? 0)%Z (res <? 0)%Z) then IntCastError x res
  else
    match subIn (commonType (promote intBits FromInt) (promote intBits ToInt)) x res with
    | None => SignedOverflow
    | Some d => if negb (d =? 0)%Z then IntCastError x res else Returns res
    end.

End IntUtil.

(** ** Vocabulary of the statements *)

(** The file index and the folder map are the same in both caches. *)
Definition sameStore (c c' : Cache) : Prop :=
  nedFiles c' = nedFiles c /\ folderPackages c' = folderPackages c.

(** The canonical key under which [doLoadNedFileOrText] files its argument. *)
Definition fileKey (W : World) (cwd nedFilename : string) (nedText : option string)
  : string :=
  match nedText with
  | Some _ => nedFilename
  | None => canonicalize W cwd nedFilename
  end.

(** [qname] is in the type index. *)
Definition registered (c : Cache) (qname : string) : Prop := lookup c qname <> None.

(** Whether the dependencies of a pending entry resolve in [c]. *)
Definition ready (W : World) (c : Cache) (p : PendingNedType) : Res bool :=
  snd (areDependenciesResolved W c (pending_qname p) (pending_node p)).

(** [c'] is [c], or [c] with the memo of type names filled by
    [getTypeNames]. *)
Definition memoFilled (c c' : Cache) : Prop :=
  c' = c \/ c' = fst (getTypeNames c).

(** [l1] is [l2] with some elements taken out, the others in their order. *)
Inductive Subseq {A : Type} : list A -> list A -> Prop :=
| Subseq_nil : Subseq [] []
| Subseq_keep (x : A) (l1 l2 : list A) : Subseq l1 l2 -> Subseq (x :: l1) (x :: l2)
| Subseq_drop (x : A) (l1 l2 : list A) : Subseq l1 l2 -> Subseq l1 (x :: l2).

(** What registration does to a cache: registered names stay registered,
    every pending entry is still pending or has its name registered, and the
    pending list keeps its order. *)
Definition progress (c c' : Cache) : Prop :=
  (forall q, registered c q -> registered c' q)
  /\ (forall p, In p (pendingList c) ->
                In p (pendingList c') \/ registered c' (pending_qname p))
  /\ Subseq (pendingList c') (pendingList c).

(** The type index and the memo of its names are the same in both caches. *)
Definition sameTypes (c c' : Cache) : Prop :=
  nedTypes c' = nedTypes c /\ nedTypeNames c' = nedTypeNames c.

(** The memo of the type names is empty or lists the keys of the type index. *)
Definition namesInSync (c : Cache) : Prop :=
  nedTypeNames c = [] \/ nedTypeNames c = SMap.keys (nedTypes c).

(** ** A small concrete world

    A handful of files and folders on which the operations can be run: the
    source folders [/r/pkg], [/r/bad] (a file in the wrong package) and
    [/r/dup] (a second marker of package [pkg]), the nested pair [/a],
    [/a/b], and the folder [/locked], which cannot be entered. *)

Module Sample.

Definition absolute (cwd p : string) : string :=
  match p with
  | String "/" _ => p
  | _ => cwd +++ "/" +++ p
  end.

(** Patterns with [*] and [?], neither of which crosses a dot. *)
Fixpoint glob (pattern : string) : string -> bool :=
  match pattern with
  | EmptyString => fun s => opp_isempty s
  | String "*" rest =>
      fix star (s : string) : bool :=
        glob rest s
        || match s with
           | String c s' => negb (Ascii.eqb c ".") && star s'
           | EmptyString => false
           end
  | String "?" rest =>
      fun s => match s with
               | String c s' => negb (Ascii.eqb c ".") && glob rest s'
               | EmptyString => false
               end
  | String p rest =>
      fun s => match s with
               | String c s' => Ascii.eqb p c && glob rest s'
               | EmptyString => false
               end
  end.

Definition element (t : TagCode) (name : string) (children : list ASTNode) : ASTNode :=
  mkNode t [("name", name)] children.

Definition package (name : string) : ASTNode := element NED_PACKAGE name [].
Definition extends (name : string) : ASTNode := element NED_EXTENDS name [].
Definition import (spec : string) : ASTNode := mkNode NED_IMPORT [("import-spec", spec)] [].

Definition nedFile (filename : string) (children : list ASTNode) : ASTNode :=
  mkNode NED_NED_FILE [("filename", filename)] children.

Definition files : SMap.t ASTNode :=
  [ ("/r/pkg/package.ned", nedFile "/r/pkg/package.ned" [package "pkg"]);
    ("/r/pkg/A.ned",
      nedFile "/r/pkg/A.ned"
        [package "pkg"; element NED_SIMPLE_MODULE "A" [extends "B"]]);
    ("/r/pkg/B.ned",
      nedFile "/r/pkg/B.ned" [package "pkg"; element NED_SIMPLE_MODULE "B" []]);
    ("/r/pkg/sub/C.ned",
      nedFile "/r/pkg/sub/C.ned"
        [package "pkg.sub"; import "pkg.*";
         element NED_COMPOUND_MODULE "C"
           [extends "A";
            mkNode NED_TYPES []
              [element NED_SIMPLE_MODULE "Inner" [];
               element NED_COMPOUND_MODULE "User" [extends "Inner"]]]]);
    ("/r/pkg/skip/D.ned",
      nedFile "/r/pkg/skip/D.ned"
        [package "pkg.skip"; element NED_CHANNEL "D" [extends "Missing"]]);
    ("/r/pkg/.git/X.ned", nedFile "/r/pkg/.git/X.ned" []);
    ("/r/bad/M.ned",
      nedFile "/r/bad/M.ned" [package "zzz"; element NED_SIMPLE_MODULE "M" []]);
    ("/r/dup/package.ned", nedFile "/r/dup/package.ned" [package "pkg"]) ].

Definition folders : SMap.t (list FsEntry) :=
  [ ("/r/pkg",
      [FsFile "A.ned"; FsFile "B.ned"; FsFile "README.txt"; FsFile "package.ned";
       FsDir ".git" [FsFile "X.ned"];
       FsDir "skip" [FsFile "D.ned"];
       FsDir "sub" [FsFile "C.ned"]]);
    ("/r/bad", [FsFile "M.ned"]);
    ("/r/dup", [FsFile "package.ned"]);
    ("/a", [FsDir "b" []]);
    ("/a/b", []) ].

Definition builtins : string := "package ned; channel IdealChannel {}".

Definition builtinsTree : ASTNode :=
  nedFile "built-in-declarations"
    [package "ned"; element NED_CHANNEL "IdealChannel" []].

Definition parseFile (cwd fname : string) : ParseOut :=
  match SMap.find files (absolute cwd fname) with
  | Some tree => mkParseOut (Some tree) []
  | None => mkParseOut None [mkError SEVERITY_ERROR "cannot read file" fname]
  end.

Definition parseText (text fname : string) : ParseOut :=
  if String.eqb text builtins then mkParseOut (Some builtinsTree) []
  else mkParseOut None [mkError SEVERITY_ERROR "syntax error, unexpected text" (fname +++ ":1")].

Definition world : World :=
  {| canonicalize := absolute;
     chdir := absolute;
     pushDirError := fun cwd p =>
       if String.eqb (absolute cwd p) "/locked"
       then Some "Cannot enter folder /locked" else None;
     fileExists := fun cwd p => SMap.containsKey files (absolute cwd p);
     folderContent := fun cwd p =>
       match SMap.find folders (absolute cwd p) with
       | Some content => content
       | None => []
       end;
     parseXML := fun cwd fname =>
       mkParseOut None [mkError SEVERITY_ERROR "not an XML file" fname];
     parseNedFile := parseFile;
     parseNedText := parseText;
     dtdValidate := fun _ => [];
     syntaxValidate := fun _ => [];
     getBuiltInDeclarations := builtins;
     containsWildcards := fun s => strchr s "*" || strchr s "?";
     patternMatches := glob |}.

(** The cache after loading [/r/pkg] with [pkg.skip] excluded. *)
Definition loaded : Cache :=
  fst (loadNedSourceFolder world "/" "/r/pkg" (Some "pkg.skip") emptyCache).

(** ... and after [doneLoadingNedFiles]. *)
Definition finalized : Cache := fst (doneLoadingNedFiles world loaded).

(** The cache after loading the nested folders [/a] and [/a/b]. *)
Definition nested : Cache :=
  fst (loadNedSourceFolder world "/" "/a/b" None
         (fst (loadNedSourceFolder world "/" "/a" None emptyCache))).

(** The cache after loading [/r/pkg] and then [/r/dup]. *)
Definition two : Cache := fst (loadNedSourceFolder world "/" "/r/dup" None loaded).

(** The finalized cache with the types of a further file on the pending
    list: a type that extends one that is nowhere, in a file with a wildcard
    import. *)
Definition waiting : Cache :=
  collectNedTypes finalized
    (nedFile "/x/Late.ned"
       [package "pkg"; import "pkg.*";
        element NED_SIMPLE_MODULE "Late" [extends "Missing"]])
    [] "pkg." false.

(** The same with a file that declares a new type and, again, [pkg.B]. *)
Definition again : Cache :=
  collectNedTypes finalized
    (nedFile "/x/Again.ned"
       [package "pkg"; import "pkg.*";
        element NED_SIMPLE_MODULE "New" [extends "B"];
        element NED_SIMPLE_MODULE "B" []])
    [] "pkg." false.

(** The cache after loading [/r/pkg], then [/a], then [/a/b]. *)
Definition three : Cache :=
  fst (loadNedSourceFolder world "/" "/a/b" None
         (fst (loadNedSourceFolder world "/" "/a" None loaded))).

End Sample.


(** * Properties *)

Unset Implicit Arguments.

(** The operations are unfolded by name in the proofs, not by [simpl]. *)
Arguments doLoadNedFileOrText : simpl never.
Arguments parseAndValidateNedFileOrText : simpl never.
Arguments registerPendingNedTypes : simpl never.
Arguments areDependenciesResolved : simpl never.
Arguments resolveNedType : simpl never.
Arguments isPathPrefixOf : simpl never.
Arguments isExcluded : simpl never.
Arguments opp_stringendswith : simpl never.
Arguments opp_join : simpl never.

(** ** Strings *)

Lemma length_append (a b : string) :
  String.length (a +++ b) = String.length a + String.length b.
Proof. induction a as [|c a IH]; simpl; [reflexivity | now rewrite IH]. Qed.

Lemma substring_0_length (s : string) : substring 0 (String.length s) s = s.
Proof. induction s as [|c s IH]; simpl; [reflexivity | now rewrite IH]. Qed.

Lemma substring_0_append (p r : string) :
  substring 0 (String.length p) (p +++ r) = p.
Proof.
  induction p as [|c p IH]; simpl.
  - now destruct r.
  - now rewrite IH.
Qed.

Lemma substring_0_split (p : string) :
  forall s, substring 0 (String.length p) s = p -> exists r, s = p +++ r.
Proof.
  induction p as [|c p IH]; intros s H.
  - now exists s.
  - destruct s as [|d s]; simpl in H; [discriminate|].
    injection H as Hc Hs. subst d.
    destruct (IH _ Hs) as [r ->]. now exists r.
Qed.

Lemma get_length_append (p r : string) :
  String.get (String.length p) (p +++ r) = String.get 0 r.
Proof. induction p as [|c p IH]; simpl; [reflexivity | exact IH]. Qed.

Lemma append_empty_r (s : string) : s +++ "" = s.
Proof. induction s as [|c s IH]; simpl; [reflexivity | now rewrite IH]. Qed.

Lemma substring_at_end (s : string) : substring (String.length s) 0 s = "".
Proof. induction s as [|c s IH]; simpl; [reflexivity | exact IH]. Qed.

Lemma noTrailingSlash_nonempty (s : string) :
  noTrailingSlash s = true -> opp_isempty s = false.
Proof. destruct s; [discriminate | reflexivity]. Qed.

Lemma opp_join_empty_r (sep s : string) : opp_join sep s "" = s.
Proof. unfold opp_join. now destruct s. Qed.

(** ** Path prefixes *)

(** [isPathPrefixOf] decides the specification's [isPathPrefix] on arguments
    that pass its assertion. *)
Lemma isPathPrefixOf_spec (pre path : string) :
  noTrailingSlash pre = true -> noTrailingSlash path = true ->
  exists b, isPathPrefixOf pre path = Ok b /\ (b = true <-> isPathPrefix pre path).
Proof.
  intros Hpre Hpath. unfold isPathPrefixOf, isPathPrefix, strlen.
  unfold noTrailingSlash in Hpre, Hpath.
  destruct (lastChar pre) as [a|]; [|discriminate].
  destruct (lastChar path) as [b|]; [|discriminate].
  cbn [bindR]. rewrite Hpre. cbn [bindR]. rewrite Hpath. cbn [bindR Assert].
  destruct (Nat.eqb_spec (String.length path) (String.length pre)) as [Hlen|Hlen].
  - exists (String.eqb path pre). split; [reflexivity|].
    rewrite String.eqb_eq. split; [now left|].
    intros [H|[rest H]]; [exact H|].
    rewrite H, !length_append in Hlen. simpl in Hlen. lia.
  - destruct (Nat.ltb_spec (String.length path) (String.length pre)) as [Hlt|Hge].
    + exists false. split; [reflexivity|]. split; [discriminate|].
      intros [H|[rest H]]; subst path; [lia|].
      rewrite !length_append in Hlt. lia.
    + unfold strncmp_eq. rewrite substring_0_length.
      destruct (String.eqb_spec (substring 0 (String.length pre) path) pre) as [Heq|Hne]; simpl.
      * destruct (substring_0_split _ _ Heq) as [r ->].
        rewrite get_length_append.
        destruct r as [|c r]; simpl.
        { rewrite append_empty_r in Hlen. congruence. }
        exists (Ascii.eqb c "/"). split; [reflexivity|].
        rewrite Ascii.eqb_eq. split.
        -- intros ->. right. now exists r.
        -- intros [H|[rest H]].
           ++ exfalso. apply Hlen. now rewrite H.
           ++ assert (Hl : String.length (pre +++ String c r)
                           = String.length (pre +++ "/" +++ rest)) by now rewrite H.
              clear Hl.
              revert H. clear. induction pre as [|d pre IH]; simpl; intros H.
              ** now injection H.
              ** injection H as H. now apply IH.
      * exists false. split; [reflexivity|]. split; [discriminate|].
        intros [H|[rest H]]; subst path.
        -- now exfalso; apply Hlen.
        -- exfalso. apply Hne. apply substring_0_append.
Qed.

Lemma isPathPrefixOf_refl (f : string) :
  noTrailingSlash f = true -> isPathPrefixOf f f = Ok true.
Proof.
  intros H. destruct (isPathPrefixOf_spec _ _ H H) as [b [Hb Hiff]].
  rewrite Hb. f_equal. apply Hiff. now left.
Qed.

Lemma isPathPrefixOf_not (pre path : string) :
  noTrailingSlash pre = true -> noTrailingSlash path = true ->
  ~ isPathPrefix pre path -> isPathPrefixOf pre path = Ok false.
Proof.
  intros H1 H2 Hn. destruct (isPathPrefixOf_spec _ _ H1 H2) as [b [Hb Hiff]].
  rewrite Hb. destruct b; [|reflexivity]. exfalso. apply Hn, Hiff. reflexivity.
Qed.

(** ** Maps *)

Lemma find_In_keys {V} (m : SMap.t V) (k : string) (v : V) :
  SMap.find m k = Some v -> In k (SMap.keys m).
Proof.
  induction m as [|[k' v'] m IH]; simpl; [discriminate|].
  destruct (String.eqb_spec k' k); [now left | right; auto].
Qed.

Lemma find_None_keys {V} (m : SMap.t V) (k : string) :
  SMap.find m k = None <-> ~ In k (SMap.keys m).
Proof.
  induction m as [|[k' v'] m IH]; simpl.
  - tauto.
  - destruct (String.eqb_spec k' k); [split; [discriminate | tauto]|].
    rewrite IH. tauto.
Qed.

Lemma find_set_same {V} (m : SMap.t V) (k : string) (v : V) :
  SMap.find (SMap.set m k v) k = Some v.
Proof.
  induction m as [|[k' v'] m IH]; simpl.
  - now rewrite String.eqb_refl.
  - destruct (String.eqb_spec k' k) as [->|Hne]; simpl.
    + now rewrite String.eqb_refl.
    + destruct (String.eqb_spec k' k); [contradiction | exact IH].
Qed.

Lemma find_set_other {V} (m : SMap.t V) (k q : string) (v : V) :
  q <> k -> SMap.find (SMap.set m k v) q = SMap.find m q.
Proof.
  intros Hq. induction m as [|[k' v'] m IH]; simpl.
  - destruct (String.eqb_spec k q); [congruence | reflexivity].
  - destruct (String.eqb_spec k' k) as [->|Hne]; simpl.
    + destruct (String.eqb_spec k q); [congruence | reflexivity].
    + now rewrite IH.
Qed.

(** A new key goes to the end of the map. *)
Lemma keys_set_new {V} (m : SMap.t V) (k : string) (v : V) :
  SMap.find m k = None -> SMap.keys (SMap.set m k v) = SMap.keys m ++ [k].
Proof.
  induction m as [|[k' v'] m IH]; simpl; intros H; [reflexivity|].
  destruct (String.eqb_spec k' k); [discriminate|].
  simpl. f_equal. now apply IH.
Qed.

(** An old key keeps its place. *)
Lemma keys_set_old {V} (m : SMap.t V) (k : string) (v w : V) :
  SMap.find m k = Some w -> SMap.keys (SMap.set m k v) = SMap.keys m.
Proof.
  induction m as [|[k' v'] m IH]; simpl; intros H; [discriminate|].
  destruct (String.eqb_spec k' k); [reflexivity|].
  simpl. f_equal. now apply IH.
Qed.

Lemma keys_set_NoDup {V} (m : SMap.t V) (k : string) (v : V) :
  NoDup (SMap.keys m) -> NoDup (SMap.keys (SMap.set m k v)).
Proof.
  intros H. destruct (SMap.find m k) as [w|] eqn:E.
  - now rewrite (keys_set_old _ _ v w E).
  - rewrite (keys_set_new _ _ v E).
    apply NoDup_app; [exact H | constructor; [intros []|constructor] |].
    intros x Hx [Hk|[]]. subst x. now apply (proj1 (find_None_keys m k) E).
Qed.

Lemma keys_set_In {V} (m : SMap.t V) (k x : string) (v : V) :
  In x (SMap.keys (SMap.set m k v)) -> x = k \/ In x (SMap.keys m).
Proof.
  induction m as [|[k' v'] m IH]; simpl.
  - intros [<-|[]]. now left.
  - destruct (String.eqb_spec k' k) as [->|Hne]; simpl.
    + intros [<-|H]; auto.
    + intros [<-|H]; auto. destruct (IH H); auto.
Qed.

Lemma index_present {V} (m : SMap.t V) (k : string) (v d : V) :
  SMap.find m k = Some v -> SMap.index m k d = (v, m).
Proof. unfold SMap.index. now intros ->. Qed.

Lemma append_assoc (a b c : string) : (a +++ b) +++ c = a +++ b +++ c.
Proof. induction a as [|x a IH]; simpl; [reflexivity | now rewrite IH]. Qed.

Lemma beginswith_iff (s p : string) :
  opp_stringbeginswith s p = true <-> exists r, s = p +++ r.
Proof.
  unfold opp_stringbeginswith, strlen. rewrite String.eqb_eq. split.
  - apply substring_0_split.
  - intros [r ->]. apply substring_0_append.
Qed.

Lemma isPathPrefixb_iff (pre path : string) :
  isPathPrefixb pre path = true <-> isPathPrefix pre path.
Proof.
  unfold isPathPrefixb, isPathPrefix.
  rewrite orb_true_iff, String.eqb_eq, beginswith_iff.
  split; (intros [H|[r H]]; [now left | right; exists r]).
  - now rewrite <- append_assoc.
  - now rewrite append_assoc.
Qed.

Lemma isPathPrefixb_false (pre path : string) :
  isPathPrefixb pre path = false -> ~ isPathPrefix pre path.
Proof. intros H Hp. apply isPathPrefixb_iff in Hp. congruence. Qed.

(** ** Folder queries *)

Section FolderQueries.

Variable W : World.

Lemma with_folderPackages_same (c : Cache) : with_folderPackages c (folderPackages c) = c.
Proof. now destruct c. Qed.

Lemma firstPrefixOf_none (folders : SMap.t string) (path : string) :
  noTrailingSlash path = true ->
  (forall k, In k (SMap.keys folders) -> noTrailingSlash k = true) ->
  (forall k, In k (SMap.keys folders) -> ~ isPathPrefix k path) ->
  firstPrefixOf folders path = Ok "".
Proof.
  intros Hp. induction folders as [|[k v] m IH]; simpl; intros Hk Hn; [reflexivity|].
  rewrite (isPathPrefixOf_not k path) by auto. simpl. apply IH; auto.
Qed.

Lemma firstPrefixOf_self (folders : SMap.t string) (f : string) :
  In f (SMap.keys folders) ->
  (forall k, In k (SMap.keys folders) -> noTrailingSlash k = true) ->
  (forall k, In k (SMap.keys folders) -> k <> f -> ~ isPathPrefix k f) ->
  firstPrefixOf folders f = Ok f.
Proof.
  induction folders as [|[k v] m IH]; simpl; intros Hin Hk Hn; [contradiction|].
  assert (Hf : noTrailingSlash f = true) by (apply Hk; exact Hin).
  destruct (String.eqb_spec k f) as [->|Hne].
  - now rewrite isPathPrefixOf_refl.
  - rewrite (isPathPrefixOf_not k f) by auto. simpl.
    apply IH; auto. destruct Hin; [contradiction | assumption].
Qed.

Lemma firstPrefixOf_result (folders : SMap.t string) (path r : string) :
  firstPrefixOf folders path = Ok r -> r = "" \/ In r (SMap.keys folders).
Proof.
  induction folders as [|[k v] m IH]; simpl; intros H.
  - left. congruence.
  - destruct (isPathPrefixOf k path) as [[|]|e]; simpl in H; try discriminate.
    + right. left. congruence.
    + destruct (IH H); auto.
Qed.

(** The queries for a folder whose canonical form is a key of the folder map
    that no other key is a path prefix of. *)
Lemma folder_query_answers (cwd : string) (c : Cache) (folder f pkg : string) :
  canonicalize W cwd folder = f ->
  SMap.find (folderPackages c) f = Some pkg ->
  (forall k, In k (SMap.keys (folderPackages c)) -> noTrailingSlash k = true) ->
  (forall k, In k (SMap.keys (folderPackages c)) -> k <> f -> ~ isPathPrefix k f) ->
  getNedSourceFolderForFolder W cwd c folder = Ok f
  /\ getNedPackageForFolder W cwd c folder = (c, Ok pkg).
Proof.
  intros Hcan Hfind Hk Hn.
  assert (Hin : In f (SMap.keys (folderPackages c))) by (eapply find_In_keys; eauto).
  assert (H : getNedSourceFolderForFolder W cwd c folder = Ok f).
  { unfold getNedSourceFolderForFolder. rewrite Hcan. now apply firstPrefixOf_self. }
  split; [exact H|].
  unfold getNedPackageForFolder. rewrite H, Hcan.
  rewrite (noTrailingSlash_nonempty f (Hk f Hin)).
  unfold substr_from, strlen. rewrite Nat.ltb_irrefl, Nat.sub_diag, substring_at_end.
  simpl. rewrite (index_present _ _ _ _ Hfind).
  now rewrite with_folderPackages_same, opp_join_empty_r.
Qed.

(** C9 (amended): a path under no registered source folder.  When the
    canonical form of [p] is not empty and does not end with a slash, no key
    of the folder map is empty or ends with a slash, and no key is a path
    prefix of the canonical form of [p], both queries return the empty
    string, and the cache that [getNedPackageForFolder] hands back is the one
    it was given ([getNedSourceFolderForFolder] has no cache to hand back).
    On an empty folder map both queries do so for every path. *)
Theorem queries_outside_source_folders (cwd : string) (c : Cache) (p : string) :
  (folderPackages c = [] \/
   (noTrailingSlash (canonicalize W cwd p) = true
    /\ (forall k, In k (SMap.keys (folderPackages c)) -> noTrailingSlash k = true))) ->
  (forall k, In k (SMap.keys (folderPackages c)) ->
             ~ isPathPrefix k (canonicalize W cwd p)) ->
  getNedSourceFolderForFolder W cwd c p = Ok ""
  /\ getNedPackageForFolder W cwd c p = (c, Ok "").
Proof.
  intros Hform Hn.
  assert (H : getNedSourceFolderForFolder W cwd c p = Ok "").
  { unfold getNedSourceFolderForFolder.
    destruct Hform as [->|[Hp Hk]]; [reflexivity | now apply firstPrefixOf_none]. }
  split; [exact H|].
  unfold getNedPackageForFolder. now rewrite H.
Qed.

(** C6 (amended): a registered source folder that no other registered folder
    contains.  For a key [f] of the folder map under which [pkg] is recorded,
    when no key of the map is empty or ends with a slash and no other key is
    a path prefix of [f], [getNedSourceFolderForFolder] returns [f] and
    [getNedPackageForFolder] returns [pkg], leaving the cache as it was. *)
Theorem registered_folder_queries (cwd : string) (c : Cache) (f pkg : string) :
  canonicalize W cwd f = f ->
  SMap.find (folderPackages c) f = Some pkg ->
  (forall k, In k (SMap.keys (folderPackages c)) -> noTrailingSlash k = true) ->
  (forall k, In k (SMap.keys (folderPackages c)) -> k <> f -> ~ isPathPrefix k f) ->
  getNedSourceFolderForFolder W cwd c f = Ok f
  /\ getNedPackageForFolder W cwd c f = (c, Ok pkg).
Proof. apply folder_query_answers. Qed.

End FolderQueries.

Lemma queries_outside_source_folders_witness :
  getNedSourceFolderForFolder Sample.world "/" Sample.two "/r/other" = Ok ""
  /\ getNedPackageForFolder Sample.world "/" Sample.two "/r/other"
     = (Sample.two, Ok "").
Proof.
  apply (queries_outside_source_folders Sample.world "/" Sample.two "/r/other").
  - right. split; [reflexivity|]. intros k Hk. vm_compute in Hk.
    destruct Hk as [<-|[<-|[]]]; reflexivity.
  - intros k Hk. vm_compute in Hk.
    destruct Hk as [<-|[<-|[]]]; apply isPathPrefixb_false; reflexivity.
Defined.

(** C9 as stated fails on the root folder: after [/r/pkg] has been loaded,
    no key of the folder map is a path prefix of [/], whose canonical form
    ends with a slash, and the query for it ends in the assertion of
    [isPathPrefixOf] instead of returning the empty string. *)
Lemma root_folder_query_counterexample :
  ~ (forall (W : World) (cwd : string) (c : Cache) (p : string),
        (forall k, In k (SMap.keys (folderPackages c)) ->
                   ~ isPathPrefix k (canonicalize W cwd p)) ->
        getNedSourceFolderForFolder W cwd c p = Ok ""
        /\ getNedPackageForFolder W cwd c p = (c, Ok "")).
Proof.
  intros H.
  destruct (H Sample.world "/" Sample.loaded "/") as [H1 _].
  - intros k Hk. vm_compute in Hk. destruct Hk as [<-|[]].
    apply isPathPrefixb_false. reflexivity.
  - vm_compute in H1. discriminate H1.
Qed.

Lemma registered_folder_queries_witness :
  getNedSourceFolderForFolder Sample.world "/" Sample.two "/r/dup" = Ok "/r/dup"
  /\ getNedPackageForFolder Sample.world "/" Sample.two "/r/dup"
     = (Sample.two, Ok "pkg").
Proof.
  apply (registered_folder_queries Sample.world "/" Sample.two "/r/dup" "pkg").
  - reflexivity.
  - vm_compute. reflexivity.
  - intros k Hk. vm_compute in Hk. destruct Hk as [<-|[<-|[]]]; reflexivity.
  - intros k Hk Hne. vm_compute in Hk. destruct Hk as [<-|[<-|[]]].
    + apply isPathPrefixb_false. reflexivity.
    + now elim Hne.
Defined.

(** C6 as stated fails on nested source folders: after [/a] and [/a/b] have
    been loaded, [/a/b] is a key of the folder map with the root package [""],
    yet the source folder found for it is [/a] and its package is [b]. *)
Lemma nested_source_folder_counterexample :
  ~ (forall (W : World) (cwd : string) (c : Cache) (f pkg : string),
        canonicalize W cwd f = f ->
        SMap.find (folderPackages c) f = Some pkg ->
        getNedSourceFolderForFolder W cwd c f = Ok f
        /\ snd (getNedPackageForFolder W cwd c f) = Ok pkg).
Proof.
  intros H.
  destruct (H Sample.world "/" Sample.nested "/a/b" "" eq_refl eq_refl) as [H1 _].
  vm_compute in H1. discriminate H1.
Qed.

(** ** The memo of type names through the resolver *)

Lemma find_first {A} (f : A -> bool) (l : list A) (x : A) :
  find f l = Some x ->
  exists before after,
    l = before ++ x :: after /\ f x = true /\ forall y, In y before -> f y = false.
Proof.
  induction l as [|a l IH]; simpl; [discriminate|].
  destruct (f a) eqn:Fa.
  - intros H. injection H as <-. exists [], l. repeat split; auto. intros y [].
  - intros H. destruct (IH H) as (before & after & -> & Fx & Hb).
    exists (a :: before), after. repeat split; auto.
    intros y [<-|Hy]; auto.
Qed.

Lemma find_filter_agree {A} (f g : A -> bool) (l : list A) :
  (forall y, In y l -> f y = true -> g y = true) ->
  find f (filter g l) = find f l.
Proof.
  induction l as [|a l IH]; simpl; intros H; [reflexivity|].
  destruct (g a) eqn:Ga; simpl.
  - destruct (f a); [reflexivity|]. apply IH. auto.
  - destruct (f a) eqn:Fa.
    + rewrite (H a (or_introl eq_refl) Fa) in Ga. discriminate.
    + apply IH. auto.
Qed.

Lemma find_ext_in {A} (f g : A -> bool) (l : list A) :
  (forall y, f y = g y) -> find f l = find g l.
Proof.
  intros H. induction l as [|a l IH]; simpl; [reflexivity|].
  rewrite H, IH. reflexivity.
Qed.

Lemma map_nth_seq_all {A} (l : list A) (d : A) :
  map (fun k => nth k l d) (seq 0 (List.length l)) = l.
Proof.
  induction l as [|a l IH]; simpl; [reflexivity|].
  f_equal. rewrite <- seq_shift, map_map. exact IH.
Qed.

Lemma enumerate_cached (c : Cache) : enumerate c = snd (getTypeNames c).
Proof. unfold enumerate. simpl. apply map_nth_seq_all. Qed.

Lemma enumerate_consulted {T} `{INedTypeNames T} (qnames : T) :
  enumerate (consulted qnames) = enumerate qnames.
Proof.
  unfold enumerate. rewrite consulted_size. apply map_ext.
  intros k. apply consulted_get.
Qed.

(** The two caches are the same once [getTypeNames] has been called on
    each. *)
Definition memoEquiv (c c' : Cache) : Prop :=
  fst (getTypeNames c') = fst (getTypeNames c).

Lemma getTypeNames_fst_again (c : Cache) :
  fst (getTypeNames (fst (getTypeNames c))) = fst (getTypeNames c).
Proof. now rewrite getTypeNames_again. Qed.

Lemma getTypeNames_snd_again (c : Cache) :
  snd (getTypeNames (fst (getTypeNames c))) = snd (getTypeNames c).
Proof. now rewrite getTypeNames_again. Qed.

Lemma memoFilled_refl (c : Cache) : memoFilled c c.
Proof. now left. Qed.

Lemma memoFilled_fill (c : Cache) : memoFilled c (fst (getTypeNames c)).
Proof. now right. Qed.

Lemma memoFilled_trans (a b c : Cache) :
  memoFilled a b -> memoFilled b c -> memoFilled a c.
Proof.
  intros [->| ->] [->| ->]; [now left | now right | now right |].
  right. apply getTypeNames_fst_again.
Qed.

Lemma memoFilled_equiv (c c' : Cache) : memoFilled c c' -> memoEquiv c c'.
Proof.
  unfold memoEquiv. intros [->| ->]; [reflexivity | apply getTypeNames_fst_again].
Qed.

Lemma memoEquiv_sym (c c' : Cache) : memoEquiv c c' -> memoEquiv c' c.
Proof. unfold memoEquiv. congruence. Qed.

Lemma memoEquiv_trans (a b c : Cache) : memoEquiv a b -> memoEquiv b c -> memoEquiv a c.
Proof. unfold memoEquiv. congruence. Qed.

Lemma memoEquiv_lookup (c c' : Cache) (qname : string) :
  memoEquiv c c' -> lookup c' qname = lookup c qname.
Proof.
  intros E. rewrite <- (getTypeNames_lookup c'), <- (getTypeNames_lookup c).
  now rewrite E.
Qed.

Lemma memoEquiv_names (c c' : Cache) :
  memoEquiv c c' -> snd (getTypeNames c') = snd (getTypeNames c).
Proof.
  intros E. rewrite <- (getTypeNames_snd_again c'), <- (getTypeNames_snd_again c).
  now rewrite E.
Qed.

(** Filling the memo writes the memo and nothing else. *)
Lemma getTypeNames_frame (c : Cache) :
  fst (getTypeNames c) = with_nedTypeNames c (nedTypeNames (fst (getTypeNames c))).
Proof.
  unfold getTypeNames.
  destruct (nedTypeNames c) as [|n names] eqn:N; destruct (nedTypes c) as [|b m] eqn:M;
    simpl; try reflexivity; destruct c; simpl in *; now subst.
Qed.

Lemma getTypeNames_types (c : Cache) : nedTypes (fst (getTypeNames c)) = nedTypes c.
Proof. rewrite getTypeNames_frame. reflexivity. Qed.

Lemma memoFilled_frame (c c' : Cache) :
  memoFilled c c' -> c' = with_nedTypeNames c (nedTypeNames c').
Proof.
  intros [->| ->]; [now destruct c|].
  apply getTypeNames_frame.
Qed.

Lemma memoFilled_registerNedType (c c' : Cache) qname isInner node :
  memoFilled c c' ->
  registerNedType c' qname isInner node = registerNedType c qname isInner node.
Proof.
  intros M. rewrite (memoFilled_frame _ _ M). reflexivity.
Qed.

Lemma memoFilled_lookup (c c' : Cache) (qname : string) :
  memoFilled c c' -> lookup c' qname = lookup c qname.
Proof. intros M. rewrite (memoFilled_frame _ _ M). reflexivity. Qed.

Lemma memoFilled_pending (c c' : Cache) :
  memoFilled c c' -> pendingList c' = pendingList c.
Proof. intros M. rewrite (memoFilled_frame _ _ M). reflexivity. Qed.

Section ResolverMemo.

Variable W : World.

(** The resolver reads a view through its membership test and through the
    names it enumerates. *)
Lemma wildcardImportStep_ext {T1 T2} `{INedTypeNames T1} `{INedTypeNames T2}
      (imports : list string) (r : string) :
  forall (o1 : T1) (o2 : T2),
    enumerate o1 = enumerate o2 ->
    snd (wildcardImportStep W o1 imports r) = snd (wildcardImportStep W o2 imports r).
Proof.
  induction imports as [|import rest IH]; intros o1 o2 He; simpl; [reflexivity|].
  destruct (containsWildcards W import); [|now apply IH].
  rewrite He. destruct (find _ (enumerate o2)); [reflexivity|].
  apply IH. now rewrite !enumerate_consulted.
Qed.

Lemma laterSteps_ext {T1 T2} `{INedTypeNames T1} `{INedTypeNames T2}
      (o1 : T1) (o2 : T2) (nedfileNode : ASTNode) (imports : list string) (r : string) :
  (forall q, contains o1 q = contains o2 q) ->
  enumerate o1 = enumerate o2 ->
  snd (laterSteps W o1 nedfileNode imports r) = snd (laterSteps W o2 nedfileNode imports r).
Proof.
  intros Hc He. unfold laterSteps. rewrite Hc.
  destruct (contains o2 _); [reflexivity|].
  pose proof (wildcardImportStep_ext imports r o1 o2 He) as X.
  destruct (wildcardImportStep W o1 imports r) as [a [x|]];
    destruct (wildcardImportStep W o2 imports r) as [b [y|]]; simpl in *; congruence.
Qed.

Lemma resolveNedType_ext {T1 T2} `{INedTypeNames T1} `{INedTypeNames T2}
      (o1 : T1) (o2 : T2) (context : NedLookupContext) (r : string) :
  (forall q, contains o1 q = contains o2 q) ->
  enumerate o1 = enumerate o2 ->
  snd (resolveNedType W context r o1) = snd (resolveNedType W context r o2).
Proof.
  intros Hc He. unfold resolveNedType.
  destruct (negb (strchr r ".")); [|simpl; now rewrite Hc].
  destruct (deref (ctx_element context)) as [element|e]; [|reflexivity].
  assert (Hi : innerTypeStep o1 element (ctx_qname context) r
               = innerTypeStep o2 element (ctx_qname context) r).
  { unfold innerTypeStep. destruct (tag_eqb _ _); [|reflexivity].
    destruct (deref (getParent element)); simpl; [|reflexivity].
    destruct (match getParentWithTag _ _ with Some _ => true | None => false end).
    - destruct (rfind _ _); simpl; [now rewrite Hc | reflexivity].
    - simpl. now rewrite Hc. }
  rewrite Hi. destruct (innerTypeStep o2 _ _ _) as [[q|]|e]; try reflexivity.
  destruct (deref (getParentWithTag element NED_NED_FILE)) as [nedfile|e]; [|reflexivity].
  cbv zeta. unfold exactImportStep.
  rewrite (find_ext_in _ (fun import => contains o2 import && namesType import r))
    by (intros y; now rewrite Hc).
  destruct (find _ _); [reflexivity|].
  pose proof (laterSteps_ext o1 o2 (target nedfile) (collectImports (target nedfile)) r
                Hc He) as X.
  destruct (laterSteps W o1 _ _ r) as [a x]; destruct (laterSteps W o2 _ _ r) as [b y].
  simpl in *. congruence.
Qed.

(** On the cache, a call of the resolver leaves the cache as it was or with
    the memo filled, and filling the memo changes none of its answers. *)
Lemma wildcardImportStep_memo (imports : list string) (r : string) :
  forall c : Cache, memoFilled c (fst (wildcardImportStep W c imports r)).
Proof.
  induction imports as [|import rest IH]; intros c; simpl; [apply memoFilled_refl|].
  destruct (containsWildcards W import); [|apply IH].
  destruct (find _ _); [apply memoFilled_fill|].
  eapply memoFilled_trans; [apply memoFilled_fill | apply IH].
Qed.

Lemma resolveNedType_memo (context : NedLookupContext) (r : string) (c : Cache) :
  memoFilled c (fst (resolveNedType W context r c)).
Proof.
  unfold resolveNedType.
  destruct (negb (strchr r ".")); [|apply memoFilled_refl].
  destruct (deref (ctx_element context)) as [element|e]; [|apply memoFilled_refl].
  destruct (innerTypeStep c element _ r) as [[q|]|e]; try apply memoFilled_refl.
  destruct (deref (getParentWithTag element NED_NED_FILE)) as [nedfile|e];
    [|apply memoFilled_refl].
  cbv zeta. destruct (exactImportStep c _ r); [apply memoFilled_refl|].
  unfold laterSteps. destruct (contains c _); [apply memoFilled_refl|].
  pose proof (wildcardImportStep_memo (collectImports (target nedfile)) r c) as M.
  now destruct (wildcardImportStep W c _ r) as [c1 [q|]].
Qed.

Lemma resolveNedType_equiv (context : NedLookupContext) (r : string) (c c' : Cache) :
  memoEquiv c c' ->
  snd (resolveNedType W context r c') = snd (resolveNedType W context r c).
Proof.
  intros E. apply resolveNedType_ext.
  - intros q. simpl. now rewrite (memoEquiv_lookup _ _ q E).
  - now rewrite !enumerate_cached, (memoEquiv_names _ _ E).
Qed.

Lemma allResolve_memo (context : NedLookupContext) (cs : list ASTNode) :
  forall c, memoFilled c (fst (allResolve W c context cs)).
Proof.
  induction cs as [|child rest IH]; intros c; simpl; [apply memoFilled_refl|].
  destruct (negb (tag_eqb (getTagCode child) NED_EXTENDS)
            && negb (tag_eqb (getTagCode child) NED_INTERFACE_NAME)); [apply IH|].
  pose proof (resolveNedType_memo context (getAttribute child "name") c) as M.
  destruct (resolveNedType W context _ c) as [c1 [q|e]]; simpl in M; [|exact M].
  destruct (opp_isempty q); [exact M|].
  eapply memoFilled_trans; [exact M | apply IH].
Qed.

Lemma allResolve_equiv (context : NedLookupContext) (cs : list ASTNode) :
  forall c c', memoEquiv c c' ->
               snd (allResolve W c' context cs) = snd (allResolve W c context cs).
Proof.
  induction cs as [|child rest IH]; intros c c' E; simpl; [reflexivity|].
  destruct (negb (tag_eqb (getTagCode child) NED_EXTENDS)
            && negb (tag_eqb (getTagCode child) NED_INTERFACE_NAME)); [now apply IH|].
  pose proof (resolveNedType_equiv context (getAttribute child "name") _ _ E) as X.
  pose proof (resolveNedType_memo context (getAttribute child "name") c) as M.
  pose proof (resolveNedType_memo context (getAttribute child "name") c') as M'.
  destruct (resolveNedType W context _ c) as [c1 r1];
    destruct (resolveNedType W context _ c') as [c1' r1']; simpl in *. subst r1'.
  destruct r1 as [q|e]; [|reflexivity].
  destruct (opp_isempty q); [reflexivity|].
  apply IH.
  apply memoFilled_equiv in M, M'.
  eapply memoEquiv_trans; [apply memoEquiv_sym; exact M|].
  eapply memoEquiv_trans; [exact E | exact M'].
Qed.

Lemma areDependenciesResolved_memo (c : Cache) (qname : string) (node : ASTPtr) :
  memoFilled c (fst (areDependenciesResolved W c qname node)).
Proof.
  unfold areDependenciesResolved.
  destruct (getParentContextOf qname node); [apply allResolve_memo | apply memoFilled_refl].
Qed.

Lemma ready_memo (c c' : Cache) (p : PendingNedType) :
  memoFilled c c' -> ready W c' p = ready W c p.
Proof.
  intros M. unfold ready, areDependenciesResolved.
  destruct (getParentContextOf _ _); [|reflexivity].
  apply allResolve_equiv. now apply memoFilled_equiv.
Qed.

Lemma registerChecked_memo (c c' : Cache) (type : PendingNedType) :
  memoFilled c c' -> registerChecked c' type = registerChecked c type.
Proof.
  intros M. unfold registerChecked.
  rewrite (memoFilled_lookup _ _ _ M). destruct (lookup c _); [reflexivity|].
  now rewrite (memoFilled_registerNedType _ _ _ _ _ M).
Qed.

(** One entry of the pass: the resolver may fill the memo, the check and the
    registration are those on the cache before. *)
Lemma scanPending_step (c : Cache) (kept : list PendingNedType) (type : PendingNedType)
      (rest : list PendingNedType) (again : bool) :
  exists c0,
    memoFilled c c0
    /\ scanPending W c kept (type :: rest) again
       = match ready W c type with
         | Throw e => (c0, Throw e)
         | Ok false => scanPending W c0 (kept ++ [type]) rest again
         | Ok true =>
             match registerChecked c type with
             | Throw e => (c0, Throw e)
             | Ok c1 => scanPending W (with_pendingList c1 (kept ++ rest)) kept rest true
             end
         end.
Proof.
  pose proof (areDependenciesResolved_memo c (pending_qname type) (pending_node type)) as M.
  simpl. unfold ready.
  destruct (areDependenciesResolved W c _ _) as [c0 r]. simpl in *.
  exists c0. split; [exact M|].
  destruct r as [[|]|e]; try reflexivity.
  now rewrite (registerChecked_memo _ _ type M).
Qed.

End ResolverMemo.

(** ** What registration leaves alone *)

Section Frames.

Variable W : World.

Lemma sameStore_refl (c : Cache) : sameStore c c.
Proof. now split. Qed.

Lemma sameStore_trans (a b c : Cache) : sameStore a b -> sameStore b c -> sameStore a c.
Proof. unfold sameStore. intros [? ?] [? ?]. split; congruence. Qed.

Lemma memoFilled_sameStore (c c' : Cache) : memoFilled c c' -> sameStore c c'.
Proof. intros M. rewrite (memoFilled_frame _ _ M). now split. Qed.

Lemma scanPending_sameStore (todo : list PendingNedType) :
  forall c kept again c' r,
    scanPending W c kept todo again = (c', r) -> sameStore c c'.
Proof.
  induction todo as [|type rest IH]; intros c kept again c' r H.
  - simpl in H. injection H as <- _. apply sameStore_refl.
  - destruct (scanPending_step W c kept type rest again) as (c0 & M & E).
    rewrite E in H. clear E. apply memoFilled_sameStore in M.
    destruct (ready W c type) as [[|]|e].
    + unfold registerChecked in H. destruct (lookup c _).
      * now injection H as <- _.
      * apply IH in H. exact H.
    + apply IH in H. eapply sameStore_trans; eauto.
    + now injection H as <- _.
Qed.

Lemma registerLoop_sameStore (fuel : nat) :
  forall c c' r, registerLoop W fuel c = (c', r) -> sameStore c c'.
Proof.
  induction fuel as [|fuel IH]; simpl; intros c c' r H.
  - injection H as <- _. apply sameStore_refl.
  - destruct (scanPending W c [] (pendingList c) false) as [c1 [[|]|e]] eqn:E;
      apply scanPending_sameStore in E.
    + apply IH in H. eapply sameStore_trans; eauto.
    + now injection H as <- _.
    + now injection H as <- _.
Qed.

Lemma registerPendingNedTypes_sameStore (c c' : Cache) (r : Res unit) :
  registerPendingNedTypes W c = (c', r) -> sameStore c c'.
Proof.
  unfold registerPendingNedTypes.
  destruct (registerLoop W _ c) as [c1 [u|e]] eqn:E; apply registerLoop_sameStore in E.
  - destruct (pendingList c1); intros H; now injection H as <- _.
  - intros H; now injection H as <- _.
Qed.

Lemma doLoadNedFileOrText_folders cwd nedFilename nedText expectedPackage isXML c :
  folderPackages (fst (doLoadNedFileOrText W cwd nedFilename nedText expectedPackage isXML c))
  = folderPackages c.
Proof.
  unfold doLoadNedFileOrText.
  destruct nedFilename as [name|]; [|reflexivity].
  destruct (SMap.containsKey (nedFiles c) _); [reflexivity|].
  destruct (doneLoadingNedFilesCalled c && isPackageNedFile _); [reflexivity|].
  destruct (parseAndValidateNedFileOrText W cwd _ nedText isXML) as [tree|e]; [|reflexivity].
  destruct (match expectedPackage with Some _ => _ | None => _ end); [reflexivity|].
  unfold addFile. destruct (SMap.containsKey (nedFiles c) _); simpl; [reflexivity|].
  destruct (doneLoadingNedFilesCalled c); [|reflexivity].
  destruct (registerPendingNedTypes W _) as [c' r] eqn:E.
  apply registerPendingNedTypes_sameStore in E. destruct E as [_ E]. exact E.
Qed.

(** A call of [doLoadNedFileOrText] that returns leaves the key in the file
    index. *)
Lemma doLoadNedFileOrText_key cwd name nedText expectedPackage isXML c c' :
  doLoadNedFileOrText W cwd (Some name) nedText expectedPackage isXML c = (c', Ok tt) ->
  SMap.containsKey (nedFiles c') (fileKey W cwd name nedText) = true.
Proof.
  unfold doLoadNedFileOrText. fold (fileKey W cwd name nedText).
  destruct (SMap.containsKey (nedFiles c) _) eqn:K.
  { intros H. injection H as <-. exact K. }
  destruct (doneLoadingNedFilesCalled c && isPackageNedFile _); [discriminate|].
  destruct (parseAndValidateNedFileOrText W cwd _ nedText isXML) as [tree|e]; [|discriminate].
  destruct (match expectedPackage with Some _ => _ | None => _ end); [discriminate|].
  unfold addFile. rewrite K. simpl.
  assert (Hset : SMap.containsKey
                   (SMap.set (nedFiles c) (fileKey W cwd name nedText) tree)
                   (fileKey W cwd name nedText) = true).
  { unfold SMap.containsKey. now rewrite find_set_same. }
  destruct (doneLoadingNedFilesCalled c).
  - intros H. apply registerPendingNedTypes_sameStore in H. destruct H as [H _].
    simpl in H. now rewrite H.
  - intros H. injection H as <-. exact Hset.
Qed.

Lemma loadEntries_folders recur cwd expectedPackage (l : list FsEntry) :
  Forall (fun e => forall pkg c, folderPackages (fst (recur e pkg c)) = folderPackages c) l ->
  forall c count,
    folderPackages (fst (loadEntries W recur cwd expectedPackage l c count))
    = folderPackages c.
Proof.
  induction 1 as [|e rest He _ IH]; simpl; intros c count; [reflexivity|].
  destruct e as [filename|filename content].
  - destruct (startsWithDot filename); [apply IH|].
    destruct (opp_stringendswith filename ".ned"); [|apply IH].
    pose proof (doLoadNedFileOrText_folders cwd (Some filename) None
                  expectedPackage false c) as F.
    destruct (doLoadNedFileOrText W cwd _ _ _ _ c) as [c' [u|ex]]; simpl in *.
    + now rewrite IH.
    + exact F.
  - destruct (startsWithDot filename); [apply IH|].
    specialize (He (option_map (fun p => opp_join "." p filename) expectedPackage) c).
    destruct (recur _ _ c) as [c' [n|ex]]; simpl in *.
    + now rewrite IH.
    + exact He.
Qed.

Lemma doLoadNedSourceFolder_folders (dir : FsEntry) :
  forall cwd expectedPackage excluded c,
    folderPackages (fst (doLoadNedSourceFolder W cwd dir expectedPackage excluded c))
    = folderPackages c.
Proof.
  induction dir as [filename|filename content IH] using FsEntry_induction;
    intros cwd expectedPackage excluded c; simpl;
    (destruct (isExcluded expectedPackage excluded); [reflexivity|]);
    (destruct (pushDirError W cwd filename); [reflexivity|]); [reflexivity|].
  apply loadEntries_folders.
  eapply Forall_impl; [|exact IH]. intros e He pkg c0. apply He.
Qed.

End Frames.

(** ** Loading *)

Section Loading.

Variable W : World.

(** C2: a file whose key is in the file index.  [doLoadNedFileOrText] returns
    at once with the cache it was given, whether it is reached through
    [loadNedFile], through [loadNedText] or from the folder walk (where the
    file is still counted). *)
Theorem load_of_loaded_file_is_noop
        (cwd name : string) (nedText expectedPackage : option string)
        (isXML : bool) (c : Cache) :
  SMap.containsKey (nedFiles c) (fileKey W cwd name nedText) = true ->
  doLoadNedFileOrText W cwd (Some name) nedText expectedPackage isXML c = (c, Ok tt)
  /\ loadNedText W cwd (Some name) nedText expectedPackage isXML c = (c, Ok tt)
  /\ (nedText = None ->
      loadNedFile W cwd (Some name) expectedPackage isXML c = (c, Ok tt)
      /\ forall recur count,
           startsWithDot name = false ->
           opp_stringendswith name ".ned" = true ->
           isXML = false ->
           loadEntries W recur cwd expectedPackage [FsFile name] c count
           = (c, Ok (count + 1))).
Proof.
  intros K.
  assert (H : doLoadNedFileOrText W cwd (Some name) nedText expectedPackage isXML c
              = (c, Ok tt)).
  { unfold doLoadNedFileOrText. fold (fileKey W cwd name nedText). now rewrite K. }
  split; [exact H|]. split; [exact H|].
  intros ->. split; [exact H|].
  intros recur count Hdot Hned ->. simpl. now rewrite Hdot, Hned, H.
Qed.

(** C10: [registerBuiltinDeclarations] a second time.  After a call that
    returned, the next call on the resulting cache runs into the assertion of
    [addFile] and leaves that cache as it is. *)
Theorem registerBuiltinDeclarations_twice (c c1 : Cache) :
  registerBuiltinDeclarations W c = (c1, Ok tt) ->
  SMap.containsKey (nedFiles c1) "/[built-in-declarations]/package.ned" = true
  /\ registerBuiltinDeclarations W c1
     = (c1, Throw (AssertFailure "!containsKey(nedFiles, std::string(nedFilename))")).
Proof.
  unfold registerBuiltinDeclarations.
  destruct (containsError _) eqn:E.
  { unfold throwFirstError. destruct (getFirstError _ _); discriminate. }
  destruct (parsedTree _) as [tree|]; [|discriminate].
  destruct (tag_eqb _ _); [|discriminate].
  unfold addFile at 1.
  destruct (SMap.containsKey (nedFiles c) _) eqn:K; simpl; [discriminate|].
  intros H. injection H as <-.
  assert (K1 : SMap.containsKey
                 (nedFiles (with_nedFiles c
                    (SMap.set (nedFiles c) "/[built-in-declarations]/package.ned" tree)))
                 "/[built-in-declarations]/package.ned" = true).
  { simpl. unfold SMap.containsKey. now rewrite find_set_same. }
  split; [exact K1|].
  unfold addFile. now rewrite K1.
Qed.

(** The entries loop returns the count it was given plus what the specification
    counts for the entries. *)
Lemma loadEntries_count recur cwd expectedPackage excluded (l : list FsEntry) :
  Forall (fun e => forall pkg c c' n,
              recur e pkg c = (c', Ok n) -> n = countNedFiles e pkg excluded) l ->
  forall c count c' n,
    loadEntries W recur cwd expectedPackage l c count = (c', Ok n) ->
    n = count
        + list_sum
            (map (fun e =>
                    match e with
                    | FsDir filename _ =>
                        if startsWithDot filename then 0
                        else countNedFiles e
                               (option_map (fun p => opp_join "." p filename) expectedPackage)
                               excluded
                    | FsFile filename =>
                        if startsWithDot filename then 0
                        else if opp_stringendswith filename ".ned" then 1 else 0
                    end) l).
Proof.
  induction 1 as [|e rest He _ IH]; simpl; intros c count c' n H.
  - injection H as _ <-. lia.
  - destruct e as [filename|filename content].
    + destruct (startsWithDot filename); [now apply IH in H|].
      destruct (opp_stringendswith filename ".ned"); [|now apply IH in H].
      destruct (doLoadNedFileOrText W cwd _ _ _ _ c) as [c1 [u|ex]]; [|discriminate].
      apply IH in H. lia.
    + destruct (startsWithDot filename); [now apply IH in H|].
      destruct (recur _ _ c) as [c1 [m|ex]] eqn:R; [|discriminate].
      apply He in R. apply IH in H. lia.
Qed.

Lemma doLoadNedSourceFolder_count (dir : FsEntry) :
  forall cwd expectedPackage excluded c c' n,
    doLoadNedSourceFolder W cwd dir expectedPackage excluded c = (c', Ok n) ->
    n = countNedFiles dir expectedPackage excluded.
Proof.
  induction dir as [filename|filename content IH] using FsEntry_induction;
    intros cwd expectedPackage excluded c c' n; simpl.
  { destruct (isExcluded expectedPackage excluded); [congruence|].
    destruct (pushDirError W cwd filename); [discriminate | congruence]. }
  destruct (isExcluded expectedPackage excluded).
  - intros H. now injection H as _ <-.
  - destruct (pushDirError W cwd filename); [discriminate|].
    intros H. apply loadEntries_count with (excluded := excluded) in H; [exact H|].
    eapply Forall_impl; [|exact IH]. intros e He pkg c0 c1 m. apply He.
Qed.

(** C8: the folder map after [loadNedSourceFolder].  Once the root package
    has been determined, the walk starts from the cache that already holds
    the mapping from the canonical folder to it; when the walk throws, the
    exception is thrown again under the folder's name and the mapping is in
    the cache the call leaves behind.  The queries then answer, for every
    folder, what they answer on the cache in which the folder has just been
    registered and nothing loaded; and for the failed folder they answer as
    for a registered source folder: when its canonical form and the folders
    registered before are not empty and do not end with a slash and none of
    these folders is a path prefix of it, the query for a folder of that
    canonical form returns it as the source folder and the root package as
    the package, and leaves the cache as it is. *)
Theorem loadNedSourceFolder_keeps_mapping
        (cwd folderName : string) (excludedPackagesStr : option string)
        (c c' : Cache) (e : Exn) (rootPackageName : string) :
  determineRootPackageName W cwd folderName = Ok rootPackageName ->
  loadNedSourceFolder W cwd folderName excludedPackagesStr c = (c', Throw e) ->
  let f := canonicalize W cwd folderName in
  (exists e0,
      doLoadNedSourceFolder W cwd (FsDir folderName (folderContent W cwd folderName))
        (Some rootPackageName) (Excluded.parse excludedPackagesStr)
        (with_folderPackages c (SMap.set (folderPackages c) f rootPackageName))
      = (c', Throw e0)
      /\ e = rethrowForFolder folderName e0)
  /\ folderPackages c' = SMap.set (folderPackages c) f rootPackageName
  /\ SMap.find (folderPackages c') f = Some rootPackageName
  /\ (forall cwd2 folder,
        getNedSourceFolderForFolder W cwd2 c' folder
        = getNedSourceFolderForFolder W cwd2
            (with_folderPackages c (SMap.set (folderPackages c) f rootPackageName)) folder
        /\ snd (getNedPackageForFolder W cwd2 c' folder)
           = snd (getNedPackageForFolder W cwd2
                    (with_folderPackages c (SMap.set (folderPackages c) f rootPackageName))
                    folder))
  /\ (noTrailingSlash f = true ->
      (forall k, In k (SMap.keys (folderPackages c)) -> noTrailingSlash k = true) ->
      (forall k, In k (SMap.keys (folderPackages c)) -> k <> f -> ~ isPathPrefix k f) ->
      forall cwd2 folder,
        canonicalize W cwd2 folder = f ->
        getNedSourceFolderForFolder W cwd2 c' folder = Ok f
        /\ getNedPackageForFolder W cwd2 c' folder = (c', Ok rootPackageName)).
Proof.
  intros Hroot. unfold loadNedSourceFolder. rewrite Hroot.
  pose proof (doLoadNedSourceFolder_folders W
                (FsDir folderName (folderContent W cwd folderName)) cwd
                (Some rootPackageName) (Excluded.parse excludedPackagesStr)
                (with_folderPackages c
                   (SMap.set (folderPackages c) (canonicalize W cwd folderName)
                             rootPackageName))) as F.
  destruct (doLoadNedSourceFolder W cwd _ _ _ _) as [c1 [m|ex]]; [discriminate|].
  simpl in F. intros H. cbv zeta. injection H as <- <-.
  split; [now exists ex|].
  split; [exact F|]. split; [rewrite F; apply find_set_same|].
  split.
  { intros cwd2 folder.
    set (c0 := with_folderPackages c
                 (SMap.set (folderPackages c) (canonicalize W cwd folderName)
                           rootPackageName)).
    assert (Hs : getNedSourceFolderForFolder W cwd2 c1 folder
                 = getNedSourceFolderForFolder W cwd2 c0 folder).
    { unfold getNedSourceFolderForFolder. now rewrite F. }
    split; [exact Hs|].
    unfold getNedPackageForFolder. rewrite Hs. clear Hs.
    destruct (getNedSourceFolderForFolder W cwd2 c0 folder) as [src|ex2]; [|reflexivity].
    destruct (opp_isempty src); [reflexivity|].
    destruct (substr_from _ _); [|reflexivity].
    rewrite F. change (folderPackages c0) with (SMap.set (folderPackages c)
                 (canonicalize W cwd folderName) rootPackageName).
    now destruct (SMap.index _ src ""). }
  intros Hf Hk Hn cwd2 folder Hcan.
  apply folder_query_answers.
  - exact Hcan.
  - rewrite F. apply find_set_same.
  - intros k Hin. rewrite F in Hin. apply keys_set_In in Hin.
    destruct Hin as [->|Hin]; auto.
  - intros k Hin Hne. rewrite F in Hin. apply keys_set_In in Hin.
    destruct Hin as [->|Hin]; [now elim Hne | auto].
Qed.

(** The keys of the folder map are canonical paths: with a [canonicalize]
    that leaves no trailing slash, none gets in. *)
Lemma loadNedSourceFolder_keys_canonical
      (cwd folderName : string) (excludedPackagesStr : option string) (c : Cache) :
  (forall d p, noTrailingSlash (canonicalize W d p) = true) ->
  (forall k, In k (SMap.keys (folderPackages c)) -> noTrailingSlash k = true) ->
  forall k,
    In k (SMap.keys (folderPackages
                       (fst (loadNedSourceFolder W cwd folderName excludedPackagesStr c)))) ->
    noTrailingSlash k = true.
Proof.
  intros Hcan Hk k. unfold loadNedSourceFolder.
  destruct (determineRootPackageName W cwd folderName) as [root|e]; [|apply Hk].
  match goal with
  | |- context [doLoadNedSourceFolder W cwd ?d ?p ?x ?c1] =>
      pose proof (doLoadNedSourceFolder_folders W d cwd p x c1) as F
  end.
  destruct (doLoadNedSourceFolder W cwd _ _ _ _) as [c1 [n|e]]; simpl in *;
    rewrite F; intros Hin; apply keys_set_In in Hin;
    (destruct Hin as [->|Hin]; [apply Hcan | now apply Hk]).
Qed.

End Loading.

Lemma load_of_loaded_file_is_noop_witness :
  doLoadNedFileOrText Sample.world "/r/pkg" (Some "A.ned") None (Some "other") false
                      Sample.loaded
  = (Sample.loaded, Ok tt).
Proof.
  refine (proj1 (load_of_loaded_file_is_noop Sample.world "/r/pkg" "A.ned" None
                   (Some "other") false Sample.loaded _)).
  reflexivity.
Defined.

Lemma registerBuiltinDeclarations_twice_witness :
  registerBuiltinDeclarations Sample.world
    (fst (registerBuiltinDeclarations Sample.world emptyCache))
  = (fst (registerBuiltinDeclarations Sample.world emptyCache),
     Throw (AssertFailure "!containsKey(nedFiles, std::string(nedFilename))")).
Proof.
  refine (proj2 (registerBuiltinDeclarations_twice Sample.world emptyCache
                   (fst (registerBuiltinDeclarations Sample.world emptyCache)) _)).
  reflexivity.
Defined.

Lemma loadNedSourceFolder_keeps_mapping_witness :
  getNedSourceFolderForFolder Sample.world "/"
    (fst (loadNedSourceFolder Sample.world "/" "/r/bad" None Sample.loaded)) "/r/bad"
  = Ok "/r/bad"
  /\ getNedPackageForFolder Sample.world "/"
       (fst (loadNedSourceFolder Sample.world "/" "/r/bad" None Sample.loaded)) "/r/bad"
     = (fst (loadNedSourceFolder Sample.world "/" "/r/bad" None Sample.loaded), Ok "").
Proof.
  refine (proj2 (proj2 (proj2 (proj2 (loadNedSourceFolder_keeps_mapping Sample.world "/"
            "/r/bad" None Sample.loaded
            (fst (loadNedSourceFolder Sample.world "/" "/r/bad" None Sample.loaded))
            (NedException "Could not load NED sources from '/r/bad': Declared package 'zzz' does not match expected package '' in file M.ned")
            "" _ _)))) _ _ _ "/" "/r/bad" _).
  - reflexivity.
  - vm_compute. reflexivity.
  - reflexivity.
  - intros k Hk. vm_compute in Hk. destruct Hk as [<-|[]]. reflexivity.
  - intros k Hk _. vm_compute in Hk. destruct Hk as [<-|[]].
    apply isPathPrefixb_false. reflexivity.
  - reflexivity.
Defined.

(** ** Registration of the pending types *)

Lemma Subseq_refl {A} (l : list A) : Subseq l l.
Proof. induction l; constructor; assumption. Qed.

Lemma Subseq_trans {A} (l1 l2 l3 : list A) :
  Subseq l1 l2 -> Subseq l2 l3 -> Subseq l1 l3.
Proof.
  intros H12 H23. revert l1 H12.
  induction H23 as [|x l2 l3 _ IH|x l2 l3 _ IH]; intros l1 H12.
  - exact H12.
  - inversion H12; subst; constructor; auto.
  - constructor. auto.
Qed.

Lemma Subseq_app_head {A} (k l1 l2 : list A) :
  Subseq l1 l2 -> Subseq (k ++ l1) (k ++ l2).
Proof. intros H. induction k; simpl; [exact H | now constructor]. Qed.

Lemma Subseq_length {A} (l1 l2 : list A) :
  Subseq l1 l2 -> List.length l1 <= List.length l2.
Proof. induction 1; simpl; lia. Qed.

Lemma Subseq_In {A} (l1 l2 : list A) (x : A) :
  Subseq l1 l2 -> In x l1 -> In x l2.
Proof.
  induction 1 as [|y l1 l2 _ IH|y l1 l2 _ IH]; simpl; intros Hin; auto.
  destruct Hin; auto.
Qed.

Lemma progress_refl (c : Cache) : progress c c.
Proof.
  split; [auto|]. split; [auto|]. apply Subseq_refl.
Qed.

Lemma progress_trans (a b c : Cache) : progress a b -> progress b c -> progress a c.
Proof.
  intros (R1 & P1 & S1) (R2 & P2 & S2). split; [auto|]. split.
  - intros p Hp. destruct (P1 p Hp) as [Hb|Hb]; [apply P2, Hb | right; auto].
  - eapply Subseq_trans; eauto.
Qed.

Lemma lookup_registerNedType_same c qname isInner node :
  lookup (registerNedType c qname isInner node) qname
  = Some (mkNedTypeInfo qname isInner node).
Proof. unfold lookup, registerNedType. simpl. apply find_set_same. Qed.

Lemma lookup_registerNedType_other c qname isInner node q :
  q <> qname -> lookup (registerNedType c qname isInner node) q = lookup c q.
Proof. intros H. unfold lookup, registerNedType. simpl. now apply find_set_other. Qed.

Lemma registered_registerNedType c qname isInner node q :
  registered c q -> registered (registerNedType c qname isInner node) q.
Proof.
  unfold registered. intros H. destruct (String.eqb_spec q qname) as [->|Hne].
  - now rewrite lookup_registerNedType_same.
  - now rewrite lookup_registerNedType_other.
Qed.

Section Registration.

Variable W : World.

(** Erasing entry [i] after registering it. *)
Lemma progress_promote c kept type rest :
  pendingList c = kept ++ type :: rest ->
  progress c (with_pendingList
                (registerNedType c (pending_qname type) (pending_isInnerType type)
                                 (pending_node type))
                (kept ++ rest)).
Proof.
  intros Hp. split; [|split].
  - intros q Hq. now apply registered_registerNedType.
  - intros p Hin. rewrite Hp in Hin. simpl.
    apply in_app_or in Hin. destruct Hin as [Hin|[<-|Hin]].
    + left. apply in_or_app. now left.
    + right. unfold registered, lookup. simpl. rewrite find_set_same. discriminate.
    + left. apply in_or_app. now right.
  - rewrite Hp. simpl. apply Subseq_app_head. constructor. apply Subseq_refl.
Qed.

Lemma memoFilled_progress (c c' : Cache) : memoFilled c c' -> progress c c'.
Proof.
  intros M. rewrite (memoFilled_frame _ _ M). split; [|split].
  - intros q Hq. exact Hq.
  - intros p Hp. now left.
  - apply Subseq_refl.
Qed.

Lemma scanPending_progress (todo : list PendingNedType) :
  forall c kept again c' r,
    pendingList c = kept ++ todo ->
    scanPending W c kept todo again = (c', r) ->
    progress c c'.
Proof.
  induction todo as [|type rest IH]; intros c kept again c' r Hp H.
  - simpl in H. injection H as <- _. apply progress_refl.
  - destruct (scanPending_step W c kept type rest again) as (c0 & M & E).
    rewrite E in H. clear E.
    pose proof (memoFilled_progress _ _ M) as P0.
    destruct (ready W c type) as [[|]|e].
    + unfold registerChecked in H. destruct (lookup c _).
      * now injection H as <- _.
      * eapply progress_trans; [apply progress_promote; exact Hp|].
        eapply IH; [|exact H]. reflexivity.
    + eapply progress_trans; [exact P0|]. eapply IH; [|exact H].
      rewrite (memoFilled_pending _ _ M), Hp, <- app_assoc. reflexivity.
    + now injection H as <- _.
Qed.

(** A pass that returns: the cache keeps [kept] and a part [stay] of [todo]
    as its pending list; either nothing was erased, the cache is the same
    but for the memo and no entry of [todo] was ready, or the pass answers
    [true] and the list is shorter. *)
Lemma scanPending_ok (todo : list PendingNedType) :
  forall c kept again c' b,
    pendingList c = kept ++ todo ->
    scanPending W c kept todo again = (c', Ok b) ->
    exists stay,
      pendingList c' = kept ++ stay
      /\ ((b = again /\ memoFilled c c' /\ stay = todo
           /\ forall p, In p todo -> ready W c p = Ok false)
          \/ (b = true /\ List.length stay < List.length todo)).
Proof.
  induction todo as [|type rest IH]; intros c kept again c' b Hp H.
  - simpl in H. injection H as <- <-. exists []. split; [exact Hp|]. left.
    repeat split; auto using memoFilled_refl. intros p [].
  - destruct (scanPending_step W c kept type rest again) as (c0 & M & E).
    rewrite E in H. clear E.
    destruct (ready W c type) as [[|]|e] eqn:R; [| |discriminate].
    + unfold registerChecked in H. destruct (lookup c _); [discriminate|].
      apply IH in H; [|reflexivity].
      destruct H as (stay & Hs & Hcase). exists stay. split; [exact Hs|]. right.
      destruct Hcase as [(-> & _ & -> & _)|(-> & Hl)]; split; auto; simpl; lia.
    + apply IH in H;
        [|rewrite (memoFilled_pending _ _ M), Hp, <- app_assoc; reflexivity].
      destruct H as (stay & Hs & Hcase). exists (type :: stay).
      split; [rewrite Hs, <- app_assoc; reflexivity|].
      destruct Hcase as [(-> & M' & -> & Hn)|(-> & Hl)].
      * left. repeat split; auto.
        -- eapply memoFilled_trans; eauto.
        -- intros p [<-|Hin]; [exact R|].
           rewrite <- (ready_memo W _ _ p M). auto.
      * right. split; auto. simpl. lia.
Qed.

(** A pass that throws: the entry at which it stopped is in the pending list
    of the cache it leaves, and the exception is that of the resolver on this
    entry or that of the redeclaration check. *)
Lemma scanPending_throw (todo : list PendingNedType) :
  forall c kept again c' e,
    pendingList c = kept ++ todo ->
    scanPending W c kept todo again = (c', Throw e) ->
    exists p,
      In p (pendingList c')
      /\ (ready W c' p = Throw e
          \/ (ready W c' p = Ok true /\ registerChecked c' p = Throw e)).
Proof.
  induction todo as [|type rest IH]; intros c kept again c' e Hp H;
    [discriminate|].
  destruct (scanPending_step W c kept type rest again) as (c0 & M & E).
  rewrite E in H. clear E.
  assert (Hin : In type (pendingList c0)).
  { rewrite (memoFilled_pending _ _ M), Hp. apply in_or_app. right. now left. }
  destruct (ready W c type) as [[|]|e0] eqn:R.
  - destruct (registerChecked c type) as [c1|e1] eqn:C.
    + eapply IH; [|exact H]. reflexivity.
    + injection H as <- <-. exists type. split; [exact Hin|].
      right. now rewrite (ready_memo W _ _ type M), (registerChecked_memo _ _ type M).
  - eapply IH; [|exact H].
    rewrite (memoFilled_pending _ _ M), Hp, <- app_assoc. reflexivity.
  - injection H as <- <-. exists type. split; [exact Hin|].
    left. now rewrite (ready_memo W _ _ type M).
Qed.

Lemma registerLoop_progress (fuel : nat) :
  forall c c' r, registerLoop W fuel c = (c', r) -> progress c c'.
Proof.
  induction fuel as [|fuel IH]; simpl; intros c c' r H.
  - injection H as <- _. apply progress_refl.
  - destruct (scanPending W c [] (pendingList c) false) as [c1 [[|]|e]] eqn:E;
      apply scanPending_progress in E; try reflexivity.
    + eapply progress_trans; [exact E|]. eapply IH; eauto.
    + now injection H as <- _.
    + now injection H as <- _.
Qed.

(** With fuel above the length of the pending list the loop ends by a pass
    that erases nothing: no entry left is ready. *)
Lemma registerLoop_exit (fuel : nat) :
  forall c c' u,
    List.length (pendingList c) < fuel ->
    registerLoop W fuel c = (c', Ok u) ->
    forall p, In p (pendingList c') -> ready W c' p = Ok false.
Proof.
  induction fuel as [|fuel IH]; simpl; intros c c' u Hlen H; [lia|].
  destruct (scanPending W c [] (pendingList c) false) as [c1 [[|]|e]] eqn:E;
    [| |discriminate].
  - apply scanPending_ok in E; [|reflexivity].
    destruct E as (stay & Hs & [(Hb & _)|(_ & Hl)]); [discriminate|].
    simpl in Hs. eapply IH; [|exact H]. rewrite Hs. lia.
  - apply scanPending_ok in E; [|reflexivity].
    destruct E as (stay & Hs & [(_ & M & -> & Hn)|(Hb & _)]); [|discriminate].
    injection H as <-. intros p Hp. simpl in Hs. rewrite Hs in Hp.
    rewrite (ready_memo W _ _ p M). auto.
Qed.

(** Fuel beyond the length of the pending list changes nothing. *)
Lemma registerLoop_fuel (fuel : nat) :
  forall c,
    List.length (pendingList c) < fuel ->
    registerLoop W (S fuel) c = registerLoop W fuel c.
Proof.
  induction fuel as [|fuel IH]; intros c Hlen; [lia|].
  change (registerLoop W (S (S fuel)) c)
    with (match scanPending W c [] (pendingList c) false with
          | (c', Throw e) => (c', Throw e)
          | (c', Ok true) => registerLoop W (S fuel) c'
          | (c', Ok false) => (c', Ok tt)
          end).
  change (registerLoop W (S fuel) c)
    with (match scanPending W c [] (pendingList c) false with
          | (c', Throw e) => (c', Throw e)
          | (c', Ok true) => registerLoop W fuel c'
          | (c', Ok false) => (c', Ok tt)
          end).
  destruct (scanPending W c [] (pendingList c) false) as [c1 [[|]|e]] eqn:E;
    try reflexivity.
  apply scanPending_ok in E; [|reflexivity].
  destruct E as (stay & Hs & [(Hb & _)|(_ & Hl)]); [discriminate|].
  apply IH. simpl in Hs. rewrite Hs. lia.
Qed.

Lemma registerLoop_throw (fuel : nat) :
  forall c c' e,
    registerLoop W fuel c = (c', Throw e) ->
    exists p,
      In p (pendingList c')
      /\ (ready W c' p = Throw e
          \/ (ready W c' p = Ok true /\ registerChecked c' p = Throw e)).
Proof.
  induction fuel as [|fuel IH]; simpl; intros c c' e H; [discriminate|].
  destruct (scanPending W c [] (pendingList c) false) as [c1 [[|]|e1]] eqn:E.
  - eapply IH; eauto.
  - discriminate.
  - injection H as <- <-. eapply scanPending_throw; [|exact E]. reflexivity.
Qed.

(** An invariant of the type index and its memo that registering a type
    and filling the memo keep is kept by the whole registration. *)
Section Invariant.

Variable I : Cache -> Prop.
Hypothesis I_register : forall c q inner node, I c -> I (registerNedType c q inner node).
Hypothesis I_same : forall c c', sameTypes c c' -> I c -> I c'.
Hypothesis I_memo : forall c, I c -> I (fst (getTypeNames c)).

Lemma I_pending (c : Cache) (l : list PendingNedType) : I c -> I (with_pendingList c l).
Proof. apply I_same. now split. Qed.

Lemma I_memoFilled (c c' : Cache) : memoFilled c c' -> I c -> I c'.
Proof. intros [->| ->]; auto. Qed.

Lemma scanPending_invariant (todo : list PendingNedType) :
  forall c kept again c' r,
    I c -> scanPending W c kept todo again = (c', r) -> I c'.
Proof.
  induction todo as [|type rest IH]; intros c kept again c' r Hc H.
  - simpl in H. now injection H as <- _.
  - destruct (scanPending_step W c kept type rest again) as (c0 & M & E).
    rewrite E in H. clear E.
    pose proof (I_memoFilled _ _ M Hc) as Hc0.
    destruct (ready W c type) as [[|]|e].
    + unfold registerChecked in H. destruct (lookup c _).
      * now injection H as <- _.
      * eapply IH; [|exact H]. apply I_pending. auto.
    + eapply IH; eauto.
    + now injection H as <- _.
Qed.

Lemma registerLoop_invariant (fuel : nat) :
  forall c c' r, I c -> registerLoop W fuel c = (c', r) -> I c'.
Proof.
  induction fuel as [|fuel IH]; simpl; intros c c' r Hc H.
  - now injection H as <- _.
  - destruct (scanPending W c [] (pendingList c) false) as [c1 [[|]|e]] eqn:E;
      apply scanPending_invariant in E; auto.
    + eapply IH; eauto.
    + now injection H as <- _.
    + now injection H as <- _.
Qed.

Lemma registerPendingNedTypes_invariant (c c' : Cache) (r : Res unit) :
  I c -> registerPendingNedTypes W c = (c', r) -> I c'.
Proof.
  unfold registerPendingNedTypes. intros Hc.
  destruct (registerLoop W _ c) as [c1 [u|e]] eqn:E;
    apply registerLoop_invariant in E; auto.
  - destruct (pendingList c1); intros H; now injection H as <- _.
  - intros H; now injection H as <- _.
Qed.

End Invariant.

(** C1: the fixed point of [registerPendingNedTypes].  A pass takes the
    entries of the pending list in their order: an entry whose dependencies
    do not resolve stays in its place; one whose dependencies resolve passes
    the redeclaration check, is registered and is erased from the list, and
    the pass goes on behind it with another pass to follow; an exception of
    the resolver or of the check ends the call.  A pass that returns leaves
    registered names registered and every entry pending or registered, the
    entries left in their order; when it erased something the list is
    shorter and another pass follows, and when it erased nothing the list
    and the type index are as before and no entry is ready.  The call always
    ends.  When it returns, the pending list is empty and every entry it held
    has its name in the type index.  When it throws, either no entry left is
    ready, the list is not empty and the exception says that the NED type,
    or the NED types, "could not be fully resolved due to a missing base
    type or interface", with the names left in their order, separated by a
    comma and a space; or the exception comes from an entry of the list,
    thrown by the resolver or by the redeclaration check on a ready entry. *)
Theorem registerPendingNedTypes_fixed_point (c : Cache) :
  (forall c0 kept type rest again,
      scanPending W c0 kept (type :: rest) again
      = match areDependenciesResolved W c0 (pending_qname type) (pending_node type) with
        | (c1, Throw e) => (c1, Throw e)
        | (c1, Ok false) => scanPending W c1 (kept ++ [type]) rest again
        | (c1, Ok true) =>
            match lookup c1 (pending_qname type) with
            | Some _ =>
                (c1, Throw (NedException
                              ("Redeclaration of "
                               +++ getTagName (target (pending_node type))
                               +++ " " +++ pending_qname type)))
            | None =>
                scanPending W
                  (with_pendingList
                     (registerNedType c1 (pending_qname type) (pending_isInnerType type)
                                      (pending_node type))
                     (kept ++ rest))
                  kept rest true
            end
        end)
  /\ (forall c0 c1 b,
         scanPending W c0 [] (pendingList c0) false = (c1, Ok b) ->
         progress c0 c1
         /\ if b
            then List.length (pendingList c1) < List.length (pendingList c0)
            else pendingList c1 = pendingList c0
                 /\ nedTypes c1 = nedTypes c0
                 /\ forall p, In p (pendingList c0) -> ready W c0 p = Ok false)
  /\ (forall x, join_names [x] = x)
  /\ (forall x y l, join_names (x :: y :: l) = x +++ ", " +++ join_names (y :: l))
  /\ exists c' r,
       registerPendingNedTypes W c = (c', r)
       /\ progress c c'
       /\ match r with
          | Ok _ =>
              pendingList c' = []
              /\ forall p, In p (pendingList c) -> registered c' (pending_qname p)
          | Throw e =>
              (pendingList c' <> []
               /\ (forall p, In p (pendingList c') -> ready W c' p = Ok false)
               /\ e = NedException
                        (match pendingList c' with
                         | [p] =>
                             "NED type '" +++ pending_qname p +++
                             "' could not be fully resolved due to a missing base type or interface"
                         | pending =>
                             "The following NED types could not be fully resolved due to a missing base type or interface: "
                             +++ join_names (map pending_qname pending)
                         end))
              \/ (exists p,
                     In p (pendingList c')
                     /\ (ready W c' p = Throw e
                         \/ (ready W c' p = Ok true /\ registerChecked c' p = Throw e)))
          end.
Proof.
  split; [|split; [|split; [reflexivity|split; [reflexivity|]]]].
  { intros c0 kept type rest again. simpl.
    destruct (areDependenciesResolved W c0 _ _) as [c1 [[|]|e]]; try reflexivity.
    unfold registerChecked. now destruct (lookup c1 _). }
  { intros c0 c1 b H.
    split; [eapply scanPending_progress; [|exact H]; reflexivity|].
    apply scanPending_ok in H; [|reflexivity].
    destruct H as (stay & Hs & [(-> & M & -> & Hn)|(-> & Hl)]); simpl in Hs.
    - split; [exact Hs|]. split; [|exact Hn].
      rewrite (memoFilled_frame _ _ M). reflexivity.
    - rewrite Hs. exact Hl. }
  unfold registerPendingNedTypes.
  destruct (registerLoop W (S (List.length (pendingList c))) c) as [c1 [u|e]] eqn:E.
  - pose proof (registerLoop_progress _ _ _ _ E) as Hprog.
    pose proof (registerLoop_exit _ _ _ _ (Nat.lt_succ_diag_r _) E) as Hexit.
    destruct (pendingList c1) as [|p l] eqn:P.
    + exists c1, (Ok tt). split; [reflexivity|]. split; [exact Hprog|].
      split; [exact P|]. intros p Hp.
      destruct Hprog as (_ & Hpend & _). destruct (Hpend p Hp) as [Hin|Hr]; [|exact Hr].
      rewrite P in Hin. destruct Hin.
    + exists c1, (Throw (unresolvedError (p :: l))).
      split; [reflexivity|]. split; [exact Hprog|]. left.
      rewrite P. split; [discriminate|]. split; [exact Hexit|].
      unfold unresolvedError. now destruct l.
  - exists c1, (Throw e). split; [reflexivity|].
    split; [eapply registerLoop_progress; eauto|]. right.
    eapply registerLoop_throw; eauto.
Qed.

End Registration.

(** The wording of the exception for the names left. *)
Lemma unresolvedError_one (p : PendingNedType) :
  unresolvedError [p]
  = NedException ("NED type '" +++ pending_qname p +++
      "' could not be fully resolved due to a missing base type or interface").
Proof. reflexivity. Qed.

Lemma unresolvedError_many (p q : PendingNedType) (l : list PendingNedType) :
  unresolvedError (p :: q :: l)
  = NedException
      ("The following NED types could not be fully resolved due to a missing base type or interface: "
       +++ pending_qname p +++ ", " +++ join_names (map pending_qname (q :: l))).
Proof. reflexivity. Qed.

(** C3: the register operation.  On a name that is in the type index it
    throws "Redeclaration of <tag> <qname>"; on a new name it returns the
    cache in which the name is bound to its type info at the end of the type
    index, the listing of type names is emptied and every other name is
    bound as before; the pass of the registration loop applies it to every
    ready entry; and the keys of the type index, once free of repetitions,
    stay so through [registerPendingNedTypes]. *)
Theorem register_or_redeclaration (c : Cache) (type : PendingNedType) :
  (registered c (pending_qname type) ->
   registerChecked c type
   = Throw (NedException ("Redeclaration of " +++ getTagName (target (pending_node type))
                          +++ " " +++ pending_qname type)))
  /\ (lookup c (pending_qname type) = None ->
      exists c1,
        registerChecked c type = Ok c1
        /\ lookup c1 (pending_qname type)
           = Some (mkNedTypeInfo (pending_qname type) (pending_isInnerType type)
                                 (pending_node type))
        /\ SMap.keys (nedTypes c1) = SMap.keys (nedTypes c) ++ [pending_qname type]
        /\ nedTypeNames c1 = []
        /\ forall q, q <> pending_qname type -> lookup c1 q = lookup c q)
  /\ (forall W kept rest again,
        ready W c type = Ok true ->
        scanPending W c kept (type :: rest) again
        = match registerChecked c type with
          | Throw e =>
              (fst (areDependenciesResolved W c (pending_qname type) (pending_node type)),
               Throw e)
          | Ok c1 => scanPending W (with_pendingList c1 (kept ++ rest)) kept rest true
          end)
  /\ (NoDup (SMap.keys (nedTypes c)) ->
      forall W c' r,
        registerPendingNedTypes W c = (c', r) -> NoDup (SMap.keys (nedTypes c'))).
Proof.
  split; [|split; [|split]].
  - unfold registered, registerChecked. now destruct (lookup c _).
  - intros Hnone. unfold registerChecked. rewrite Hnone. eexists. split; [reflexivity|].
    split; [apply lookup_registerNedType_same|].
    split; [simpl; now apply keys_set_new|].
    split; [reflexivity|].
    intros q Hq. now apply lookup_registerNedType_other.
  - intros W kept rest again Hr. simpl. unfold ready in Hr.
    pose proof (areDependenciesResolved_memo W c (pending_qname type) (pending_node type))
      as M.
    destruct (areDependenciesResolved W c _ _) as [c0 r]. simpl in *. subst r.
    now rewrite (registerChecked_memo _ _ type M).
  - intros Hnd W c' r H.
    apply (registerPendingNedTypes_invariant W
             (fun c => NoDup (SMap.keys (nedTypes c)))) with (c := c) (r := r); auto.
    + intros c0 q inner node Hc. simpl. now apply keys_set_NoDup.
    + intros c0 c1 [Ht _] Hc. now rewrite Ht.
    + intros c0 Hc. now rewrite getTypeNames_types.
Qed.

Lemma register_or_redeclaration_witness :
  registerChecked Sample.finalized
    (mkPending "pkg.B" false (mkPtr (Sample.element NED_SIMPLE_MODULE "B" []) []))
  = Throw (NedException "Redeclaration of simple-module pkg.B").
Proof.
  refine (proj1 (register_or_redeclaration Sample.finalized
            (mkPending "pkg.B" false (mkPtr (Sample.element NED_SIMPLE_MODULE "B" []) [])))
            _).
  vm_compute. discriminate.
Defined.

(** ** Invariants of the type index through the operations of the cache

    The type index and its memo are written by [registerNedType] and
    [getTypeNames] only: a property of the two that registering keeps holds
    after every load and after [doneLoadingNedFiles]. *)

Section CacheInvariant.

Variable W : World.
Variable I : Cache -> Prop.
Hypothesis I_register : forall c q inner node, I c -> I (registerNedType c q inner node).
Hypothesis I_same : forall c c', sameTypes c c' -> I c -> I c'.
Hypothesis I_memo : forall c, I c -> I (fst (getTypeNames c)).

Lemma doLoadNedFileOrText_invariant cwd nedFilename nedText expectedPackage isXML c :
  I c -> I (fst (doLoadNedFileOrText W cwd nedFilename nedText expectedPackage isXML c)).
Proof.
  intros Hc. unfold doLoadNedFileOrText.
  destruct nedFilename as [name|]; [|exact Hc].
  destruct (SMap.containsKey (nedFiles c) _); [exact Hc|].
  destruct (doneLoadingNedFilesCalled c && isPackageNedFile _); [exact Hc|].
  destruct (parseAndValidateNedFileOrText W cwd _ nedText isXML) as [tree|e]; [|exact Hc].
  destruct (match expectedPackage with Some _ => _ | None => _ end); [exact Hc|].
  unfold addFile. destruct (SMap.containsKey (nedFiles c) _); simpl; [exact Hc|].
  destruct (doneLoadingNedFilesCalled c).
  - destruct (registerPendingNedTypes W _) as [c' r] eqn:E. simpl.
    eapply (registerPendingNedTypes_invariant W I I_register I_same I_memo); [|exact E].
    eapply I_same; [|exact Hc]. now split.
  - simpl. eapply I_same; [|exact Hc]. now split.
Qed.

Lemma loadEntries_invariant recur cwd expectedPackage (l : list FsEntry) :
  Forall (fun e => forall pkg c, I c -> I (fst (recur e pkg c))) l ->
  forall c count, I c -> I (fst (loadEntries W recur cwd expectedPackage l c count)).
Proof.
  induction 1 as [|e rest He _ IH]; simpl; intros c count Hc; [exact Hc|].
  destruct e as [filename|filename content].
  - destruct (startsWithDot filename); [now apply IH|].
    destruct (opp_stringendswith filename ".ned"); [|now apply IH].
    pose proof (doLoadNedFileOrText_invariant cwd (Some filename) None
                  expectedPackage false c Hc) as F.
    destruct (doLoadNedFileOrText W cwd _ _ _ _ c) as [c' [u|ex]]; simpl in *.
    + now apply IH.
    + exact F.
  - destruct (startsWithDot filename); [now apply IH|].
    specialize (He (option_map (fun p => opp_join "." p filename) expectedPackage) c Hc).
    destruct (recur _ _ c) as [c' [n|ex]]; simpl in *.
    + now apply IH.
    + exact He.
Qed.

Lemma doLoadNedSourceFolder_invariant (dir : FsEntry) :
  forall cwd expectedPackage excluded c,
    I c -> I (fst (doLoadNedSourceFolder W cwd dir expectedPackage excluded c)).
Proof.
  induction dir as [filename|filename content IH] using FsEntry_induction;
    intros cwd expectedPackage excluded c Hc; simpl;
    (destruct (isExcluded expectedPackage excluded); [exact Hc|]);
    (destruct (pushDirError W cwd filename); [exact Hc|]); [exact Hc|].
  apply loadEntries_invariant; [|exact Hc].
  eapply Forall_impl; [|exact IH]. intros e He pkg c0. apply He.
Qed.

Lemma loadNedSourceFolder_invariant cwd folderName excludedPackagesStr c :
  I c -> I (fst (loadNedSourceFolder W cwd folderName excludedPackagesStr c)).
Proof.
  intros Hc. unfold loadNedSourceFolder.
  destruct (determineRootPackageName W cwd folderName) as [root|e]; [|exact Hc].
  match goal with
  | |- context [doLoadNedSourceFolder W cwd ?d ?p ?x ?c1] =>
      pose proof (doLoadNedSourceFolder_invariant d cwd p x c1) as F
  end.
  destruct (doLoadNedSourceFolder W cwd _ _ _ _) as [c1 [n|e]]; simpl in *;
    apply F; (eapply I_same; [|exact Hc]); now split.
Qed.

Lemma collectPackageNedFiles_sameTypes (files : list (string * ASTNode)) :
  forall c, sameTypes c (fst (collectPackageNedFiles files c)).
Proof.
  induction files as [|[k nedFile] rest IH]; simpl; intros c; [now split|].
  destruct (isPackageNedFile _); [|apply IH].
  destruct (SMap.find _ _); [now split|].
  destruct (IH (with_packageDotNedFiles c
                  (SMap.set (packageDotNedFiles c) (declaredPackageOf nedFile) nedFile)))
    as [H1 H2].
  split; [now rewrite H1 | now rewrite H2].
Qed.

Lemma collectFromFiles_sameTypes (files : list (string * ASTNode)) :
  forall c, sameTypes c (collectFromFiles files c).
Proof.
  induction files as [|[k nedFile] rest IH]; simpl; intros c; [now split|].
  match goal with
  | |- sameTypes c (collectFromFiles rest ?c1) => destruct (IH c1) as [H1 H2]
  end.
  split; [now rewrite H1 | now rewrite H2].
Qed.

Lemma doneLoadingNedFiles_invariant c :
  I c -> I (fst (doneLoadingNedFiles W c)).
Proof.
  intros Hc. unfold doneLoadingNedFiles.
  destruct (doneLoadingNedFilesCalled c); [exact Hc|].
  pose proof (collectPackageNedFiles_sameTypes (nedFiles (with_done c true))
                (with_done c true)) as S1.
  destruct (collectPackageNedFiles _ _) as [c1 [u|e]]; simpl in S1.
  - pose proof (collectFromFiles_sameTypes (nedFiles c1) c1) as S2.
    destruct (registerPendingNedTypes W _) as [c2 r] eqn:E. simpl.
    eapply (registerPendingNedTypes_invariant W I I_register I_same I_memo); [|exact E].
    eapply I_same; [exact S2|]. eapply I_same; [exact S1|].
    eapply I_same; [|exact Hc]. now split.
  - simpl. eapply I_same; [exact S1|]. eapply I_same; [|exact Hc]. now split.
Qed.

End CacheInvariant.

(** The two invariants in question: the memo is in sync, and the keys of the
    type index are free of repetitions. *)
Lemma namesInSync_kept :
  (forall c q inner node, namesInSync c -> namesInSync (registerNedType c q inner node))
  /\ (forall c c', sameTypes c c' -> namesInSync c -> namesInSync c')
  /\ (forall c, namesInSync c -> namesInSync (fst (getTypeNames c))).
Proof.
  split; [|split].
  - intros c q inner node _. now left.
  - intros c c' [Ht Hn]. unfold namesInSync. now rewrite Ht, Hn.
  - intros c. unfold namesInSync, getTypeNames.
    destruct (nedTypeNames c) as [|n names] eqn:N; destruct (nedTypes c) as [|b m] eqn:M;
      simpl; rewrite ?N, ?M; auto.
Qed.

Lemma uniqueTypeNames_kept :
  (forall c q inner node,
      NoDup (SMap.keys (nedTypes c)) ->
      NoDup (SMap.keys (nedTypes (registerNedType c q inner node))))
  /\ (forall c c', sameTypes c c' ->
                   NoDup (SMap.keys (nedTypes c)) -> NoDup (SMap.keys (nedTypes c')))
  /\ (forall c, NoDup (SMap.keys (nedTypes c)) ->
                 NoDup (SMap.keys (nedTypes (fst (getTypeNames c))))).
Proof.
  split; [|split].
  - intros c q inner node H. simpl. now apply keys_set_NoDup.
  - intros c c' [Ht _]. now rewrite Ht.
  - intros c H. now rewrite getTypeNames_types.
Qed.

(** ** The resolver *)

Lemma getTypeNames_in_sync (c : Cache) :
  namesInSync c ->
  snd (getTypeNames c) = SMap.keys (nedTypes c)
  /\ namesInSync (fst (getTypeNames c))
  /\ nedTypes (fst (getTypeNames c)) = nedTypes c.
Proof.
  unfold namesInSync, getTypeNames.
  destruct (nedTypeNames c) as [|n names] eqn:N; destruct (nedTypes c) as [|b m] eqn:M;
    simpl; intros [H|H]; try discriminate; rewrite ?N, ?M; auto.
Qed.

Section Resolution.

Variable W : World.

Lemma find_all_false {A} (f : A -> bool) (l : list A) :
  (forall x, In x l -> f x = false) -> find f l = None.
Proof.
  induction l as [|a l IH]; simpl; intros H; [reflexivity|].
  rewrite (H a (or_introl eq_refl)). apply IH. auto.
Qed.

Lemma find_app_hit {A} (f : A -> bool) (before after : list A) (x : A) :
  (forall y, In y before -> f y = false) -> f x = true ->
  find f (before ++ x :: after) = Some x.
Proof.
  induction before as [|a l IH]; simpl; intros Hb Hx; [now rewrite Hx|].
  rewrite (Hb a (or_introl eq_refl)). apply IH; auto.
Qed.

(** Where step (d) finds its answer. *)
Lemma wildcardImportStep_first {T} `{INedTypeNames T} (imports : list string)
      (r qname : string) :
  forall qnames : T,
    snd (wildcardImportStep W qnames imports r) = Some qname ->
    exists before import after names_before names_after,
      imports = before ++ import :: after
      /\ containsWildcards W import = true
      /\ (forall i q, In i before -> containsWildcards W i = true ->
                      In q (enumerate qnames) ->
                      namesType q r && patternMatches W i q = false)
      /\ enumerate qnames = names_before ++ qname :: names_after
      /\ namesType qname r = true
      /\ patternMatches W import qname = true
      /\ (forall q, In q names_before -> namesType q r && patternMatches W import q = false).
Proof.
  induction imports as [|import rest IH]; intros qnames; simpl; [discriminate|].
  destruct (containsWildcards W import) eqn:Cw.
  - destruct (find _ (enumerate qnames)) as [q|] eqn:F.
    + simpl. intros Hq. injection Hq as ->.
      destruct (find_first _ _ _ F) as (nb & na & Hn & Hm & Hb).
      apply andb_true_iff in Hm. destruct Hm as [Hm1 Hm2].
      exists [], import, rest, nb, na. repeat split; auto.
      intros i q [].
    + intros Hq.
      destruct (IH _ Hq) as (b & i & a & nb & na & -> & Hw & Hb & Hn & H1 & H2 & H3).
      rewrite enumerate_consulted in Hn.
      exists (import :: b), i, a, nb, na. repeat split; auto.
      intros i0 q [<-|Hi] Hw0 Hin.
      * apply (find_none _ _ F). exact Hin.
      * apply (Hb i0 q Hi Hw0). now rewrite enumerate_consulted.
  - intros Hq.
    destruct (IH _ Hq) as (b & i & a & nb & na & -> & Hw & Hb & Hn & H1 & H2 & H3).
    exists (import :: b), i, a, nb, na. repeat split; auto.
    intros i0 q [<-|Hi] Hw0 Hin; [congruence | eauto].
Qed.

(** The converse: such an import and such a name are the answer. *)
Lemma wildcardImportStep_found {T} `{INedTypeNames T} (before : list string)
      (import : string) (after : list string) (names_before names_after : list string)
      (r qname : string) :
  forall qnames : T,
    containsWildcards W import = true ->
    (forall i q, In i before -> containsWildcards W i = true ->
                 In q (enumerate qnames) ->
                 namesType q r && patternMatches W i q = false) ->
    enumerate qnames = names_before ++ qname :: names_after ->
    namesType qname r = true ->
    patternMatches W import qname = true ->
    (forall q, In q names_before -> namesType q r && patternMatches W import q = false) ->
    snd (wildcardImportStep W qnames (before ++ import :: after) r) = Some qname.
Proof.
  induction before as [|i0 before IH]; intros qnames Hw Hb Hn H1 H2 H3; simpl.
  - rewrite Hw, Hn.
    rewrite (find_app_hit (fun q => namesType q r && patternMatches W import q)
               names_before names_after qname H3) by now rewrite H1, H2.
    reflexivity.
  - destruct (containsWildcards W i0) eqn:Cw.
    + rewrite (find_all_false (fun q => namesType q r && patternMatches W i0 q)
                 (enumerate qnames)) by (intros q Hq; apply Hb; auto; now left).
      apply IH; auto.
      * intros i q Hi Hwi Hq. rewrite enumerate_consulted in Hq. apply Hb; auto. now right.
      * now rewrite enumerate_consulted.
    + apply IH; auto. intros i q Hi Hwi Hq. apply Hb; auto. now right.
Qed.

(** Step (d) finds nothing exactly when no enumerated name matches any of
    the imports with wildcards. *)
Lemma wildcardImportStep_none {T} `{INedTypeNames T} (imports : list string) (r : string) :
  forall qnames : T,
    snd (wildcardImportStep W qnames imports r) = None
    <-> (forall i q, In i imports -> containsWildcards W i = true ->
                     In q (enumerate qnames) ->
                     namesType q r && patternMatches W i q = false).
Proof.
  induction imports as [|import rest IH]; intros qnames; simpl.
  - split; [intros _ i q [] | reflexivity].
  - destruct (containsWildcards W import) eqn:Cw.
    + destruct (find _ (enumerate qnames)) as [q0|] eqn:F.
      * simpl. split; [discriminate|]. intros Hall. apply find_some in F.
        destruct F as [Hin Hf]. rewrite (Hall import q0) in Hf; auto. discriminate.
      * rewrite IH. split.
        -- intros Hall i q [<-|Hi] Hwi Hq.
           ++ apply (find_none _ _ F). exact Hq.
           ++ apply Hall; auto. now rewrite enumerate_consulted.
        -- intros Hall i q Hi Hwi Hq. rewrite enumerate_consulted in Hq.
           apply Hall; auto.
    + rewrite IH. split.
      * intros Hall i q [<-|Hi] Hwi Hq; [congruence | auto].
      * intros Hall i q Hi Hwi Hq. apply Hall; auto.
Qed.

(** The resolver on a simple name that step (a) has not resolved. *)
Lemma resolveNedType_after_inner {T} `{INedTypeNames T} (qnames : T)
      (context : NedLookupContext) (r : string) (element nedfile : ASTPtr) :
  strchr r "." = false ->
  ctx_element context = Some element ->
  innerTypeStep qnames element (ctx_qname context) r = Ok None ->
  getParentWithTag element NED_NED_FILE = Some nedfile ->
  resolveNedType W context r qnames
  = match exactImportStep qnames (collectImports (target nedfile)) r with
    | Some import => (qnames, Ok import)
    | None =>
        (fst (laterSteps W qnames (target nedfile) (collectImports (target nedfile)) r),
         Ok (snd (laterSteps W qnames (target nedfile)
                             (collectImports (target nedfile)) r)))
    end.
Proof.
  intros Hdot Hel Hinner Hfile.
  unfold resolveNedType. rewrite Hdot, Hel. simpl. rewrite Hinner, Hfile. simpl.
  destruct (exactImportStep qnames _ r); [reflexivity|].
  now destruct (laterSteps W qnames _ _ r).
Qed.

(** C4: the exact-import step on a simple name that step (a) has not
    resolved, on a view none of whose names has a wildcard character (type
    names are identifiers).  The scan of the imports of the enclosing file,
    which the code runs over all of them, finds what the scan of the imports
    without wildcard characters finds; the resolver returns the first import
    without wildcard characters, in file order, that the view contains and
    that equals the name or ends with a dot and the name, and leaves the view
    as it is; when there is none among them the resolver goes on with steps
    (c) and (d). *)
Theorem exact_import_step_first_hit {T} `{INedTypeNames T} (qnames : T)
        (context : NedLookupContext) (r : string) (element nedfile : ASTPtr) :
  strchr r "." = false ->
  ctx_element context = Some element ->
  innerTypeStep qnames element (ctx_qname context) r = Ok None ->
  getParentWithTag element NED_NED_FILE = Some nedfile ->
  (forall q, contains qnames q = true -> containsWildcards W q = false) ->
  let imports := collectImports (target nedfile) in
  let wildcardFree := filter (fun import => negb (containsWildcards W import)) imports in
  exactImportStep qnames imports r = exactImportStep qnames wildcardFree r
  /\ match exactImportStep qnames wildcardFree r with
     | Some import =>
         resolveNedType W context r qnames = (qnames, Ok import)
         /\ containsWildcards W import = false
         /\ exists before after,
              wildcardFree = before ++ import :: after
              /\ contains qnames import = true
              /\ namesType import r = true
              /\ forall i, In i before -> contains qnames i && namesType i r = false
     | None =>
         resolveNedType W context r qnames
         = (fst (laterSteps W qnames (target nedfile) imports r),
            Ok (snd (laterSteps W qnames (target nedfile) imports r)))
         /\ forall i, In i wildcardFree -> contains qnames i && namesType i r = false
     end.
Proof.
  intros Hdot Hel Hinner Hfile Hwild imports wildcardFree.
  assert (Hsame : exactImportStep qnames imports r = exactImportStep qnames wildcardFree r).
  { unfold exactImportStep, wildcardFree. symmetry.
    apply find_filter_agree. intros y _ Hy.
    apply andb_true_iff in Hy. destruct Hy as [Hy _]. now rewrite (Hwild y Hy). }
  split; [exact Hsame|].
  pose proof (resolveNedType_after_inner qnames context r element nedfile
                Hdot Hel Hinner Hfile) as Hres.
  fold imports in Hres. rewrite Hsame in Hres.
  destruct (exactImportStep qnames wildcardFree r) as [import|] eqn:E.
  - split; [exact Hres|]. unfold exactImportStep in E.
    destruct (find_first _ _ _ E) as (before & after & Himp & Hok & Hb).
    apply andb_true_iff in Hok. destruct Hok as [Hc Hn].
    split; [auto|]. exists before, after. auto.
  - split; [exact Hres|]. intros i Hi. unfold exactImportStep in E.
    apply (find_none _ _ E). exact Hi.
Qed.

(** C5: the listing of type names and the order of the type index.  On a
    cache whose memo is in sync, [getTypeNames] returns the keys of the type
    index in the order of its iteration and the view enumerates the same
    list; registering a new name puts it at the end; the wildcard step
    answers with a name exactly when that name is the first enumerated name
    matching the first wildcard import for which any name matches, and with
    nothing exactly when no name matches any wildcard import; a second call
    of [getTypeNames] returns the same listing and leaves the cache as the
    first left it, an answer of the resolver is not changed by the queries
    made before it, and listing and resolution are the same on every cache
    with the same type index. *)
Theorem typeNames_follow_type_index (c : Cache) :
  namesInSync c ->
  snd (getTypeNames c) = SMap.keys (nedTypes c)
  /\ enumerate c = SMap.keys (nedTypes c)
  /\ namesInSync (fst (getTypeNames c))
  /\ (forall q inner node,
        lookup c q = None ->
        namesInSync (registerNedType c q inner node)
        /\ snd (getTypeNames (registerNedType c q inner node))
           = snd (getTypeNames c) ++ [q])
  /\ (forall imports r qname,
        snd (wildcardImportStep W c imports r) = Some qname <->
        exists before import after names_before names_after,
          imports = before ++ import :: after
          /\ containsWildcards W import = true
          /\ (forall i q, In i before -> containsWildcards W i = true ->
                          In q (SMap.keys (nedTypes c)) ->
                          namesType q r && patternMatches W i q = false)
          /\ SMap.keys (nedTypes c) = names_before ++ qname :: names_after
          /\ namesType qname r = true
          /\ patternMatches W import qname = true
          /\ (forall q, In q names_before ->
                        namesType q r && patternMatches W import q = false))
  /\ (forall imports r,
        snd (wildcardImportStep W c imports r) = None <->
        forall i q, In i imports -> containsWildcards W i = true ->
                    In q (SMap.keys (nedTypes c)) ->
                    namesType q r && patternMatches W i q = false)
  /\ getTypeNames (fst (getTypeNames c)) = (fst (getTypeNames c), snd (getTypeNames c))
  /\ (forall context r context' r',
        snd (resolveNedType W context r (fst (resolveNedType W context' r' c)))
        = snd (resolveNedType W context r c))
  /\ (forall c2 context r,
        namesInSync c2 -> nedTypes c2 = nedTypes c ->
        snd (getTypeNames c2) = snd (getTypeNames c)
        /\ snd (resolveNedType W context r c2) = snd (resolveNedType W context r c)).
Proof.
  intros Hs. destruct (getTypeNames_in_sync c Hs) as (Hn & Hs' & _).
  assert (He : enumerate c = SMap.keys (nedTypes c)) by now rewrite enumerate_cached.
  split; [exact Hn|]. split; [exact He|]. split; [exact Hs'|].
  split; [|split; [|split; [|split; [|split]]]].
  - intros q inner node Hq.
    assert (Hr : namesInSync (registerNedType c q inner node)) by now left.
    split; [exact Hr|].
    destruct (getTypeNames_in_sync _ Hr) as (-> & _). rewrite Hn. simpl.
    now apply keys_set_new.
  - intros imports r qname. rewrite <- He. split.
    + apply wildcardImportStep_first.
    + intros (before & import & after & nb & na & -> & Hw & Hb & Hk & H1 & H2 & H3).
      eapply wildcardImportStep_found; eauto.
  - intros imports r. rewrite <- He. apply wildcardImportStep_none.
  - apply getTypeNames_again.
  - intros context r context' r'. apply resolveNedType_equiv.
    apply memoFilled_equiv, resolveNedType_memo.
  - intros c2 context r Hs2 Ht.
    destruct (getTypeNames_in_sync c2 Hs2) as (Hn2 & _).
    split; [now rewrite Hn, Hn2, Ht|].
    apply resolveNedType_ext.
    + intros q. simpl. unfold lookup. now rewrite Ht.
    + now rewrite !enumerate_cached, Hn, Hn2, Ht.
Qed.

End Resolution.

Lemma exact_import_step_first_hit_witness :
  resolveNedType Sample.world
    (mkContext
       (Some (mkPtr (Sample.nedFile "/x/U.ned"
                       [Sample.package "q"; Sample.import "pkg.*"; Sample.import "pkg.B"])
                    []))
       "")
    "B" Sample.finalized
  = (Sample.finalized, Ok "pkg.B").
Proof.
  assert (Hwild : forall q, contains Sample.finalized q = true ->
                            containsWildcards Sample.world q = false).
  { intros q Hq. simpl in Hq.
    destruct (lookup Sample.finalized q) as [info|] eqn:L; [|discriminate].
    apply find_In_keys in L. vm_compute in L.
    repeat (destruct L as [L|L]; [subst q; reflexivity|]). destruct L. }
  exact (proj1 (proj2 (exact_import_step_first_hit Sample.world Sample.finalized
            (mkContext
               (Some (mkPtr (Sample.nedFile "/x/U.ned"
                               [Sample.package "q"; Sample.import "pkg.*";
                                Sample.import "pkg.B"]) []))
               "")
            "B"
            (mkPtr (Sample.nedFile "/x/U.ned"
                      [Sample.package "q"; Sample.import "pkg.*"; Sample.import "pkg.B"]) [])
            (mkPtr (Sample.nedFile "/x/U.ned"
                      [Sample.package "q"; Sample.import "pkg.*"; Sample.import "pkg.B"]) [])
            eq_refl eq_refl eq_refl eq_refl Hwild))).
Defined.

Lemma typeNames_follow_type_index_witness :
  snd (getTypeNames Sample.finalized)
  = ["pkg.B"; "pkg.sub.C.Inner"; "pkg.sub.C.User"; "pkg.A"; "pkg.sub.C"].
Proof.
  refine (proj1 (typeNames_follow_type_index Sample.world Sample.finalized _)).
  left. reflexivity.
Defined.

(** ** The memo of type names *)

Lemma namesInSync_empty : namesInSync emptyCache.
Proof. now left. Qed.

Lemma namesInSync_registerPendingNedTypes (W : World) (c c' : Cache) (r : Res unit) :
  namesInSync c -> registerPendingNedTypes W c = (c', r) -> namesInSync c'.
Proof.
  apply (registerPendingNedTypes_invariant W namesInSync); apply namesInSync_kept.
Qed.

(** ** The scenarios of the specification, run on the sample world *)

(** Package mismatch: the load of [/r/bad] fails, naming both packages. *)
Example scenario_mismatch :
  snd (loadNedSourceFolder Sample.world "/" "/r/bad" None emptyCache)
  = Throw (NedException
             "Could not load NED sources from '/r/bad': Declared package 'zzz' does not match expected package '' in file M.ned").
Proof. reflexivity. Qed.

(** Forward reference: [pkg.A] extends [pkg.B] and is collected first; both
    are registered, [pkg.B] in the first pass and [pkg.A] in the second. *)
Example scenario_forward_reference :
  map pending_qname
      (pendingList (collectFromFiles (nedFiles Sample.loaded) Sample.loaded))
  = ["pkg.A"; "pkg.B"; "pkg.sub.C"; "pkg.sub.C.Inner"; "pkg.sub.C.User"]
  /\ snd (doneLoadingNedFiles Sample.world Sample.loaded) = Ok tt
  /\ SMap.keys (nedTypes Sample.finalized)
     = ["pkg.B"; "pkg.sub.C.Inner"; "pkg.sub.C.User"; "pkg.A"; "pkg.sub.C"]
  /\ pendingList Sample.finalized = [].
Proof. repeat split; reflexivity. Qed.

(** Unresolvable: with [pkg.skip] not excluded, [pkg.skip.D] extends a type
    that is nowhere. *)
Example scenario_unresolvable :
  snd (doneLoadingNedFiles Sample.world
         (fst (loadNedSourceFolder Sample.world "/" "/r/pkg" None emptyCache)))
  = Throw (NedException
             "NED type 'pkg.skip.D' could not be fully resolved due to a missing base type or interface").
Proof. reflexivity. Qed.

(** Inner type: within [User], declared in the types block of [pkg.sub.C],
    the name [Inner] is that of its sibling. *)
Example scenario_inner_type :
  match pendingList (collectFromFiles (nedFiles Sample.loaded) Sample.loaded) with
  | [_; _; _; _; user] =>
      context <- getParentContextOf (pending_qname user) (pending_node user) ;;
      snd (resolveNedType Sample.world context "Inner" Sample.finalized)
  | _ => Ok ""
  end = Ok "pkg.sub.C.Inner".
Proof. reflexivity. Qed.

(** Wildcard import: with [x.Foo] and [y.Foo] registered, a file that
    imports [x.*] resolves [Foo] to [x.Foo]. *)
Example scenario_wildcard_import :
  snd (resolveNedType Sample.world
    (mkContext (Some (mkPtr (Sample.nedFile "/x/W.ned" [Sample.import "x.*"]) [])) "")
    "Foo"
    (registerNedType
       (registerNedType emptyCache "y.Foo" false
          (mkPtr (Sample.element NED_SIMPLE_MODULE "Foo" []) []))
       "x.Foo" false (mkPtr (Sample.element NED_SIMPLE_MODULE "Foo" []) [])))
  = Ok "x.Foo".
Proof. reflexivity. Qed.

(** Duplicate package marker: [/r/pkg] and [/r/dup] both hold a marker of
    package [pkg]. *)
Example scenario_duplicate_marker :
  snd (doneLoadingNedFiles Sample.world
         (fst (loadNedSourceFolder Sample.world "/" "/r/dup" None Sample.loaded)))
  = Throw (NedException
             "More than one package.ned file for package 'pkg': '/r/dup/package.ned' and '/r/pkg/package.ned'").
Proof. reflexivity. Qed.


(** * Further properties of the code *)

(** ** More on strings *)

Lemma substring_skip_append (p s : string) :
  substring (String.length p) (String.length s) (p +++ s) = s.
Proof.
  induction p as [|c p IH]; simpl; [apply substring_0_length | exact IH].
Qed.

Lemma strchr_append (a b : string) (c : ascii) :
  strchr (a +++ b) c = strchr a c || strchr b c.
Proof.
  induction a as [|d a IH]; simpl; [reflexivity|].
  rewrite IH. apply orb_assoc.
Qed.

Lemma rfind_None_iff (s : string) (c : ascii) :
  rfind s c = None <-> strchr s c = false.
Proof.
  induction s as [|d s IH]; simpl; [tauto|].
  destruct (rfind s c) as [i|].
  - split; [discriminate|]. intros H. apply orb_false_iff in H.
    destruct H as [_ H]. apply IH in H. discriminate.
  - destruct (Ascii.eqb d c); simpl; [split; discriminate|].
    split; intros _; [now apply IH | reflexivity].
Qed.

(** The last occurrence: after it the character does not occur. *)
Lemma rfind_append (x t : string) (c : ascii) :
  strchr t c = false -> rfind (x +++ String c t) c = Some (String.length x).
Proof.
  intros Ht. induction x as [|d x IH]; simpl.
  - apply rfind_None_iff in Ht. rewrite Ht. now rewrite Ascii.eqb_refl.
  - now rewrite IH.
Qed.

Lemma rfind_split (s : string) (c : ascii) (i : nat) :
  rfind s c = Some i ->
  exists x t, s = x +++ String c t /\ strchr t c = false /\ String.length x = i.
Proof.
  revert i. induction s as [|d s IH]; simpl; intros i H; [discriminate|].
  destruct (rfind s c) as [j|] eqn:R.
  - injection H as <-. destruct (IH j eq_refl) as (x & t & -> & Ht & Hl).
    exists (String d x), t. simpl. repeat split; auto.
  - destruct (Ascii.eqb_spec d c) as [->|Hne]; [|discriminate].
    injection H as <-. exists "", s. repeat split.
    now apply rfind_None_iff.
Qed.

Lemma endswith_append (a b : string) : opp_stringendswith (a +++ b) b = true.
Proof.
  unfold opp_stringendswith, strlen. rewrite length_append.
  destruct (Nat.ltb_spec (String.length a + String.length b) (String.length b)); [lia|].
  replace (String.length a + String.length b - String.length b) with (String.length a) by lia.
  rewrite substring_skip_append. apply String.eqb_refl.
Qed.

Lemma In_keys_find {V} (m : SMap.t V) (k : string) :
  In k (SMap.keys m) -> exists v, SMap.find m k = Some v.
Proof.
  induction m as [|[k' v'] m IH]; simpl; [intros []|].
  destruct (String.eqb_spec k' k) as [->|Hne]; [now exists v'|].
  intros [H|H]; [contradiction | auto].
Qed.

(** Replacing every slash leaves none. *)
Lemma replace_slash_none (text repl : string) :
  strchr repl "/" = false ->
  strchr (replace_from text "/" repl true 0 true) "/" = false.
Proof.
  intros Hr. induction text as [|c text IH]; [reflexivity|].
  cbn [replace_from]. unfold opp_stringbeginswith, strlen. cbn [String.length substring].
  destruct text as [|d text'].
  - cbn. destruct (Ascii.eqb_spec c "/") as [->|Hne].
    + cbn. now rewrite append_empty_r.
    + replace (String c "" =? "/")%string with false.
      * cbn. rewrite (proj2 (Ascii.eqb_neq c "/") Hne). reflexivity.
      * symmetry. apply String.eqb_neq. congruence.
  - change (substring 0 0 (String d text')) with "".
    destruct (Ascii.eqb_spec c "/") as [->|Hne].
    + rewrite String.eqb_refl. cbn [andb Nat.sub String.length].
      rewrite strchr_append, Hr. exact IH.
    + replace (String c "" =? "/")%string with false.
      * cbn [andb]. cbn [strchr]. rewrite (proj2 (Ascii.eqb_neq c "/") Hne). exact IH.
      * symmetry. apply String.eqb_neq. congruence.
Qed.

(** ** More on the folder queries *)

Lemma isPathPrefixOf_cases (pre path : string) :
  isPathPrefixOf pre path
  = match lastChar pre with
    | None => Throw (Undefined "prefix[prefixlen-1]")
    | Some a =>
        if Ascii.eqb a "/"
        then Throw (AssertFailure "prefix[prefixlen-1] != '/' && path[pathlen-1] != '/'")
        else match lastChar path with
             | None => Throw (Undefined "path[pathlen-1]")
             | Some b =>
                 if Ascii.eqb b "/"
                 then Throw (AssertFailure
                               "prefix[prefixlen-1] != '/' && path[pathlen-1] != '/'")
                 else Ok (isPathPrefixb pre path)
             end
    end.
Proof.
  destruct (lastChar pre) as [a|] eqn:La;
    [|unfold isPathPrefixOf; rewrite La; reflexivity].
  destruct (Ascii.eqb a "/") eqn:Ea;
    [unfold isPathPrefixOf; rewrite La; cbn [bindR]; rewrite Ea; reflexivity|].
  destruct (lastChar path) as [b|] eqn:Lb;
    [|unfold isPathPrefixOf; rewrite La, Lb; cbn [bindR]; rewrite Ea; reflexivity].
  destruct (Ascii.eqb b "/") eqn:Eb;
    [unfold isPathPrefixOf; rewrite La, Lb; cbn [bindR]; rewrite Ea; cbn [negb bindR];
     rewrite Eb; reflexivity|].
  assert (H1 : noTrailingSlash pre = true) by (unfold noTrailingSlash; now rewrite La, Ea).
  assert (H2 : noTrailingSlash path = true) by (unfold noTrailingSlash; now rewrite Lb, Eb).
  destruct (isPathPrefixOf_spec pre path H1 H2) as [r [Hr Hiff]].
  rewrite Hr. f_equal.
  destruct r, (isPathPrefixb pre path) eqn:E; try reflexivity.
  - pose proof (proj2 (isPathPrefixb_iff pre path) (proj1 Hiff eq_refl)). congruence.
  - pose proof (proj2 Hiff (proj1 (isPathPrefixb_iff pre path) E)). discriminate.
Qed.

(** X1: [isPathPrefixOf], case by case.  The assertion reads the last
    character of the prefix and, when that is not a slash, the last character
    of the path.  On an empty prefix the read of [prefix[prefixlen-1]] is a
    read before the array, with no defined behaviour, and so is the read of
    [path[pathlen-1]] on an empty path after a prefix that passed; a last
    character that is a slash fails the assertion; on two arguments that are
    not empty and do not end with a slash the answer is whether [path]
    equals [prefix] or begins with [prefix] and a slash. *)
Theorem isPathPrefixOf_decides (pre path : string) :
  isPathPrefixOf pre path
  = match lastChar pre with
    | None => Throw (Undefined "prefix[prefixlen-1]")
    | Some a =>
        if Ascii.eqb a "/"
        then Throw (AssertFailure "prefix[prefixlen-1] != '/' && path[pathlen-1] != '/'")
        else match lastChar path with
             | None => Throw (Undefined "path[pathlen-1]")
             | Some b =>
                 if Ascii.eqb b "/"
                 then Throw (AssertFailure
                               "prefix[prefixlen-1] != '/' && path[pathlen-1] != '/'")
                 else Ok (isPathPrefixb pre path)
             end
    end
  /\ (isPathPrefixb pre path = true <-> isPathPrefix pre path).
Proof.
  split; [apply isPathPrefixOf_cases | apply isPathPrefixb_iff].
Qed.

Lemma isPathPrefixOf_Ok_inv (pre path : string) (b : bool) :
  isPathPrefixOf pre path = Ok b ->
  noTrailingSlash pre = true /\ noTrailingSlash path = true
  /\ b = isPathPrefixb pre path.
Proof.
  rewrite isPathPrefixOf_cases. unfold noTrailingSlash.
  destruct (lastChar pre) as [a|]; [|discriminate].
  destruct (Ascii.eqb a "/"); [discriminate|].
  destruct (lastChar path) as [d|]; [|discriminate].
  destruct (Ascii.eqb d "/"); [discriminate|].
  intros H. injection H as <-. auto.
Qed.

Lemma firstPrefixOf_Ok_inv (folders : SMap.t string) (path r : string) :
  firstPrefixOf folders path = Ok r ->
  (r = "" /\ forall k, In k (SMap.keys folders) -> isPathPrefixb k path = false)
  \/ (exists before v after,
        folders = before ++ (r, v) :: after
        /\ isPathPrefixb r path = true
        /\ forall k, In k (SMap.keys before) -> isPathPrefixb k path = false).
Proof.
  induction folders as [|[k v] m IH]; simpl; intros H.
  - left. split; [congruence | intros k []].
  - destruct (isPathPrefixOf k path) as [b|e] eqn:E; simpl in H; [|discriminate].
    apply isPathPrefixOf_Ok_inv in E. destruct E as (_ & _ & ->).
    destruct (isPathPrefixb k path) eqn:B.
    + injection H as <-. right. exists [], v, m. repeat split; auto. intros k0 [].
    + destruct (IH H) as [[-> Hn]|(before & v0 & after & -> & Hb & Hn)].
      * left. split; [reflexivity|]. intros k0 [<-|Hk]; auto.
      * right. exists ((k, v) :: before), v0, after. repeat split; auto.
        intros k0 [<-|Hk]; auto.
Qed.

Section MoreFolderQueries.

Variable W : World.

(** X2: [getNedPackageForFolder] hands back the cache it was given, whatever
    the folder and whatever the outcome: reading the root package with [[]]
    through the cast never inserts a key, since the source folder it reads
    is a key of the map. *)
Theorem getNedPackageForFolder_keeps_cache (cwd : string) (c : Cache) (folder : string) :
  fst (getNedPackageForFolder W cwd c folder) = c.
Proof.
  unfold getNedPackageForFolder.
  destruct (getNedSourceFolderForFolder W cwd c folder) as [src|e] eqn:E; [|reflexivity].
  destruct (opp_isempty src) eqn:Hs; [reflexivity|].
  destruct (substr_from _ _); [|reflexivity].
  unfold getNedSourceFolderForFolder in E.
  apply firstPrefixOf_result in E. destruct E as [->|Hin]; [discriminate|].
  destruct (In_keys_find _ _ Hin) as [v Hv].
  rewrite (index_present _ _ _ _ Hv). simpl. apply with_folderPackages_same.
Qed.

(** X3: what [getNedSourceFolderForFolder] returns.  The empty string means
    that no key of the folder map is a path prefix of the canonical folder;
    any other answer is a key of the map that is a path prefix of it, and the
    first such key in the iteration of the map. *)
Theorem getNedSourceFolderForFolder_sound (cwd : string) (c : Cache) (folder r : string) :
  getNedSourceFolderForFolder W cwd c folder = Ok r ->
  (r = ""
   /\ forall k, In k (SMap.keys (folderPackages c)) ->
                ~ isPathPrefix k (canonicalize W cwd folder))
  \/ (exists before v after,
        folderPackages c = before ++ (r, v) :: after
        /\ isPathPrefix r (canonicalize W cwd folder)
        /\ forall k, In k (SMap.keys before) ->
                     ~ isPathPrefix k (canonicalize W cwd folder)).
Proof.
  unfold getNedSourceFolderForFolder. intros H.
  apply firstPrefixOf_Ok_inv in H.
  destruct H as [[-> Hn]|(before & v & after & Hf & Hb & Hn)].
  - left. split; [reflexivity|]. intros k Hk. apply isPathPrefixb_false. auto.
  - right. exists before, v, after. split; [exact Hf|].
    split; [now apply isPathPrefixb_iff|].
    intros k Hk. apply isPathPrefixb_false. auto.
Qed.

Lemma firstPrefixOf_first (before after : SMap.t string) (f v path : string) :
  noTrailingSlash path = true ->
  noTrailingSlash f = true ->
  (forall k, In k (SMap.keys before) ->
             noTrailingSlash k = true /\ ~ isPathPrefix k path) ->
  isPathPrefix f path ->
  firstPrefixOf (before ++ (f, v) :: after) path = Ok f.
Proof.
  intros Hp Hf. induction before as [|[k w] m IH]; simpl; intros Hb Hpre.
  - destruct (isPathPrefixOf_spec f path Hf Hp) as [b [Hb' Hiff]].
    rewrite Hb'. simpl. replace b with true; [reflexivity|]. symmetry. now apply Hiff.
  - destruct (Hb k (or_introl eq_refl)) as [Hk Hn].
    rewrite (isPathPrefixOf_not k path Hk Hp Hn). simpl. apply IH; auto.
Qed.

Lemma find_first_key {V} (before after : SMap.t V) (k : string) (v : V) :
  ~ In k (SMap.keys before) -> SMap.find (before ++ (k, v) :: after) k = Some v.
Proof.
  induction before as [|[k' w] m IH]; simpl; intros Hn.
  - now rewrite String.eqb_refl.
  - destruct (String.eqb_spec k' k) as [->|Hne]; [exfalso; apply Hn; now left|].
    apply IH. intros Hin. apply Hn. now right.
Qed.

(** X4: the package of a folder below a source folder.  Let the folder map
    hold the key [f] with root package [pkg], and let the canonical form of
    the folder be [f/rest].  When that path and [f] are not empty and do not
    end with a slash, and every key that the iteration reaches before [f]
    is such a path too and is not a path prefix of [f/rest] (the keys after
    [f] are free), [getNedSourceFolderForFolder] returns [f] and
    [getNedPackageForFolder] returns [pkg] joined by a dot with [rest] in
    which every slash has become a dot, and hands back the cache it was
    given; that sub-package holds no slash. *)
Theorem getNedPackageForFolder_below (cwd : string) (c : Cache)
        (folder f pkg rest : string) (before after : SMap.t string) :
  canonicalize W cwd folder = f +++ "/" +++ rest ->
  folderPackages c = before ++ (f, pkg) :: after ->
  noTrailingSlash (f +++ "/" +++ rest) = true ->
  noTrailingSlash f = true ->
  (forall k, In k (SMap.keys before) ->
             noTrailingSlash k = true /\ ~ isPathPrefix k (f +++ "/" +++ rest)) ->
  getNedSourceFolderForFolder W cwd c folder = Ok f
  /\ getNedPackageForFolder W cwd c folder
     = (c, Ok (opp_join "." pkg (opp_replacesubstring rest "/" "." true)))
  /\ strchr (opp_replacesubstring rest "/" "." true) "/" = false.
Proof.
  intros Hcan Hmap Hp Hf Hb.
  assert (Hpre : isPathPrefix f (f +++ "/" +++ rest)) by (right; now exists rest).
  assert (Hfind : SMap.find (folderPackages c) f = Some pkg).
  { rewrite Hmap. apply find_first_key. intros Hin. now apply (proj2 (Hb f Hin)). }
  assert (H : getNedSourceFolderForFolder W cwd c folder = Ok f).
  { unfold getNedSourceFolderForFolder. rewrite Hcan, Hmap.
    now apply firstPrefixOf_first. }
  split; [exact H|]. split.
  - unfold getNedPackageForFolder. rewrite H, Hcan.
    rewrite (noTrailingSlash_nonempty f Hf).
    unfold substr_from, strlen. rewrite length_append.
    destruct (Nat.ltb_spec (String.length f + String.length ("/" +++ rest))
                           (String.length f)); [lia|].
    replace (String.length f + String.length ("/" +++ rest) - String.length f)
      with (String.length ("/" +++ rest)) by lia.
    rewrite substring_skip_append. simpl.
    rewrite (index_present _ _ _ _ Hfind).
    now rewrite with_folderPackages_same.
  - unfold opp_replacesubstring. simpl. now apply replace_slash_none.
Qed.

End MoreFolderQueries.

Lemma getNedSourceFolderForFolder_sound_witness :
  exists before v after,
    folderPackages Sample.loaded = before ++ ("/r/pkg", v) :: after
    /\ isPathPrefix "/r/pkg" "/r/pkg/sub/deep"
    /\ forall k, In k (SMap.keys before) -> ~ isPathPrefix k "/r/pkg/sub/deep".
Proof.
  destruct (getNedSourceFolderForFolder_sound Sample.world "/" Sample.loaded
              "/r/pkg/sub/deep" "/r/pkg" eq_refl) as [[H _]|H].
  - discriminate H.
  - exact H.
Defined.

Lemma getNedPackageForFolder_below_witness :
  getNedPackageForFolder Sample.world "/" Sample.three "/a/b/x/y"
  = (Sample.three, Ok "b.x.y").
Proof.
  refine (proj1 (proj2 (getNedPackageForFolder_below Sample.world "/" Sample.three
                   "/a/b/x/y" "/a" "" "b/x/y" [("/r/pkg", "pkg")] [("/a/b", "")]
                   _ _ _ _ _))).
  - reflexivity.
  - vm_compute. reflexivity.
  - reflexivity.
  - reflexivity.
  - intros k [<-|[]]. split; [reflexivity|]. apply isPathPrefixb_false. reflexivity.
Defined.

(** ** The pending entries that [collectNedTypesFrom] builds *)

(** X5: [getParentContextOf] takes the last segment off the qualified name.
    For a node with a parent and a name without a dot, the context of
    [q.name] has the qualified name [q] and that of [name] alone the empty
    one; the context element is the parent, or the parent's parent when the
    parent is a types block.  A node without a parent makes the call
    dereference null. *)
Theorem getParentContextOf_strips_name (q name : string) (node : ASTPtr) :
  strchr name "." = false ->
  match getParent node with
  | Some parent =>
      let element :=
        if tag_eqb (getTagCode (target parent)) NED_TYPES
        then getParent parent else Some parent in
      getParentContextOf (q +++ "." +++ name) node = Ok (mkContext element q)
      /\ getParentContextOf name node = Ok (mkContext element "")
  | None =>
      getParentContextOf (q +++ "." +++ name) node = Throw NullPointer
  end.
Proof.
  intros Hname. unfold getParentContextOf.
  destruct (getParent node) as [parent|]; simpl; [|reflexivity].
  split.
  - change (q +++ "." +++ name) with (q +++ String "." name).
    rewrite (rfind_append q name "." Hname).
    now rewrite substring_0_append.
  - now rewrite (proj2 (rfind_None_iff name ".") Hname).
Qed.

Lemma getParentContextOf_strips_name_witness :
  getParentContextOf ("pkg.sub.C" +++ "." +++ "Inner")
    (mkPtr (Sample.element NED_SIMPLE_MODULE "Inner" []) [mkNode NED_TYPES [] []; Sample.builtinsTree])
  = Ok (mkContext (Some (mkPtr Sample.builtinsTree [])) "pkg.sub.C").
Proof.
  refine (proj1 (getParentContextOf_strips_name "pkg.sub.C" "Inner"
            (mkPtr (Sample.element NED_SIMPLE_MODULE "Inner" [])
                   [mkNode NED_TYPES [] []; Sample.builtinsTree]) _)).
  reflexivity.
Defined.

(** What holds of a pending entry collected under [packagePrefix]. *)
Definition wellCollected (packagePrefix : string) (p : PendingNedType) : Prop :=
  (exists ctx element,
      getParentContextOf (pending_qname p) (pending_node p) = Ok ctx
      /\ ctx_element ctx = Some element)
  /\ isNedTypeTag (getTagCode (target (pending_node p))) = true
  /\ (exists rest, pending_qname p = packagePrefix +++ rest).

Lemma wellCollected_prefix (a b : string) (p : PendingNedType) :
  wellCollected (a +++ b) p -> wellCollected a p.
Proof.
  intros (Hc & Ht & rest & Hr). split; [exact Hc|]. split; [exact Ht|].
  exists (b +++ rest). now rewrite Hr, append_assoc.
Qed.

Definition collectsWell (n : ASTNode) : Prop :=
  forall up packagePrefix areInnerTypes p,
    In p (collectNedTypesFrom n up packagePrefix areInnerTypes) ->
    getTagCode n <> NED_TYPES \/ up <> [] ->
    wellCollected packagePrefix p.

Lemma collect_each_well (node : ASTNode) (up : list ASTNode)
      (packagePrefix : string) (areInnerTypes : bool) (l : list ASTNode) :
  Forall (fun child => Forall collectsWell (getChildren child)) l ->
  getTagCode node <> NED_TYPES \/ up <> [] ->
  forall p,
    In p ((fix each (l : list ASTNode) : list PendingNedType :=
             match l with
             | [] => []
             | child :: rest =>
                 (if isNedTypeTag (getTagCode child) then
                    let qname := packagePrefix +++ getAttribute child "name" in
                    mkPending qname areInnerTypes (mkPtr child (node :: up))
                    :: match child with
                       | mkNode _ _ gcs =>
                           (fix firstTypes (g : list ASTNode) : list PendingNedType :=
                              match g with
                              | [] => []
                              | types :: g' =>
                                  if tag_eqb (getTagCode types) NED_TYPES
                                  then collectNedTypesFrom types (child :: node :: up)
                                                           (qname +++ ".") true
                                  else firstTypes g'
                              end) gcs
                       end
                  else [])
                 ++ each rest
             end) l) ->
    wellCollected packagePrefix p.
Proof.
  intros Hall Hnode. induction Hall as [|child rest Hchild _ IH]; intros p Hin;
    [destruct Hin|].
  apply in_app_or in Hin. destruct Hin as [Hin|Hin]; [|now apply IH].
  destruct (isNedTypeTag (getTagCode child)) eqn:Htag; [|destruct Hin].
  destruct Hin as [<-|Hin].
  - split; [|split; [exact Htag | now eexists]].
    unfold getParentContextOf. simpl.
    destruct (tag_eqb (getTagCode node) NED_TYPES) eqn:Ht.
    + destruct Hnode as [Hn|Hup].
      * unfold tag_eqb in Ht. destruct (TagCode_eq_dec (getTagCode node) NED_TYPES);
          [contradiction | discriminate].
      * destruct up as [|a r]; [now elim Hup|].
        eexists _, _. split; reflexivity.
    + eexists _, _. split; reflexivity.
  - destruct child as [t a gcs]. simpl in Hchild.
    apply wellCollected_prefix with (b := getAttribute (mkNode t a gcs) "name" +++ ".").
    rewrite <- append_assoc.
    remember (mkNode t a gcs) as ch eqn:Hch in Hin |- *. clear Hch Htag IH.
    revert Hin. induction Hchild as [|types g' Htypes _ IHg]; intros Hin; [destruct Hin|].
    destruct (tag_eqb (getTagCode types) NED_TYPES); [|now apply IHg].
    eapply Htypes; [exact Hin|]. right. discriminate.
Qed.

Lemma collectsWell_all (n : ASTNode) : collectsWell n /\ Forall collectsWell (getChildren n).
Proof.
  induction n as [t a cs IH] using ASTNode_induction.
  assert (Hcs : Forall collectsWell cs).
  { eapply Forall_impl; [|exact IH]. now intros c [H _]. }
  split; [|exact Hcs].
  intros up packagePrefix areInnerTypes p Hin Hnode.
  eapply (collect_each_well (mkNode t a cs) up packagePrefix areInnerTypes cs);
    [|exact Hnode|exact Hin].
  eapply Forall_impl; [|exact IH]. now intros c [_ H].
Qed.

(** X6: the entries of [collectNedTypesFrom].  Collected from a node that is
    not a types block (or that has a parent), every entry points to an
    element that declares a type, has a qualified name that begins with the
    package prefix, and has a parent context with an element in it: on the
    entries the cache collects, [getParentContextOf] dereferences no null
    pointer. *)
Theorem collected_entries_have_context
        (node : ASTNode) (up : list ASTNode) (packagePrefix : string)
        (areInnerTypes : bool) (p : PendingNedType) :
  In p (collectNedTypesFrom node up packagePrefix areInnerTypes) ->
  getTagCode node <> NED_TYPES \/ up <> [] ->
  (exists ctx element,
      getParentContextOf (pending_qname p) (pending_node p) = Ok ctx
      /\ ctx_element ctx = Some element)
  /\ isNedTypeTag (getTagCode (target (pending_node p))) = true
  /\ (exists rest, pending_qname p = packagePrefix +++ rest).
Proof.
  intros Hin Hnode. destruct (collectsWell_all node) as [H _].
  exact (H up packagePrefix areInnerTypes p Hin Hnode).
Qed.

Lemma collected_entries_have_context_witness :
  exists ctx element,
    getParentContextOf "ned.IdealChannel"
      (mkPtr (Sample.element NED_CHANNEL "IdealChannel" []) [Sample.builtinsTree])
    = Ok ctx
    /\ ctx_element ctx = Some element.
Proof.
  refine (proj1 (collected_entries_have_context Sample.builtinsTree [] "ned." false
                   (mkPending "ned.IdealChannel" false
                      (mkPtr (Sample.element NED_CHANNEL "IdealChannel" [])
                             [Sample.builtinsTree])) _ _)).
  - left. reflexivity.
  - left. discriminate.
Defined.

(** ** What the resolver answers *)

Section ResolverAnswers.

Variable W : World.

Lemma namesType_self (r : string) : namesType r r = true.
Proof. unfold namesType. rewrite String.eqb_refl. apply orb_true_r. Qed.

Lemma namesType_qualified (base r : string) : namesType (base +++ "." +++ r) r = true.
Proof. unfold namesType. now rewrite (endswith_append base ("." +++ r)). Qed.

Lemma innerTypeStep_sound {T} `{INedTypeNames T} (qnames : T)
      (element : ASTPtr) (contextQName r q : string) :
  innerTypeStep qnames element contextQName r = Ok (Some q) ->
  contains qnames q = true /\ namesType q r = true /\ q <> "".
Proof.
  unfold innerTypeStep.
  destruct (tag_eqb _ _); [|discriminate].
  destruct (deref (getParent element)); simpl; [|discriminate].
  destruct (match getParentWithTag _ _ with Some _ => true | None => false end).
  - destruct (rfind contextQName "."); simpl; [|discriminate].
    match goal with |- context [contains qnames ?x] => destruct (contains qnames x) eqn:C end;
      [|discriminate].
    intros E. injection E as <-. split; [exact C|]. split; [apply namesType_qualified|].
    destruct (substring 0 n contextQName); discriminate.
  - simpl.
    match goal with |- context [contains qnames ?x] => destruct (contains qnames x) eqn:C end;
      [|discriminate].
    intros E. injection E as <-. split; [exact C|]. split; [apply namesType_qualified|].
    destruct contextQName; discriminate.
Qed.

Lemma samePackageName_namesType (nedfileNode : ASTNode) (r : string) :
  namesType (samePackageName nedfileNode r) r = true.
Proof.
  unfold samePackageName.
  destruct (opp_isempty _); [apply namesType_self | apply namesType_qualified].
Qed.

(** The answer of the resolver on any view. *)
Lemma resolveNedType_answer {T} `{INedTypeNames T} (qnames : T)
      (context : NedLookupContext) (r q : string) :
  snd (resolveNedType W context r qnames) = Ok q ->
  q <> "" ->
  namesType q r = true /\ (contains qnames q = true \/ In q (enumerate qnames)).
Proof.
  unfold resolveNedType. intros E Hq.
  destruct (negb (strchr r ".")).
  - destruct (deref (ctx_element context)) as [element|e]; simpl in E; [|discriminate].
    destruct (innerTypeStep qnames element (ctx_qname context) r) as [[q0|]|e] eqn:I;
      simpl in E; [| |discriminate].
    { injection E as <-. apply innerTypeStep_sound in I. tauto. }
    destruct (deref (getParentWithTag element NED_NED_FILE)) as [nedfile|e];
      simpl in E; [|discriminate].
    destruct (exactImportStep qnames _ r) as [import|] eqn:X.
    { injection E as <-. unfold exactImportStep in X. apply find_some in X.
      destruct X as [_ X]. apply andb_true_iff in X. tauto. }
    unfold laterSteps in E.
    destruct (contains qnames (samePackageName (target nedfile) r)) eqn:C.
    { simpl in E. injection E as <-.
      split; [apply samePackageName_namesType | now left]. }
    destruct (wildcardImportStep W qnames _ r) as [q' [q1|]] eqn:Wc; simpl in E;
      injection E as E; subst q; [|now elim Hq].
    rename q1 into q.
    assert (Wc' : snd (wildcardImportStep W qnames (collectImports (target nedfile)) r)
                  = Some q) by now rewrite Wc.
    apply wildcardImportStep_first in Wc'.
    destruct Wc' as (b & i & a & nb & na & _ & _ & _ & Hn & H1 & _ & _).
    split; [exact H1|]. right. rewrite Hn. apply in_or_app. right. now left.
  - simpl in E. destruct (contains qnames r) eqn:C; injection E as <-; [|now elim Hq].
    split; [apply namesType_self | now left].
Qed.

Lemma enumerate_registered (c : Cache) (q : string) :
  namesInSync c -> In q (enumerate c) -> registered c q.
Proof.
  intros Hs Hin. rewrite enumerate_cached in Hin.
  destruct (getTypeNames_in_sync c Hs) as (Hn & _). rewrite Hn in Hin.
  unfold registered, lookup. intros Hnone.
  now apply (proj1 (find_None_keys _ _) Hnone).
Qed.

Lemma contains_registered (c : Cache) (q : string) :
  contains c q = true <-> registered c q.
Proof.
  simpl. unfold registered. destruct (lookup c q); split; congruence.
Qed.

Lemma substring_split (s : string) :
  forall n, n <= String.length s ->
            s = substring 0 n s +++ substring n (String.length s - n) s.
Proof.
  induction s as [|c s IH]; intros n Hn.
  - destruct n; reflexivity.
  - destruct n; simpl.
    + now rewrite substring_0_length.
    + f_equal. apply IH. simpl in Hn. lia.
Qed.

Lemma endswith_inv (q suffix : string) :
  opp_stringendswith q suffix = true -> exists base, q = base +++ suffix.
Proof.
  unfold opp_stringendswith, strlen.
  destruct (Nat.ltb_spec (String.length q) (String.length suffix)); [discriminate|].
  intros E. apply String.eqb_eq in E.
  exists (substring 0 (String.length q - String.length suffix) q).
  pose proof (substring_split q (String.length q - String.length suffix)
                (Nat.le_sub_l _ _)) as S.
  replace (String.length q - (String.length q - String.length suffix))
    with (String.length suffix) in S by lia.
  now rewrite E in S.
Qed.

(** X7: the answers of the resolver against the cache.  A non-empty answer
    for the reference [r] is a registered name, and it is [r] itself or ends
    with a dot and [r]: whichever step answers, the resolver never makes up a
    name and never returns a type of another simple name. *)
Theorem resolveNedType_returns_registered
        (c : Cache) (context : NedLookupContext) (r q : string) :
  namesInSync c ->
  snd (resolveNedType W context r c) = Ok q ->
  q <> "" ->
  registered c q
  /\ (q = r \/ exists base, q = base +++ "." +++ r).
Proof.
  intros Hs E Hq. destruct (resolveNedType_answer c context r q E Hq) as [Hn Hc].
  split.
  - destruct Hc as [Hc|Hc]; [now apply contains_registered | now apply enumerate_registered].
  - unfold namesType in Hn. apply orb_true_iff in Hn. destruct Hn as [Hn|Hn].
    + right. now apply endswith_inv.
    + left. now apply String.eqb_eq.
Qed.

End ResolverAnswers.

Lemma resolveNedType_returns_registered_witness :
  registered Sample.finalized "pkg.A"
  /\ ("pkg.A" = "A" \/ exists base, "pkg.A" = base +++ "." +++ "A").
Proof.
  apply (resolveNedType_returns_registered Sample.world Sample.finalized
           (mkContext
              (Some (mkPtr (Sample.nedFile "/x/U.ned" [Sample.import "pkg.*"]) [])) "")
           "A" "pkg.A").
  - left. reflexivity.
  - reflexivity.
  - discriminate.
Defined.

(** ** Resolved dependencies stay resolved *)

Section DependenciesStay.

Variable W : World.
Variables c c' : Cache.
Hypothesis sync : namesInSync c.
Hypothesis sync' : namesInSync c'.
Hypothesis grows : forall q, registered c q -> registered c' q.
Hypothesis noEmptyName : lookup c' "" = None.

Lemma contains_grows (q : string) : contains c q = true -> contains c' q = true.
Proof. intros H. apply contains_registered, grows, contains_registered, H. Qed.

Lemma contains_nonempty (q : string) : contains c' q = true -> q <> "".
Proof.
  intros H ->. apply contains_registered in H. now apply H.
Qed.

Lemma enumerate_grows (q : string) : In q (enumerate c) -> In q (enumerate c').
Proof.
  intros H. apply enumerate_registered in H; [|exact sync]. apply grows in H.
  rewrite enumerate_cached. destruct (getTypeNames_in_sync c' sync') as (-> & _).
  destruct (lookup c' q) as [i|] eqn:L; [|now elim H].
  eapply find_In_keys. exact L.
Qed.

Lemma find_on_more {A} (f : A -> bool) (l l' : list A) (x : A) :
  find f l = Some x -> (forall y, In y l -> In y l') ->
  exists x', find f l' = Some x'.
Proof.
  intros H Hincl. apply find_some in H. destruct H as [Hin Hf].
  destruct (find f l') as [x'|] eqn:F; [now exists x'|].
  rewrite (find_none _ _ F x (Hincl x Hin)) in Hf. discriminate.
Qed.

Lemma wildcardImportStep_grows (imports : list string) (r q : string) :
  snd (wildcardImportStep W c imports r) = Some q ->
  exists q', snd (wildcardImportStep W c' imports r) = Some q' /\ q' <> "".
Proof.
  intros H.
  destruct (snd (wildcardImportStep W c' imports r)) as [q'|] eqn:F'.
  - exists q'. split; [reflexivity|].
    apply wildcardImportStep_first in F'.
    destruct F' as (b & i & a & nb & na & _ & _ & _ & Hn & _).
    assert (Hin : In q' (enumerate c'))
      by (rewrite Hn; apply in_or_app; right; now left).
    apply enumerate_registered in Hin; [|exact sync'].
    intros ->. now apply Hin.
  - exfalso.
    assert (N : snd (wildcardImportStep W c imports r) = None).
    { apply wildcardImportStep_none. intros i q0 Hi Hw Hq.
      apply (proj1 (wildcardImportStep_none W imports r c') F' i q0 Hi Hw).
      now apply enumerate_grows. }
    congruence.
Qed.

Lemma resolveNedType_grows (context : NedLookupContext) (r q : string) :
  snd (resolveNedType W context r c) = Ok q -> q <> "" ->
  exists q', snd (resolveNedType W context r c') = Ok q' /\ q' <> "".
Proof.
  unfold resolveNedType. intros E Hq.
  destruct (negb (strchr r ".")).
  - destruct (deref (ctx_element context)) as [element|e]; cbn [snd] in *; [|discriminate].
    assert (Hinner :
              match innerTypeStep c element (ctx_qname context) r with
              | Ok (Some q0) => innerTypeStep c' element (ctx_qname context) r = Ok (Some q0)
              | Ok None =>
                  innerTypeStep c' element (ctx_qname context) r = Ok None
                  \/ exists q1, innerTypeStep c' element (ctx_qname context) r = Ok (Some q1)
              | Throw _ => True
              end).
    { unfold innerTypeStep. destruct (tag_eqb _ _); [|now left].
      destruct (deref (getParent element)); cbn [bindR]; [|exact I].
      destruct (match getParentWithTag _ _ with Some _ => true | None => false end).
      - destruct (rfind _ _); cbn [bindR]; [|exact I].
        match goal with |- context [contains c ?x] => destruct (contains c x) eqn:C end.
        + now rewrite (contains_grows _ C).
        + match goal with |- context [contains c' ?x] => destruct (contains c' x) end;
            [right; eauto | now left].
      - cbn [bindR].
        match goal with |- context [contains c ?x] => destruct (contains c x) eqn:C end.
        + now rewrite (contains_grows _ C).
        + match goal with |- context [contains c' ?x] => destruct (contains c' x) end;
            [right; eauto | now left]. }
    destruct (innerTypeStep c element (ctx_qname context) r) as [[q0|]|e] eqn:I0;
      cbn [snd] in E; [| |discriminate].
    { rewrite Hinner. cbn [snd]. injection E as <-. now exists q0. }
    destruct Hinner as [Hinner|[q1 Hinner]]; rewrite Hinner; cbn [snd].
    2:{ exists q1. split; [reflexivity|]. apply innerTypeStep_sound in Hinner. tauto. }
    destruct (deref (getParentWithTag element NED_NED_FILE)) as [nedfile|e];
      cbn [snd] in *; [|discriminate].
    cbv zeta in *.
    destruct (exactImportStep c' _ r) as [import'|] eqn:X'.
    { exists import'. split; [reflexivity|].
      unfold exactImportStep in X'. apply find_some in X'. destruct X' as [_ X'].
      apply andb_true_iff in X'. destruct X' as [X' _]. now apply contains_nonempty. }
    destruct (exactImportStep c _ r) as [import|] eqn:X.
    { exfalso. unfold exactImportStep in X, X'. apply find_some in X.
      destruct X as [Hin X]. apply andb_true_iff in X. destruct X as [X1 X2].
      pose proof (find_none _ _ X' import Hin) as N. cbn beta in N.
      rewrite (contains_grows _ X1), X2 in N. discriminate. }
    unfold laterSteps in *.
    destruct (contains c' (samePackageName (target nedfile) r)) eqn:C'.
    { eexists. split; [reflexivity|]. now apply contains_nonempty. }
    destruct (contains c (samePackageName (target nedfile) r)) eqn:C.
    { rewrite (contains_grows _ C) in C'. discriminate. }
    destruct (wildcardImportStep W c _ r) as [c1 [q1|]] eqn:Wc; cbn [snd] in E;
      injection E as E; subst q; [|now elim Hq].
    rename q1 into q.
    assert (Wc1 : snd (wildcardImportStep W c (collectImports (target nedfile)) r)
                  = Some q) by now rewrite Wc.
    destruct (wildcardImportStep_grows _ _ _ Wc1) as (q' & Hq1 & Hq').
    destruct (wildcardImportStep W c' _ r) as [c1' o']. cbn [snd] in *. subst o'.
    now exists q'.
  - cbn [snd] in *. destruct (contains c r) eqn:C; injection E as <-; [|now elim Hq].
    rewrite (contains_grows _ C). now exists r.
Qed.

Lemma allResolve_grows (context : NedLookupContext) (cs : list ASTNode) :
  forall c0 c0',
    memoEquiv c c0 -> memoEquiv c' c0' ->
    snd (allResolve W c0 context cs) = Ok true ->
    snd (allResolve W c0' context cs) = Ok true.
Proof.
  induction cs as [|child rest IH]; intros c0 c0' E0 E0'; simpl; [auto|].
  destruct (negb (tag_eqb (getTagCode child) NED_EXTENDS)
            && negb (tag_eqb (getTagCode child) NED_INTERFACE_NAME)); [now apply IH|].
  pose proof (resolveNedType_equiv W context (getAttribute child "name") _ _ E0) as X.
  pose proof (resolveNedType_equiv W context (getAttribute child "name") _ _ E0') as X'.
  pose proof (resolveNedType_memo W context (getAttribute child "name") c0) as M.
  pose proof (resolveNedType_memo W context (getAttribute child "name") c0') as M'.
  destruct (resolveNedType W context _ c0) as [c1 r1];
    destruct (resolveNedType W context _ c0') as [c1' r1']. cbn [fst snd] in *.
  destruct r1 as [q|e]; [|discriminate].
  destruct (opp_isempty q) eqn:Hq; [discriminate|].
  assert (Hne : q <> "") by (intros ->; discriminate).
  symmetry in X.
  destruct (resolveNedType_grows _ _ _ X Hne) as (q' & R' & Hq').
  rewrite R' in X'. subst r1'.
  destruct q'; [now elim Hq'|]. cbn [opp_isempty].
  apply IH.
  - eapply memoEquiv_trans; [exact E0 | now apply memoFilled_equiv].
  - eapply memoEquiv_trans; [exact E0' | now apply memoFilled_equiv].
Qed.

End DependenciesStay.

(** X8: once the dependencies of a type are resolved they stay resolved.
    When [areDependenciesResolved] answers [true] in a cache, it answers
    [true] in every cache that has at least the same names registered (and
    no type of the empty name): registering further types never makes a
    ready entry wait again. *)
Theorem areDependenciesResolved_stays (W : World) (c c' : Cache)
        (qname : string) (node : ASTPtr) :
  namesInSync c -> namesInSync c' ->
  (forall q, registered c q -> registered c' q) ->
  lookup c' "" = None ->
  snd (areDependenciesResolved W c qname node) = Ok true ->
  snd (areDependenciesResolved W c' qname node) = Ok true.
Proof.
  intros Hs Hs' Hg He. unfold areDependenciesResolved.
  destruct (getParentContextOf qname node) as [context|e]; simpl; [|discriminate].
  apply (allResolve_grows W c c' Hs Hs' Hg He); reflexivity.
Qed.

Lemma areDependenciesResolved_stays_witness :
  snd (areDependenciesResolved Sample.world
         (registerNedType Sample.finalized "x.New" false
            (mkPtr (Sample.element NED_SIMPLE_MODULE "New" []) []))
         "pkg.A"
         (mkPtr (Sample.element NED_SIMPLE_MODULE "A" [Sample.extends "B"])
                [Sample.nedFile "/r/pkg/A.ned"
                   [Sample.package "pkg";
                    Sample.element NED_SIMPLE_MODULE "A" [Sample.extends "B"]]]))
  = Ok true.
Proof.
  apply (areDependenciesResolved_stays Sample.world Sample.finalized).
  - left. reflexivity.
  - left. reflexivity.
  - intros q Hq. now apply registered_registerNedType.
  - reflexivity.
  - reflexivity.
Defined.

(** ** Finalizing and loading afterwards *)

(** Registration writes the type index, its memo and the pending list, and
    nothing else. *)
Definition sameFlags (c c' : Cache) : Prop :=
  doneLoadingNedFilesCalled c' = doneLoadingNedFilesCalled c
  /\ packageDotNedFiles c' = packageDotNedFiles c.

Lemma sameFlags_refl (c : Cache) : sameFlags c c.
Proof. now split. Qed.

Lemma sameFlags_trans (a b c : Cache) : sameFlags a b -> sameFlags b c -> sameFlags a c.
Proof. unfold sameFlags. intros [? ?] [? ?]. split; congruence. Qed.

Section Finalizing.

Variable W : World.

Lemma memoFilled_sameFlags (c c' : Cache) : memoFilled c c' -> sameFlags c c'.
Proof. intros M. rewrite (memoFilled_frame _ _ M). now split. Qed.

Lemma scanPending_sameFlags (todo : list PendingNedType) :
  forall c kept again c' r,
    scanPending W c kept todo again = (c', r) -> sameFlags c c'.
Proof.
  induction todo as [|type rest IH]; intros c kept again c' r H.
  - simpl in H. injection H as <- _. apply sameFlags_refl.
  - destruct (scanPending_step W c kept type rest again) as (c0 & M & E).
    rewrite E in H. clear E. apply memoFilled_sameFlags in M.
    destruct (ready W c type) as [[|]|e].
    + unfold registerChecked in H. destruct (lookup c _).
      * now injection H as <- _.
      * apply IH in H. exact H.
    + apply IH in H. eapply sameFlags_trans; eauto.
    + now injection H as <- _.
Qed.

Lemma registerLoop_sameFlags (fuel : nat) :
  forall c c' r, registerLoop W fuel c = (c', r) -> sameFlags c c'.
Proof.
  induction fuel as [|fuel IH]; simpl; intros c c' r H.
  - injection H as <- _. apply sameFlags_refl.
  - destruct (scanPending W c [] (pendingList c) false) as [c1 [[|]|e]] eqn:E;
      apply scanPending_sameFlags in E.
    + apply IH in H. eapply sameFlags_trans; eauto.
    + now injection H as <- _.
    + now injection H as <- _.
Qed.

Lemma registerPendingNedTypes_sameFlags (c c' : Cache) (r : Res unit) :
  registerPendingNedTypes W c = (c', r) -> sameFlags c c'.
Proof.
  unfold registerPendingNedTypes.
  destruct (registerLoop W _ c) as [c1 [u|e]] eqn:E; apply registerLoop_sameFlags in E.
  - destruct (pendingList c1); intros H; now injection H as <- _.
  - intros H; now injection H as <- _.
Qed.

(** What a call of [registerPendingNedTypes] leaves, from the lemmas on its
    loop. *)
Lemma registerPendingNedTypes_outcome (c c' : Cache) (r : Res unit) :
  registerPendingNedTypes W c = (c', r) ->
  progress c c' /\ (r = Ok tt -> pendingList c' = []).
Proof.
  unfold registerPendingNedTypes.
  destruct (registerLoop W _ c) as [c1 [u|e]] eqn:E.
  - pose proof (registerLoop_progress W _ _ _ _ E) as P.
    destruct (pendingList c1) eqn:L; intros H; injection H as <- <-.
    + split; [exact P | auto].
    + split; [exact P | discriminate].
  - intros H. injection H as <- <-. split; [|discriminate].
    eapply registerLoop_progress; eauto.
Qed.

Lemma collectPackageNedFiles_done (files : list (string * ASTNode)) :
  forall c,
    doneLoadingNedFilesCalled (fst (collectPackageNedFiles files c))
    = doneLoadingNedFilesCalled c.
Proof.
  induction files as [|[k nedFile] rest IH]; simpl; intros c; [reflexivity|].
  destruct (isPackageNedFile _); [|apply IH].
  destruct (SMap.find _ _); [reflexivity|]. now rewrite IH.
Qed.

Lemma collectFromFiles_done (files : list (string * ASTNode)) :
  forall c,
    doneLoadingNedFilesCalled (collectFromFiles files c) = doneLoadingNedFilesCalled c.
Proof.
  induction files as [|[k nedFile] rest IH]; simpl; intros c; [reflexivity|].
  now rewrite IH.
Qed.

Lemma doneLoadingNedFiles_sets_flag (c : Cache) :
  doneLoadingNedFilesCalled (fst (doneLoadingNedFiles W c)) = true.
Proof.
  unfold doneLoadingNedFiles.
  destruct (doneLoadingNedFilesCalled c) eqn:D; [exact D|].
  pose proof (collectPackageNedFiles_done (nedFiles (with_done c true)) (with_done c true))
    as F.
  destruct (collectPackageNedFiles _ _) as [c1 [u|e]]; simpl in F; [|exact F].
  destruct (registerPendingNedTypes W _) as [c2 r] eqn:E. simpl.
  apply registerPendingNedTypes_sameFlags in E. destruct E as [E _].
  now rewrite E, collectFromFiles_done.
Qed.

(** X9: [doneLoadingNedFiles] can be called once.  After a call, whether it
    returned or threw (a duplicate package marker, an unresolved type), the
    next call throws "may only be called once" and leaves the cache as it
    is: a finalization that failed cannot be tried again. *)
Theorem doneLoadingNedFiles_once (c : Cache) :
  doneLoadingNedFiles W (fst (doneLoadingNedFiles W c))
  = (fst (doneLoadingNedFiles W c),
     Throw (NedException
              "NedResourceCache::doneLoadingNedFiles() may only be called once")).
Proof.
  pose proof (doneLoadingNedFiles_sets_flag c) as F.
  destruct (doneLoadingNedFiles W c) as [c1 r]. simpl in *.
  unfold doneLoadingNedFiles. now rewrite F.
Qed.

(** X10: no package marker after finalization.  After a call of
    [doneLoadingNedFiles], whatever its outcome, loading a file whose
    canonical name is [package.ned] or ends with [/package.ned] and that is
    not in the file index throws and leaves the cache as it is. *)
Theorem no_package_file_after_done
        (c : Cache) (cwd name : string) (expectedPackage : option string) (isXML : bool) :
  let c1 := fst (doneLoadingNedFiles W c) in
  isPackageNedFile (canonicalize W cwd name) = true ->
  SMap.containsKey (nedFiles c1) (canonicalize W cwd name) = false ->
  loadNedFile W cwd (Some name) expectedPackage isXML c1
  = (c1, Throw (NedException
                  ("Cannot load " +++ canonicalize W cwd name +++
                   ": 'package.ned' files can no longer be loaded at this point"))).
Proof.
  intros c1 Hp Hk. unfold loadNedFile, doLoadNedFileOrText.
  rewrite Hk. unfold c1. now rewrite doneLoadingNedFiles_sets_flag, Hp.
Qed.

End Finalizing.

Lemma no_package_file_after_done_witness :
  loadNedFile Sample.world "/" (Some "/r/dup/package.ned") None false Sample.finalized
  = (Sample.finalized,
     Throw (NedException
              "Cannot load /r/dup/package.ned: 'package.ned' files can no longer be loaded at this point")).
Proof.
  apply (no_package_file_after_done Sample.world Sample.loaded "/" "/r/dup/package.ned"
           None false).
  - reflexivity.
  - reflexivity.
Defined.

(** ** The outcomes of parsing and of a file load *)

Lemma getFirstError_after_containsError (errors : ErrorStore) (pre : option string) :
  containsError errors = true -> exists msg, getFirstError errors pre = Ok msg.
Proof.
  unfold containsError, getFirstError. intros H.
  apply existsb_exists in H. destruct H as (e & Hin & He).
  destruct (find _ errors) as [e0|] eqn:F; [eexists; reflexivity|].
  rewrite (find_none _ _ F e Hin) in He. discriminate.
Qed.

Lemma throwFirstError_kind {A} (errors : ErrorStore) (pre : option string) :
  containsError errors = true ->
  exists msg, @throwFirstError A errors pre = Throw (NedException msg).
Proof.
  intros H. destruct (getFirstError_after_containsError errors pre H) as [msg Hm].
  exists msg. unfold throwFirstError. now rewrite Hm.
Qed.

Section Outcomes.

Variable W : World.

Lemma containsError_app (a b : ErrorStore) :
  containsError (a ++ b) = containsError a || containsError b.
Proof. unfold containsError. apply existsb_app. Qed.

(** X11: the outcomes of [parseAndValidateNedFileOrText].  The parser that
    runs is the XML parser on the file when XML is asked for, the NED parser
    on the text when a text is given, the NED parser on the file otherwise.
    The call returns a tree exactly when that parser produced it, it is a
    ned-file element, and no message of the parser or of the two validators
    has the severity of an error; in particular the parser reported no
    error.  Every failure is a [NedException], the assertion of
    [getFirstError] being out of reach since the store it is given contains
    an error; XML given as text is refused whatever the text. *)
Theorem parseAndValidate_outcomes (cwd fname : string) (nedText : option string)
        (isXML : bool) :
  let out :=
    if isXML then parseXML W cwd fname
    else match nedText with
         | Some text => parseNedText W text fname
         | None => parseNedFile W cwd fname
         end in
  (forall tree,
      parseAndValidateNedFileOrText W cwd fname nedText isXML = Ok tree <->
      (isXML = true -> nedText = None)
      /\ parsedTree out = Some tree
      /\ getTagCode tree = NED_NED_FILE
      /\ containsError (parseErrors out) = false
      /\ containsError (dtdValidate W (Some tree)) = false
      /\ containsError (syntaxValidate W (Some tree)) = false)
  /\ (forall e,
        parseAndValidateNedFileOrText W cwd fname nedText isXML = Throw e ->
        exists msg, e = NedException msg)
  /\ (isXML = true -> nedText <> None ->
      parseAndValidateNedFileOrText W cwd fname nedText isXML
      = Throw (NedException "loadNedText(): Parsing XML from string not supported")).
Proof.
  intros out. unfold parseAndValidateNedFileOrText.
  set (parsed := if isXML then
                   match nedText with
                   | Some _ => Throw (NedException
                                 "loadNedText(): Parsing XML from string not supported")
                   | None => Ok (parseXML W cwd fname)
                   end
                 else
                   match nedText with
                   | Some text => Ok (parseNedText W text fname)
                   | None => Ok (parseNedFile W cwd fname)
                   end).
  assert (Hp : (isXML = true /\ nedText <> None
                /\ parsed = Throw (NedException
                                     "loadNedText(): Parsing XML from string not supported"))
               \/ ((isXML = true -> nedText = None) /\ parsed = Ok out)).
  { unfold parsed, out. destruct isXML, nedText.
    - left. repeat split. discriminate.
    - right. split; reflexivity.
    - right. split; [discriminate | reflexivity].
    - right. split; [discriminate | reflexivity]. }
  destruct Hp as [(Hx & Ht & ->)|(Hx & ->)]; cbn [bindR].
  { split; [|split].
    - intros tree. split; [discriminate|]. intros (H & _). now apply H in Hx.
    - intros e H. injection H as <-. eauto.
    - reflexivity. }
  split; [|split].
  2:{ intros e.
      destruct (containsError (parseErrors out)) eqn:E1.
      { destruct (@throwFirstError_kind ASTNode _ None E1) as [msg ->].
        intros H; injection H as <-; eauto. }
      destruct (containsError (parseErrors out ++ dtdValidate W (parsedTree out))) eqn:E2.
      { destruct (@throwFirstError_kind ASTNode _
                    (Some "NED internal DTD validation failure: ") E2) as [msg ->].
        intros H; injection H as <-; eauto. }
      destruct (containsError ((parseErrors out ++ dtdValidate W (parsedTree out))
                               ++ syntaxValidate W (parsedTree out))) eqn:E3.
      { destruct (@throwFirstError_kind ASTNode _ None E3) as [msg ->].
        intros H; injection H as <-; eauto. }
      destruct (parsedTree out) as [tree|]; [|intros H; injection H as <-; eauto].
      destruct (tag_eqb _ _); [discriminate|]. intros H; injection H as <-; eauto. }
  2:{ intros Hxml Hne. now apply Hx in Hxml. }
  intros tree. rewrite !containsError_app.
  destruct (containsError (parseErrors out)) eqn:E1.
  { destruct (@throwFirstError_kind ASTNode _ None E1) as [msg ->].
    split; [discriminate|]. intros (_ & _ & _ & H & _). discriminate. }
  cbn [orb].
  destruct (parsedTree out) as [t|] eqn:T.
  2:{ destruct (containsError (dtdValidate W None)) eqn:E2.
      { destruct (@throwFirstError_kind ASTNode
                    (parseErrors out ++ dtdValidate W None)
                    (Some "NED internal DTD validation failure: ")) as [msg ->].
        { now rewrite containsError_app, E1, E2. }
        split; [discriminate|]. intros (_ & H & _). discriminate. }
      destruct (containsError (syntaxValidate W None)) eqn:E3.
      { destruct (@throwFirstError_kind ASTNode
                    ((parseErrors out ++ dtdValidate W None) ++ syntaxValidate W None)
                    None) as [msg ->].
        { now rewrite !containsError_app, E1, E2, E3. }
        split; [discriminate|]. intros (_ & H & _). discriminate. }
      split; [discriminate|]. intros (_ & H & _). discriminate. }
  destruct (containsError (dtdValidate W (Some t))) eqn:E2.
  { destruct (@throwFirstError_kind ASTNode
                (parseErrors out ++ dtdValidate W (Some t))
                (Some "NED internal DTD validation failure: ")) as [msg ->].
    { now rewrite containsError_app, E1, E2. }
    split; [discriminate|]. intros (_ & H & _ & _ & H2 & _).
    injection H as <-. congruence. }
  destruct (containsError (syntaxValidate W (Some t))) eqn:E3.
  { destruct (@throwFirstError_kind ASTNode
                ((parseErrors out ++ dtdValidate W (Some t)) ++ syntaxValidate W (Some t))
                None) as [msg ->].
    { now rewrite !containsError_app, E1, E2, E3. }
    split; [discriminate|]. intros (_ & H & _ & _ & _ & H3).
    injection H as <-. congruence. }
  destruct (tag_eqb (getTagCode t) NED_NED_FILE) eqn:G.
  - assert (Htag : getTagCode t = NED_NED_FILE).
    { unfold tag_eqb in G. now destruct (TagCode_eq_dec (getTagCode t) NED_NED_FILE). }
    split.
    + intros H. injection H as <-. repeat split; auto.
    + intros (_ & H & _). now injection H as <-.
  - split; [discriminate|]. intros (_ & H & Htag & _). injection H as <-.
    unfold tag_eqb in G. destruct (TagCode_eq_dec (getTagCode t) NED_NED_FILE);
      [discriminate | contradiction].
Qed.

Lemma parseAndValidate_throws (cwd fname : string) (nedText : option string)
      (isXML : bool) (e : Exn) :
  parseAndValidateNedFileOrText W cwd fname nedText isXML = Throw e ->
  exists msg, e = NedException msg.
Proof.
  unfold parseAndValidateNedFileOrText.
  destruct (if isXML then _ else _) as [out|e0] eqn:P; simpl.
  2:{ destruct isXML, nedText; try discriminate; injection P as <-;
      intros H; injection H as <-; eauto. }
  destruct (containsError (parseErrors out)) eqn:E1.
  { destruct (@throwFirstError_kind ASTNode _ None E1) as [msg ->].
    intros H; injection H as <-; eauto. }
  destruct (containsError (parseErrors out ++ dtdValidate W (parsedTree out))) eqn:E2.
  { destruct (@throwFirstError_kind ASTNode _
                (Some "NED internal DTD validation failure: ") E2) as [msg ->].
    intros H; injection H as <-; eauto. }
  destruct (containsError ((parseErrors out ++ dtdValidate W (parsedTree out))
                           ++ syntaxValidate W (parsedTree out))) eqn:E3.
  { destruct (@throwFirstError_kind ASTNode _ None E3) as [msg ->].
    intros H; injection H as <-; eauto. }
  destruct (parsedTree out) as [tree|]; [|intros H; injection H as <-; eauto].
  destruct (tag_eqb _ _); [discriminate|]. intros H; injection H as <-; eauto.
Qed.

(** When the expected package is given, it is the declared one. *)
Definition packageAsExpected (expectedPackage : option string) (tree : ASTNode) : Prop :=
  expectedPackage = None \/ expectedPackage = Some (declaredPackageOf tree).

Lemma mismatch_false_iff (expectedPackage : option string) (tree : ASTNode) :
  match expectedPackage with
  | Some expected => negb (String.eqb (declaredPackageOf tree) expected)
  | None => false
  end = false <-> packageAsExpected expectedPackage tree.
Proof.
  unfold packageAsExpected. destruct expectedPackage as [e|]; [|tauto].
  rewrite negb_false_iff, String.eqb_eq. split.
  - intros ->. now right.
  - intros [H|H]; [discriminate | congruence].
Qed.

(** X12: a file load before finalization is all or nothing.  While
    [doneLoadingNedFiles] has not been called, [doLoadNedFileOrText] on a
    file name either returns with the cache untouched (the key was there),
    or returns with the parsed tree added under the key and nothing else
    changed (the key was new and the declared package as expected), or
    throws a [NedException] with the cache untouched. *)
Theorem load_before_done_all_or_nothing
        (cwd name : string) (nedText expectedPackage : option string) (isXML : bool)
        (c c' : Cache) (r : Res unit) :
  doneLoadingNedFilesCalled c = false ->
  doLoadNedFileOrText W cwd (Some name) nedText expectedPackage isXML c = (c', r) ->
  match r with
  | Throw e => c' = c /\ exists msg, e = NedException msg
  | Ok _ =>
      (c' = c /\ SMap.containsKey (nedFiles c) (fileKey W cwd name nedText) = true)
      \/ exists tree,
           parseAndValidateNedFileOrText W cwd (fileKey W cwd name nedText) nedText isXML
           = Ok tree
           /\ packageAsExpected expectedPackage tree
           /\ SMap.find (nedFiles c) (fileKey W cwd name nedText) = None
           /\ c' = with_nedFiles c
                     (SMap.set (nedFiles c) (fileKey W cwd name nedText) tree)
  end.
Proof.
  intros D. unfold doLoadNedFileOrText. fold (fileKey W cwd name nedText).
  rewrite D. simpl.
  destruct (SMap.containsKey (nedFiles c) _) eqn:K.
  { intros H. injection H as <- <-. now left. }
  destruct (parseAndValidateNedFileOrText W cwd _ nedText isXML) as [tree|e] eqn:P.
  2:{ intros H. injection H as <- <-. split; [reflexivity|].
      eapply parseAndValidate_throws; eauto. }
  destruct (match expectedPackage with Some _ => _ | None => _ end) eqn:M.
  { intros H. injection H as <- <-. split; [reflexivity | eauto]. }
  unfold addFile. rewrite K. simpl. rewrite D.
  intros H. injection H as <- <-. right. exists tree.
  split; [reflexivity|]. split; [now apply mismatch_false_iff|].
  split; [|reflexivity].
  unfold SMap.containsKey in K. now destruct (SMap.find _ _).
Qed.

(** X13: a file loaded after finalization has its types registered at once,
    and none is lost.  After [doneLoadingNedFiles], for a new key that is no
    package marker, a tree that parses and a package as expected, the load
    leaves the tree in the file index; every entry that was pending and
    every type the file declares is afterwards pending or registered, also
    when the registration throws; and when the load returns, the pending
    list is empty and all of them are registered. *)
Theorem late_load_registers
        (cwd name : string) (nedText expectedPackage : option string) (isXML : bool)
        (c : Cache) (tree : ASTNode) :
  doneLoadingNedFilesCalled c = true ->
  SMap.containsKey (nedFiles c) (fileKey W cwd name nedText) = false ->
  isPackageNedFile (fileKey W cwd name nedText) = false ->
  parseAndValidateNedFileOrText W cwd (fileKey W cwd name nedText) nedText isXML = Ok tree ->
  packageAsExpected expectedPackage tree ->
  let packagePrefix :=
    if opp_isempty (declaredPackageOf tree) then "" else declaredPackageOf tree +++ "." in
  let collected := collectNedTypesFrom tree [] packagePrefix false in
  exists c' r,
    doLoadNedFileOrText W cwd (Some name) nedText expectedPackage isXML c = (c', r)
    /\ SMap.find (nedFiles c') (fileKey W cwd name nedText) = Some tree
    /\ (forall p, In p (pendingList c ++ collected) ->
                  In p (pendingList c') \/ registered c' (pending_qname p))
    /\ (r = Ok tt ->
        pendingList c' = []
        /\ forall p, In p (pendingList c ++ collected) -> registered c' (pending_qname p)).
Proof.
  intros D K Hp P M packagePrefix collected.
  unfold doLoadNedFileOrText. fold (fileKey W cwd name nedText).
  rewrite K, D, Hp, P. simpl.
  rewrite (proj2 (mismatch_false_iff expectedPackage tree) M).
  unfold addFile. rewrite K. simpl. rewrite D.
  fold packagePrefix.
  destruct (registerPendingNedTypes W _) as [c' r] eqn:E.
  exists c', r. split; [reflexivity|].
  pose proof (registerPendingNedTypes_sameStore W _ _ _ E) as [Hf _].
  pose proof (registerPendingNedTypes_outcome W _ _ _ E) as [(_ & Hpend & _) Hok].
  simpl in Hf, Hpend.
  split; [rewrite Hf; apply find_set_same|].
  split; [exact Hpend|].
  intros ->. specialize (Hok eq_refl). split; [exact Hok|].
  intros p Hin. destruct (Hpend p Hin) as [H|H]; [|exact H].
  rewrite Hok in H. destruct H.
Qed.

End Outcomes.

Lemma load_before_done_all_or_nothing_witness :
  with_folderPackages emptyCache [("/r/bad", "")]
  = with_folderPackages emptyCache [("/r/bad", "")]
  /\ exists msg,
       NedException
         "Declared package 'zzz' does not match expected package '' in file M.ned"
       = NedException msg.
Proof.
  apply (load_before_done_all_or_nothing Sample.world "/r/bad" "M.ned" None (Some "")
           false (with_folderPackages emptyCache [("/r/bad", "")])
           (with_folderPackages emptyCache [("/r/bad", "")])
           (Throw (NedException
              "Declared package 'zzz' does not match expected package '' in file M.ned"))).
  - reflexivity.
  - reflexivity.
Defined.

Lemma late_load_registers_witness :
  exists c' r,
    doLoadNedFileOrText Sample.world "/" (Some "/r/bad/M.ned") None None false
                        Sample.finalized = (c', r)
    /\ SMap.find (nedFiles c') "/r/bad/M.ned"
       = Some (Sample.nedFile "/r/bad/M.ned"
                 [Sample.package "zzz"; Sample.element NED_SIMPLE_MODULE "M" []]).
Proof.
  destruct (late_load_registers Sample.world "/" "/r/bad/M.ned" None None false
              Sample.finalized
              (Sample.nedFile "/r/bad/M.ned"
                 [Sample.package "zzz"; Sample.element NED_SIMPLE_MODULE "M" []]))
    as (c' & r & H1 & H2 & _).
  - reflexivity.
  - reflexivity.
  - reflexivity.
  - reflexivity.
  - now left.
  - exists c', r. split; [exact H1 | exact H2].
Defined.

(** ** The file index through a folder load *)

(** The files that the walk of a folder hands to [doLoadNedFileOrText]: the
    canonical key of each, with the package expected of it. *)
Fixpoint visitedFiles (W : World) (cwd : string) (dir : FsEntry)
         (expectedPackage : option string) (excludedPackages : list string)
  : list (string * option string) :=
  match dir with
  | FsFile _ => []
  | FsDir folderName content =>
      if isExcluded expectedPackage excludedPackages then []
      else
        let cwd' := chdir W cwd folderName in
        List.concat
          (map (fun e =>
                  match e with
                  | FsDir filename _ =>
                      if startsWithDot filename then []
                      else visitedFiles W cwd' e
                             (option_map (fun p => opp_join "." p filename) expectedPackage)
                             excludedPackages
                  | FsFile filename =>
                      if startsWithDot filename then []
                      else if opp_stringendswith filename ".ned"
                           then [(canonicalize W cwd' filename, expectedPackage)]
                           else []
                  end) content)
  end.

Definition isOk {A} (r : Res A) : bool :=
  match r with Ok _ => true | Throw _ => false end.

(** From [c] to [c'] the file index kept what it had; what it gained are
    ned-file trees, each visited and in the package expected at a visit; and
    if all went well, every visited file is there. *)
Definition filesStep (c c' : Cache) (visited : list (string * option string))
           (ok : bool) : Prop :=
  (forall k t, SMap.find (nedFiles c) k = Some t -> SMap.find (nedFiles c') k = Some t)
  /\ (forall k t,
         SMap.find (nedFiles c') k = Some t ->
         SMap.find (nedFiles c) k = Some t
         \/ exists e, In (k, e) visited
                      /\ packageAsExpected e t /\ getTagCode t = NED_NED_FILE)
  /\ (ok = true ->
      forall k e, In (k, e) visited -> SMap.containsKey (nedFiles c') k = true).

Arguments filesStep : simpl never.

Lemma filesStep_nothing (c : Cache) : filesStep c c [] true.
Proof.
  split; [auto|]. split; [auto|]. intros _ k e [].
Qed.

Lemma filesStep_failed (c : Cache) (visited : list (string * option string)) :
  filesStep c c visited false.
Proof.
  split; [auto|]. split; [auto|]. discriminate.
Qed.

Lemma containsKey_kept (c c' : Cache) (k : string) :
  (forall k t, SMap.find (nedFiles c) k = Some t -> SMap.find (nedFiles c') k = Some t) ->
  SMap.containsKey (nedFiles c) k = true -> SMap.containsKey (nedFiles c') k = true.
Proof.
  unfold SMap.containsKey. intros H.
  destruct (SMap.find (nedFiles c) k) as [t|] eqn:F; [|discriminate].
  now rewrite (H k t F).
Qed.

Lemma filesStep_then (a b c : Cache) (v1 v2 : list (string * option string))
      (ok1 ok2 : bool) :
  filesStep a b v1 ok1 -> filesStep b c v2 ok2 ->
  filesStep a c (v1 ++ v2) (ok1 && ok2).
Proof.
  intros (K1 & N1 & A1) (K2 & N2 & A2). split; [auto|]. split.
  - intros k t H. destruct (N2 k t H) as [Hb|(e & Hin & Hp)].
    + destruct (N1 k t Hb) as [Ha|(e & Hin & Hp)]; [now left|].
      right. exists e. split; [apply in_or_app; now left | exact Hp].
    + right. exists e. split; [apply in_or_app; now right | exact Hp].
  - intros Hok k e Hin. apply andb_true_iff in Hok. destruct Hok as [H1 H2].
    apply in_app_or in Hin. destruct Hin as [Hin|Hin].
    + eapply containsKey_kept; [exact K2|]. eapply A1; eauto.
    + eapply A2; eauto.
Qed.

Lemma filesStep_ok_weaken (a b : Cache) (v : list (string * option string)) :
  filesStep a b v true -> forall ok, filesStep a b v ok.
Proof.
  intros (K & N & A) ok. split; [exact K|]. split; [exact N|]. intros _. now apply A.
Qed.

Lemma filesStep_fail_extend (a b : Cache) (v w : list (string * option string))
      (ok : bool) :
  filesStep a b v ok -> filesStep a b (v ++ w) false.
Proof.
  intros (K & N & _). split; [exact K|]. split; [|discriminate].
  intros k t H. destruct (N k t H) as [Ha|(e & Hin & Hp)]; [now left|].
  right. exists e. split; [apply in_or_app; now left | exact Hp].
Qed.

Section FileIndex.

Variable W : World.

Lemma parseAndValidate_ok_tag (cwd fname : string) (nedText : option string)
      (isXML : bool) (tree : ASTNode) :
  parseAndValidateNedFileOrText W cwd fname nedText isXML = Ok tree ->
  getTagCode tree = NED_NED_FILE.
Proof.
  unfold parseAndValidateNedFileOrText.
  destruct (if isXML then _ else _) as [out|e0]; simpl; [|discriminate].
  destruct (containsError (parseErrors out)).
  { unfold throwFirstError. destruct (getFirstError _ _); discriminate. }
  destruct (containsError (parseErrors out ++ _)).
  { unfold throwFirstError. destruct (getFirstError _ _); discriminate. }
  destruct (containsError ((parseErrors out ++ _) ++ _)).
  { unfold throwFirstError. destruct (getFirstError _ _); discriminate. }
  destruct (parsedTree out) as [t|]; [|discriminate].
  destruct (tag_eqb (getTagCode t) NED_NED_FILE) eqn:G; [|discriminate].
  intros H. injection H as <-.
  unfold tag_eqb in G. now destruct (TagCode_eq_dec (getTagCode t) NED_NED_FILE).
Qed.

Lemma doLoadNedFileOrText_filesStep
      (cwd name : string) (nedText expectedPackage : option string) (isXML : bool)
      (c : Cache) :
  filesStep c (fst (doLoadNedFileOrText W cwd (Some name) nedText expectedPackage isXML c))
            [(fileKey W cwd name nedText, expectedPackage)]
            (isOk (snd (doLoadNedFileOrText W cwd (Some name) nedText expectedPackage
                                            isXML c))).
Proof.
  pose proof (doLoadNedFileOrText_key W cwd name nedText expectedPackage isXML c) as Key.
  unfold doLoadNedFileOrText in *. fold (fileKey W cwd name nedText) in *.
  destruct (SMap.containsKey (nedFiles c) _) eqn:K.
  { simpl. split; [auto|]. split; [auto|]. intros _ k e [H|[]]. now injection H as <- _. }
  destruct (doneLoadingNedFilesCalled c && isPackageNedFile _);
    [apply filesStep_failed|].
  destruct (parseAndValidateNedFileOrText W cwd _ nedText isXML) as [tree|e] eqn:P;
    [|apply filesStep_failed].
  destruct (match expectedPackage with Some _ => _ | None => _ end) eqn:M;
    [apply filesStep_failed|].
  apply mismatch_false_iff in M. apply parseAndValidate_ok_tag in P.
  unfold addFile in *. rewrite K in *. simpl in *.
  assert (Hnone : SMap.find (nedFiles c) (fileKey W cwd name nedText) = None).
  { unfold SMap.containsKey in K. now destruct (SMap.find _ _). }
  assert (Hset : filesStep c
                   (with_nedFiles c (SMap.set (nedFiles c) (fileKey W cwd name nedText) tree))
                   [(fileKey W cwd name nedText, expectedPackage)] true).
  { split; [|split].
    - intros k t H. simpl. rewrite find_set_other; [exact H|]. congruence.
    - intros k t H. simpl in H.
      destruct (String.eqb_spec k (fileKey W cwd name nedText)) as [->|Hne].
      + rewrite find_set_same in H. injection H as <-. right.
        exists expectedPackage. split; [now left | auto].
      + rewrite find_set_other in H by exact Hne. now left.
    - intros _ k e [H|[]]. injection H as <- _. simpl.
      unfold SMap.containsKey. now rewrite find_set_same. }
  destruct (doneLoadingNedFilesCalled c); [|exact Hset].
  destruct (registerPendingNedTypes W _) as [c' r] eqn:E. simpl.
  apply registerPendingNedTypes_sameStore in E. destruct E as [E _]. simpl in E.
  destruct Hset as (H1 & H2 & H3).
  split; [|split].
  - intros k t H. rewrite E. now apply H1.
  - intros k t H. rewrite E in H. now apply H2.
  - intros _ k e Hin. rewrite E. exact (H3 eq_refl k e Hin).
Qed.

Lemma loadEntries_filesStep recur cwd expectedPackage excluded (l : list FsEntry) :
  Forall (fun e => forall pkg c,
              filesStep c (fst (recur e pkg c)) (visitedFiles W cwd e pkg excluded)
                        (isOk (snd (recur e pkg c)))) l ->
  forall c count,
    filesStep c (fst (loadEntries W recur cwd expectedPackage l c count))
      (List.concat
         (map (fun e =>
                 match e with
                 | FsDir filename _ =>
                     if startsWithDot filename then []
                     else visitedFiles W cwd e
                            (option_map (fun p => opp_join "." p filename) expectedPackage)
                            excluded
                 | FsFile filename =>
                     if startsWithDot filename then []
                     else if opp_stringendswith filename ".ned"
                          then [(canonicalize W cwd filename, expectedPackage)]
                          else []
                 end) l))
      (isOk (snd (loadEntries W recur cwd expectedPackage l c count))).
Proof.
  induction 1 as [|e rest He _ IH]; intros c count; [apply filesStep_nothing|].
  cbn [loadEntries map List.concat].
  destruct e as [filename|filename content].
  - destruct (startsWithDot filename); [apply IH|].
    destruct (opp_stringendswith filename ".ned"); [|apply IH].
    pose proof (doLoadNedFileOrText_filesStep cwd filename None expectedPackage false c)
      as F.
    destruct (doLoadNedFileOrText W cwd _ _ _ _ c) as [c1 [u|ex]];
      cbn [fst snd isOk] in *.
    + apply (filesStep_then _ _ _ _ _ true _ F). apply IH.
    + exact (filesStep_fail_extend _ _ _ _ false F).
  - destruct (startsWithDot filename); [apply IH|].
    specialize (He (option_map (fun p => opp_join "." p filename) expectedPackage) c).
    destruct (recur _ _ c) as [c1 [n|ex]]; cbn [fst snd isOk] in *.
    + apply (filesStep_then _ _ _ _ _ true _ He). apply IH.
    + exact (filesStep_fail_extend _ _ _ _ false He).
Qed.

Lemma doLoadNedSourceFolder_filesStep (dir : FsEntry) :
  forall cwd expectedPackage excluded c,
    filesStep c (fst (doLoadNedSourceFolder W cwd dir expectedPackage excluded c))
              (visitedFiles W cwd dir expectedPackage excluded)
              (isOk (snd (doLoadNedSourceFolder W cwd dir expectedPackage excluded c))).
Proof.
  induction dir as [filename|filename content IH] using FsEntry_induction;
    intros cwd expectedPackage excluded c; simpl.
  { destruct (isExcluded expectedPackage excluded); [apply filesStep_nothing|].
    destruct (pushDirError W cwd filename); [apply filesStep_failed|].
    apply filesStep_nothing. }
  destruct (isExcluded expectedPackage excluded); [apply filesStep_nothing|].
  destruct (pushDirError W cwd filename); [apply filesStep_failed|].
  apply loadEntries_filesStep.
  eapply Forall_impl; [|exact IH]. intros e He pkg c0. apply He.
Qed.

Lemma visitedFiles_count (dir : FsEntry) :
  forall cwd expectedPackage excluded,
    List.length (visitedFiles W cwd dir expectedPackage excluded)
    = countNedFiles dir expectedPackage excluded.
Proof.
  induction dir as [filename|filename content IH] using FsEntry_induction;
    intros cwd expectedPackage excluded; [reflexivity|].
  cbn [visitedFiles countNedFiles].
  destruct (isExcluded expectedPackage excluded); [reflexivity|].
  induction IH as [|e rest He _ IHrest]; [reflexivity|].
  cbn [map List.concat list_sum fold_right]. rewrite length_app, IHrest. f_equal.
  destruct e as [name|name sub]; destruct (startsWithDot name); try reflexivity.
  - now destruct (opp_stringendswith name ".ned").
  - apply He.
Qed.

(** C7: the count that [loadNedSourceFolder] returns.  When the call returns,
    the root package has been determined and the count is that of the
    specification for the folder under that package and the parsed set of
    excluded packages: an excluded sub-tree counts for nothing, every
    [.ned] file the walk visits elsewhere counts for one (also when it had
    been loaded before).  It is the number of files the walk handed to
    [doLoadNedFileOrText], and each of them is in the file index of the cache
    the call leaves; the files the index has gained are ned-file trees among
    them, of the package expected where they were found. *)
Theorem loadNedSourceFolder_count
        (cwd folderName : string) (excludedPackagesStr : option string)
        (c c' : Cache) (n : nat) :
  loadNedSourceFolder W cwd folderName excludedPackagesStr c = (c', Ok n) ->
  exists rootPackageName,
    determineRootPackageName W cwd folderName = Ok rootPackageName
    /\ n = countNedFiles (FsDir folderName (folderContent W cwd folderName))
                         (Some rootPackageName)
                         (Excluded.parse excludedPackagesStr)
    /\ let visited :=
         visitedFiles W cwd (FsDir folderName (folderContent W cwd folderName))
                      (Some rootPackageName) (Excluded.parse excludedPackagesStr) in
       n = List.length visited
       /\ (forall k e, In (k, e) visited -> SMap.containsKey (nedFiles c') k = true)
       /\ (forall k t,
             SMap.find (nedFiles c') k = Some t ->
             SMap.find (nedFiles c) k = Some t
             \/ exists e, In (k, e) visited
                          /\ packageAsExpected e t /\ getTagCode t = NED_NED_FILE).
Proof.
  unfold loadNedSourceFolder.
  destruct (determineRootPackageName W cwd folderName) as [root|e]; [|discriminate].
  match goal with
  | |- context [doLoadNedSourceFolder W cwd ?d ?p ?x ?c1] =>
      pose proof (doLoadNedSourceFolder_filesStep d cwd p x c1) as F
  end.
  destruct (doLoadNedSourceFolder W cwd _ _ _ _) as [c1 [m|e]] eqn:E; [|discriminate].
  intros H. injection H as <- <-.
  exists root. split; [reflexivity|].
  apply doLoadNedSourceFolder_count in E.
  split; [exact E|]. cbn zeta. split; [now rewrite visitedFiles_count|].
  cbn [fst snd isOk] in F. destruct F as (_ & N & A).
  split; [now apply A | exact N].
Qed.

(** X14: the file index through [loadNedSourceFolder].  Whatever the
    outcome, the files that were in the index are still there with their
    trees, and every file the load has added is a ned-file tree that the walk
    visited and whose declared package is the one expected at that visit.
    When the load returns, every file the walk visited is in the index. *)
Theorem loadNedSourceFolder_file_index
        (cwd folderName : string) (excludedPackagesStr : option string)
        (c c' : Cache) (r : Res nat) (rootPackageName : string) :
  determineRootPackageName W cwd folderName = Ok rootPackageName ->
  loadNedSourceFolder W cwd folderName excludedPackagesStr c = (c', r) ->
  let visited :=
    visitedFiles W cwd (FsDir folderName (folderContent W cwd folderName))
                 (Some rootPackageName) (Excluded.parse excludedPackagesStr) in
  (forall k t, SMap.find (nedFiles c) k = Some t -> SMap.find (nedFiles c') k = Some t)
  /\ (forall k t,
         SMap.find (nedFiles c') k = Some t ->
         SMap.find (nedFiles c) k = Some t
         \/ exists e, In (k, e) visited
                      /\ packageAsExpected e t /\ getTagCode t = NED_NED_FILE)
  /\ (forall n, r = Ok n ->
      forall k e, In (k, e) visited -> SMap.containsKey (nedFiles c') k = true).
Proof.
  intros Hroot. unfold loadNedSourceFolder. rewrite Hroot.
  match goal with
  | |- context [doLoadNedSourceFolder W cwd ?d ?p ?x ?c1] =>
      pose proof (doLoadNedSourceFolder_filesStep d cwd p x c1) as F
  end.
  destruct (doLoadNedSourceFolder W cwd _ _ _ _) as [c1 [m|ex]]; simpl in F;
    intros H; injection H as <- <-; destruct F as (K & N & A);
    (split; [exact K|]); (split; [exact N|]); intros n Hn.
  - now apply A.
  - discriminate Hn.
Qed.

End FileIndex.

Lemma loadNedSourceFolder_count_witness :
  exists rootPackageName,
    determineRootPackageName Sample.world "/" "/r/pkg" = Ok rootPackageName
    /\ 4 = countNedFiles
             (FsDir "/r/pkg" (folderContent Sample.world "/" "/r/pkg"))
             (Some rootPackageName) (Excluded.parse (Some "pkg.skip"))
    /\ let visited :=
         visitedFiles Sample.world "/"
           (FsDir "/r/pkg" (folderContent Sample.world "/" "/r/pkg"))
           (Some rootPackageName) (Excluded.parse (Some "pkg.skip")) in
       4 = List.length visited
       /\ (forall k e, In (k, e) visited ->
                       SMap.containsKey (nedFiles Sample.loaded) k = true)
       /\ (forall k t,
             SMap.find (nedFiles Sample.loaded) k = Some t ->
             SMap.find (nedFiles emptyCache) k = Some t
             \/ exists e, In (k, e) visited
                          /\ packageAsExpected e t /\ getTagCode t = NED_NED_FILE).
Proof.
  apply (loadNedSourceFolder_count Sample.world "/" "/r/pkg" (Some "pkg.skip")
           emptyCache Sample.loaded 4).
  vm_compute. reflexivity.
Defined.

Lemma loadNedSourceFolder_file_index_witness :
  SMap.containsKey (nedFiles Sample.loaded) "/r/pkg/sub/C.ned" = true.
Proof.
  refine (proj2 (proj2 (loadNedSourceFolder_file_index Sample.world "/" "/r/pkg"
                          (Some "pkg.skip") emptyCache Sample.loaded (Ok 4) "pkg" _ _))
                4 _ "/r/pkg/sub/C.ned" (Some "pkg.sub") _).
  - reflexivity.
  - reflexivity.
  - reflexivity.
  - vm_compute. auto 10.
Defined.

(** ** Failures of a folder load before finalization *)

(** The failures of a folder load before finalization: a [NedException]
    of the loader, or the exception of [PushDir] on a folder that cannot be
    entered. *)
Definition loadFailure (e : Exn) : Prop :=
  (exists msg, e = NedException msg) \/ (exists msg, e = RuntimeError msg).

(** The flag is down and a failure, if any, is such a failure. *)
Definition quietStep {A} (c' : Cache) (r : Res A) : Prop :=
  doneLoadingNedFilesCalled c' = false
  /\ forall e, r = Throw e -> loadFailure e.

Section FolderFailures.

Variable W : World.

Lemma doLoadNedFileOrText_quiet
      (cwd name : string) (nedText expectedPackage : option string) (isXML : bool)
      (c : Cache) :
  doneLoadingNedFilesCalled c = false ->
  quietStep (fst (doLoadNedFileOrText W cwd (Some name) nedText expectedPackage isXML c))
            (snd (doLoadNedFileOrText W cwd (Some name) nedText expectedPackage isXML c)).
Proof.
  intros D. unfold doLoadNedFileOrText. rewrite D. simpl.
  destruct (SMap.containsKey (nedFiles c) _) eqn:K.
  { split; [exact D | discriminate]. }
  destruct (parseAndValidateNedFileOrText W cwd _ nedText isXML) as [tree|e] eqn:P.
  2:{ split; [exact D|]. intros e0 H. injection H as <-. left.
      eapply parseAndValidate_throws; eauto. }
  destruct (match expectedPackage with Some _ => _ | None => _ end).
  { split; [exact D|]. intros e0 H. injection H as <-. left. eauto. }
  unfold addFile. rewrite K. simpl. rewrite D.
  split; [exact D | discriminate].
Qed.

Lemma loadEntries_quiet recur cwd expectedPackage (l : list FsEntry) :
  Forall (fun e => forall pkg c,
              doneLoadingNedFilesCalled c = false ->
              quietStep (fst (recur e pkg c)) (snd (recur e pkg c))) l ->
  forall c count,
    doneLoadingNedFilesCalled c = false ->
    quietStep (fst (loadEntries W recur cwd expectedPackage l c count))
              (snd (loadEntries W recur cwd expectedPackage l c count)).
Proof.
  induction 1 as [|e rest He _ IH]; intros c count D.
  { split; [exact D | discriminate]. }
  cbn [loadEntries].
  destruct e as [filename|filename content].
  - destruct (startsWithDot filename); [now apply IH|].
    destruct (opp_stringendswith filename ".ned"); [|now apply IH].
    pose proof (doLoadNedFileOrText_quiet cwd filename None expectedPackage false c D) as F.
    destruct (doLoadNedFileOrText W cwd _ _ _ _ c) as [c1 [u|ex]]; cbn [fst snd] in *.
    + apply IH. apply F.
    + destruct F as [F1 F2]. split; [exact F1|].
      intros e0 H. injection H as <-. exact (F2 ex eq_refl).
  - destruct (startsWithDot filename); [now apply IH|].
    specialize (He (option_map (fun p => opp_join "." p filename) expectedPackage) c D).
    destruct (recur _ _ c) as [c1 [n|ex]]; cbn [fst snd] in *.
    + apply IH. apply He.
    + exact He.
Qed.

Lemma doLoadNedSourceFolder_quiet (dir : FsEntry) :
  forall cwd expectedPackage excluded c,
    doneLoadingNedFilesCalled c = false ->
    quietStep (fst (doLoadNedSourceFolder W cwd dir expectedPackage excluded c))
              (snd (doLoadNedSourceFolder W cwd dir expectedPackage excluded c)).
Proof.
  induction dir as [filename|filename content IH] using FsEntry_induction;
    intros cwd expectedPackage excluded c D; simpl;
    (destruct (isExcluded expectedPackage excluded);
     [split; [exact D | discriminate]|]);
    (destruct (pushDirError W cwd filename) as [msg|];
     [split; [exact D|]; intros e H; injection H as <-; right; eauto|]).
  - split; [exact D | discriminate].
  - apply loadEntries_quiet; [|exact D].
    eapply Forall_impl; [|exact IH]. intros e He pkg c0. apply He.
Qed.

Lemma determineRootPackageName_throws (cwd folderName : string) (e : Exn) :
  determineRootPackageName W cwd folderName = Throw e -> exists msg, e = NedException msg.
Proof.
  unfold determineRootPackageName.
  destruct (negb (fileExists W cwd _)); [discriminate|].
  destruct (parseAndValidateNedFileOrText W cwd _ None false) as [tree|e0] eqn:P;
    simpl; [discriminate|].
  intros H. injection H as <-. eapply parseAndValidate_throws; eauto.
Qed.

Lemma rethrowForFolder_loadFailure (folderName : string) (e0 : Exn) :
  loadFailure e0 ->
  rethrowForFolder folderName e0
  = NedException ("Could not load NED sources from '" +++ folderName +++ "': " +++ what e0).
Proof. intros [[msg ->]|[msg ->]]; reflexivity. Qed.

(** X15: a folder load that fails before finalization.  While
    [doneLoadingNedFiles] has not been called, a failure of
    [loadNedSourceFolder] comes from one of two places: from reading the
    folder's own [package.ned], and then the cache is untouched, or from the
    walk started on the cache that holds the folder's mapping.  The failure
    inside is a [NedException], or the exception of [PushDir] on a folder
    that cannot be entered; what the call throws is the [NedException] with
    the message "Could not load NED sources from '<folder>': " followed by
    the message of that failure inside; the flag is still down afterwards.
    In particular, when the root package is determined and not excluded and
    the folder itself cannot be entered, the message ends with the message of
    [PushDir] and the cache has gained the mapping of the folder and nothing
    else. *)
Theorem loadNedSourceFolder_failure
        (cwd folderName : string) (excludedPackagesStr : option string)
        (c c' : Cache) (e : Exn) :
  doneLoadingNedFilesCalled c = false ->
  loadNedSourceFolder W cwd folderName excludedPackagesStr c = (c', Throw e) ->
  doneLoadingNedFilesCalled c' = false
  /\ (exists e0,
        ((determineRootPackageName W cwd folderName = Throw e0 /\ c' = c)
         \/ (exists rootPackageName,
               determineRootPackageName W cwd folderName = Ok rootPackageName
               /\ doLoadNedSourceFolder W cwd
                    (FsDir folderName (folderContent W cwd folderName))
                    (Some rootPackageName) (Excluded.parse excludedPackagesStr)
                    (with_folderPackages c
                       (SMap.set (folderPackages c) (canonicalize W cwd folderName)
                                 rootPackageName))
                  = (c', Throw e0)))
        /\ loadFailure e0
        /\ e = NedException ("Could not load NED sources from '" +++ folderName
                             +++ "': " +++ what e0))
  /\ (forall rootPackageName msg,
        determineRootPackageName W cwd folderName = Ok rootPackageName ->
        isExcluded (Some rootPackageName) (Excluded.parse excludedPackagesStr) = false ->
        pushDirError W cwd folderName = Some msg ->
        e = NedException ("Could not load NED sources from '" +++ folderName
                          +++ "': " +++ msg)
        /\ c' = with_folderPackages c
                  (SMap.set (folderPackages c) (canonicalize W cwd folderName)
                            rootPackageName)).
Proof.
  intros D. unfold loadNedSourceFolder.
  destruct (determineRootPackageName W cwd folderName) as [root|e0] eqn:R.
  - match goal with
    | |- context [doLoadNedSourceFolder W cwd ?d ?p ?x ?c1] =>
        pose proof (doLoadNedSourceFolder_quiet d cwd p x c1 D) as F
    end.
    destruct (doLoadNedSourceFolder W cwd _ _ _ _) as [c1 [n|ex]] eqn:L; [discriminate|].
    cbn [fst snd] in F. destruct F as [F1 F2].
    intros H. injection H as <- <-.
    split; [exact F1|]. split.
    + exists ex. split; [right; exists root; split; [reflexivity | exact L]|].
      split; [exact (F2 ex eq_refl)|].
      apply rethrowForFolder_loadFailure. exact (F2 ex eq_refl).
    + intros root' msg Hroot Hex Hpush. injection Hroot as <-.
      simpl in L. rewrite Hex, Hpush in L. injection L as <- <-. split; reflexivity.
  - intros H. injection H as <- <-. split; [exact D|]. split.
    + exists e0. split; [left; split; reflexivity|].
      destruct (determineRootPackageName_throws _ _ _ R) as [msg ->].
      split; [left; eauto | reflexivity].
    + intros root msg Hroot. discriminate.
Qed.

End FolderFailures.

Lemma loadNedSourceFolder_failure_witness :
  NedException "Could not load NED sources from '/locked': Cannot enter folder /locked"
  = NedException ("Could not load NED sources from '" +++ "/locked"
                  +++ "': " +++ "Cannot enter folder /locked")
  /\ fst (loadNedSourceFolder Sample.world "/" "/locked" None emptyCache)
     = with_folderPackages emptyCache
         (SMap.set (folderPackages emptyCache) (canonicalize Sample.world "/" "/locked") "").
Proof.
  refine (proj2 (proj2 (loadNedSourceFolder_failure Sample.world "/" "/locked" None emptyCache
            (fst (loadNedSourceFolder Sample.world "/" "/locked" None emptyCache))
            (NedException
               "Could not load NED sources from '/locked': Cannot enter folder /locked")
            _ _)) "" "Cannot enter folder /locked" _ _ _).
  - reflexivity.
  - vm_compute. reflexivity.
  - reflexivity.
  - reflexivity.
  - reflexivity.
Defined.

(** ** More on registration *)

Section MoreRegistration.

Variable W : World.

Lemma scanPending_idle (todo : list PendingNedType) :
  forall c kept again,
    (forall p, In p todo -> ready W c p = Ok false) ->
    memoFilled c (fst (scanPending W c kept todo again))
    /\ snd (scanPending W c kept todo again) = Ok again.
Proof.
  induction todo as [|type rest IH]; intros c kept again H.
  - simpl. split; [apply memoFilled_refl | reflexivity].
  - destruct (scanPending_step W c kept type rest again) as (c0 & M & E).
    rewrite E. clear E. rewrite (H type (or_introl eq_refl)).
    destruct (IH c0 (kept ++ [type]) again) as [M1 R1].
    { intros p Hp. rewrite (ready_memo W _ _ p M). apply H. now right. }
    split; [eapply memoFilled_trans; eauto | exact R1].
Qed.

(** X16: registration with nothing ready.  When no entry of the pending list
    has its dependencies resolved, [registerPendingNedTypes] writes nothing
    but the memo of [getTypeNames]: the cache it leaves is the one it was
    given, or that one after a call of [getTypeNames] (the resolver's loop
    over the names fills the memo), and it is the one it was given when the
    list is empty.  The call returns when the list is empty; with one entry
    left it throws "NED type '<qname>' could not be fully resolved due to a
    missing base type or interface", with more "The following NED types
    could not be fully resolved due to a missing base type or interface: "
    and the names.  So the call after a finalization that returned is a
    no-op, and the one after a failure for unresolved types fails in the
    same way until a file brings the missing type. *)
Theorem registerPendingNedTypes_idle (c : Cache) :
  (forall p, In p (pendingList c) -> ready W c p = Ok false) ->
  (fst (registerPendingNedTypes W c) = c
   \/ fst (registerPendingNedTypes W c) = fst (getTypeNames c))
  /\ (pendingList c = [] -> fst (registerPendingNedTypes W c) = c)
  /\ snd (registerPendingNedTypes W c)
     = match pendingList c with
       | [] => Ok tt
       | [p] =>
           Throw (NedException
                    ("NED type '" +++ pending_qname p +++
                     "' could not be fully resolved due to a missing base type or interface"))
       | pending =>
           Throw (NedException
                    ("The following NED types could not be fully resolved due to a missing base type or interface: "
                     +++ join_names (map pending_qname pending)))
       end.
Proof.
  intros H. unfold registerPendingNedTypes. cbn [registerLoop].
  destruct (scanPending_idle (pendingList c) c [] false H) as [M R].
  split; [|split].
  - destruct (scanPending W c [] (pendingList c) false) as [c1 r]. cbn [fst snd] in *.
    subst r. destruct (pendingList c1); exact M.
  - intros E. rewrite E. cbn [scanPending]. now rewrite E.
  - destruct (scanPending W c [] (pendingList c) false) as [c1 r]. cbn [fst snd] in *.
    subst r. rewrite (memoFilled_pending _ _ M).
    destruct (pendingList c) as [|p [|q l]]; reflexivity.
Qed.

Lemma scanPending_keeps_types (todo : list PendingNedType) :
  forall c kept again c' r,
    scanPending W c kept todo again = (c', r) ->
    forall q info, lookup c q = Some info -> lookup c' q = Some info.
Proof.
  induction todo as [|type rest IH]; intros c kept again c' r H q info L.
  - simpl in H. now injection H as <- _.
  - destruct (scanPending_step W c kept type rest again) as (c0 & M & E).
    rewrite E in H. clear E.
    assert (L0 : lookup c0 q = Some info) by now rewrite (memoFilled_lookup _ _ q M).
    destruct (ready W c type) as [[|]|e].
    + unfold registerChecked in H. destruct (lookup c (pending_qname type)) eqn:Lt.
      * now injection H as <- _.
      * eapply IH; [exact H|]. unfold lookup in *. simpl.
        rewrite find_set_other; [exact L|]. intros ->. congruence.
    + eapply IH; eauto.
    + now injection H as <- _.
Qed.

Lemma registerLoop_keeps_types (fuel : nat) :
  forall c c' r,
    registerLoop W fuel c = (c', r) ->
    forall q info, lookup c q = Some info -> lookup c' q = Some info.
Proof.
  induction fuel as [|fuel IH]; simpl; intros c c' r H q info L.
  - now injection H as <- _.
  - destruct (scanPending W c [] (pendingList c) false) as [c1 [[|]|e]] eqn:E;
      pose proof (scanPending_keeps_types _ _ _ _ _ _ E q info L) as L1.
    + eapply IH; eauto.
    + now injection H as <- _.
    + now injection H as <- _.
Qed.

(** X17: a registered type is never replaced.  Through
    [registerPendingNedTypes], whatever its outcome, every name of the type
    index keeps the type info it had: the redeclaration check stands before
    every write, so a later declaration of the same name never takes the
    place of the first. *)
Theorem registerPendingNedTypes_keeps_types
        (c c' : Cache) (r : Res unit) (q : string) (info : NedTypeInfo) :
  registerPendingNedTypes W c = (c', r) ->
  lookup c q = Some info ->
  lookup c' q = Some info.
Proof.
  unfold registerPendingNedTypes.
  destruct (registerLoop W _ c) as [c1 [u|e]] eqn:E; intros H L;
    pose proof (registerLoop_keeps_types _ _ _ _ E q info L) as L1.
  - destruct (pendingList c1); now injection H as <- _.
  - now injection H as <- _.
Qed.

End MoreRegistration.

Lemma registerPendingNedTypes_idle_witness :
  (fst (registerPendingNedTypes Sample.world Sample.waiting) = Sample.waiting
   \/ fst (registerPendingNedTypes Sample.world Sample.waiting)
      = fst (getTypeNames Sample.waiting))
  /\ snd (registerPendingNedTypes Sample.world Sample.waiting)
     = Throw (NedException
                "NED type 'pkg.Late' could not be fully resolved due to a missing base type or interface").
Proof.
  assert (H : forall p, In p (pendingList Sample.waiting) ->
                        ready Sample.world Sample.waiting p = Ok false).
  { intros p Hp. vm_compute in Hp. destruct Hp as [<-|[]]. vm_compute. reflexivity. }
  destruct (registerPendingNedTypes_idle Sample.world Sample.waiting H) as (H1 & _ & H2).
  split; [exact H1|]. rewrite H2. vm_compute. reflexivity.
Defined.

Lemma registerPendingNedTypes_keeps_types_witness :
  lookup (fst (registerPendingNedTypes Sample.world Sample.again)) "pkg.B"
  = lookup Sample.again "pkg.B"
  /\ snd (registerPendingNedTypes Sample.world Sample.again)
     = Throw (NedException "Redeclaration of simple-module pkg.B")
  /\ registered (fst (registerPendingNedTypes Sample.world Sample.again)) "pkg.New".
Proof.
  split; [|split; [vm_compute; reflexivity | vm_compute; discriminate]].
  destruct (lookup Sample.again "pkg.B") as [info|] eqn:L; [|vm_compute in L; discriminate L].
  apply (registerPendingNedTypes_keeps_types Sample.world Sample.again
           (fst (registerPendingNedTypes Sample.world Sample.again))
           (snd (registerPendingNedTypes Sample.world Sample.again)) "pkg.B" info).
  - apply surjective_pairing.
  - exact L.
Defined.

(** ** The package files collected at finalization *)

(** The [package.ned] files among the loaded files, in the order of the file
    map. *)
Definition markerFiles (files : list (string * ASTNode)) : list ASTNode :=
  filter (fun nedFile => isPackageNedFile (getFilename nedFile)) (map snd files).

(** No package has a marker yet, and no two marker files declare the same
    package. *)
Definition markersDistinct (files : list (string * ASTNode)) (c : Cache) : Prop :=
  NoDup (map declaredPackageOf (markerFiles files))
  /\ (forall nedFile, In nedFile (markerFiles files) ->
        SMap.find (packageDotNedFiles c) (declaredPackageOf nedFile) = None).

Lemma markerFiles_cons (k : string) (nedFile : ASTNode) (rest : list (string * ASTNode)) :
  markerFiles ((k, nedFile) :: rest)
  = if isPackageNedFile (getFilename nedFile)
    then nedFile :: markerFiles rest else markerFiles rest.
Proof. reflexivity. Qed.

Lemma collectPackageNedFiles_pending (files : list (string * ASTNode)) :
  forall c, pendingList (fst (collectPackageNedFiles files c)) = pendingList c.
Proof.
  induction files as [|[k nedFile] rest IH]; simpl; intros c; [reflexivity|].
  destruct (isPackageNedFile _); [|apply IH].
  destruct (SMap.find _ _); [reflexivity|]. now rewrite IH.
Qed.

Lemma collectPackageNedFiles_ok (files : list (string * ASTNode)) :
  forall c c',
    collectPackageNedFiles files c = (c', Ok tt) ->
    markersDistinct files c
    /\ (forall pkg nedFile,
          SMap.find (packageDotNedFiles c') pkg = Some nedFile <->
          SMap.find (packageDotNedFiles c) pkg = Some nedFile
          \/ (In nedFile (markerFiles files) /\ declaredPackageOf nedFile = pkg)).
Proof.
  induction files as [|[k nedFile] rest IH]; intros c c' H.
  - simpl in H. injection H as <-. split.
    + split; [constructor | intros ? []].
    + intros pkg f. split; [now left | intros [F|[[] _]]; exact F].
  - cbn [collectPackageNedFiles] in H. rewrite markerFiles_cons.
    unfold markersDistinct. rewrite markerFiles_cons.
    destruct (isPackageNedFile (getFilename nedFile)); [|now apply IH].
    destruct (SMap.find (packageDotNedFiles c) (declaredPackageOf nedFile)) eqn:F;
      [discriminate|].
    apply IH in H. destruct H as [[ND Hnone] Hfind]. simpl in Hnone.
    assert (Hfresh : ~ In (declaredPackageOf nedFile)
                          (map declaredPackageOf (markerFiles rest))).
    { intros Hin. apply in_map_iff in Hin. destruct Hin as (g & Hg & Hin).
      specialize (Hnone g Hin). rewrite Hg, find_set_same in Hnone. discriminate. }
    split; [split|].
    + simpl. now constructor.
    + intros g [<-|Hin]; [exact F|].
      specialize (Hnone g Hin).
      rewrite find_set_other in Hnone; [exact Hnone|].
      intros E. apply Hfresh. rewrite <- E. now apply in_map.
    + intros pkg f. rewrite Hfind. simpl.
      destruct (String.eqb_spec pkg (declaredPackageOf nedFile)) as [->|Hne].
      * rewrite find_set_same, F. split.
        -- intros [E|[Hin E]]; [injection E as <-; right; auto|].
           right. auto.
        -- intros [E|[[<-|Hin] E]]; [discriminate | now left | right; auto].
      * rewrite find_set_other by exact Hne. split.
        -- intros [E|[Hin E]]; [now left | right; auto].
        -- intros [E|[[<-|Hin] E]]; [now left | congruence | right; auto].
Qed.

Lemma collectPackageNedFiles_throw (files : list (string * ASTNode)) :
  forall c c' e,
    collectPackageNedFiles files c = (c', Throw e) ->
    ~ markersDistinct files c
    /\ exists pkg one other,
         In one (markerFiles files)
         /\ declaredPackageOf one = pkg
         /\ SMap.find (packageDotNedFiles c') pkg = Some other
         /\ e = NedException
                  ("More than one package.ned file for package '" +++ pkg
                   +++ "'" +++ (if opp_isempty pkg then " (the default package)" else "")
                   +++ ": '" +++ getFilename one +++ "' and '"
                   +++ getFilename other +++ "'").
Proof.
  induction files as [|[k nedFile] rest IH]; intros c c' e H; [discriminate|].
  cbn [collectPackageNedFiles] in H. unfold markersDistinct. rewrite markerFiles_cons.
  destruct (isPackageNedFile (getFilename nedFile)); [|now apply IH].
  destruct (SMap.find (packageDotNedFiles c) (declaredPackageOf nedFile)) as [other|] eqn:F.
  - injection H as <- <-. split.
    + intros [_ Hnone]. specialize (Hnone nedFile (or_introl eq_refl)). congruence.
    + exists (declaredPackageOf nedFile), nedFile, other.
      repeat split; auto. now left.
  - apply IH in H. destruct H as [Hnot (pkg & one & other & Hin & Hp & Hf & He)]. split.
    + intros [ND Hnone]. apply Hnot. split.
      * simpl in ND. now inversion ND.
      * intros g Hin'. simpl.
        assert (Hne : declaredPackageOf g <> declaredPackageOf nedFile).
        { intros E. simpl in ND. inversion ND as [|x l Hx _]; subst.
          apply Hx. rewrite <- E. now apply in_map. }
        rewrite find_set_other by exact Hne. apply Hnone. now right.
    + exists pkg, one, other. repeat split; auto. now right.
Qed.

Section MarkerFiles.

Variable W : World.

Lemma collectFromFiles_markers (files : list (string * ASTNode)) :
  forall c, packageDotNedFiles (collectFromFiles files c) = packageDotNedFiles c.
Proof.
  induction files as [|[k nedFile] rest IH]; simpl; intros c; [reflexivity|].
  now rewrite IH.
Qed.

(** X18: one marker file for a package.  On a cache that has not been
    finalized (so with no package file collected yet): when the
    [package.ned] files among the loaded files declare pairwise different
    packages, [doneLoadingNedFiles] leaves a marker index that maps a package
    to a file exactly when that file is a loaded [package.ned] file declaring
    the package, whatever the registration that follows does.  When two of
    them declare the same package, it throws the exception that names the
    package and both files, and stops before any type is collected: the
    pending list and the type index are as before. *)
Theorem doneLoadingNedFiles_markers (c c' : Cache) (r : Res unit) :
  doneLoadingNedFilesCalled c = false ->
  packageDotNedFiles c = [] ->
  doneLoadingNedFiles W c = (c', r) ->
  (NoDup (map declaredPackageOf (markerFiles (nedFiles c))) ->
   forall pkg nedFile,
     SMap.find (packageDotNedFiles c') pkg = Some nedFile <->
     In nedFile (markerFiles (nedFiles c)) /\ declaredPackageOf nedFile = pkg)
  /\ (~ NoDup (map declaredPackageOf (markerFiles (nedFiles c))) ->
      (exists pkg one other,
         In one (markerFiles (nedFiles c))
         /\ In other (markerFiles (nedFiles c))
         /\ declaredPackageOf one = pkg
         /\ declaredPackageOf other = pkg
         /\ r = Throw (NedException
                  ("More than one package.ned file for package '" +++ pkg
                   +++ "'" +++ (if opp_isempty pkg then " (the default package)" else "")
                   +++ ": '" +++ getFilename one +++ "' and '"
                   +++ getFilename other +++ "'")))
      /\ pendingList c' = pendingList c
      /\ nedTypes c' = nedTypes c).
Proof.
  intros Hdone Hempty H. unfold doneLoadingNedFiles in H. rewrite Hdone in H.
  change (nedFiles (with_done c true)) with (nedFiles c) in H.
  destruct (collectPackageNedFiles (nedFiles c) (with_done c true)) as [c1 [[]|e]] eqn:E.
  - pose proof (collectPackageNedFiles_ok _ _ _ E) as [[ND _] Hfind].
    apply registerPendingNedTypes_sameFlags in H. destruct H as [_ Hp].
    rewrite collectFromFiles_markers in Hp. split; [|contradiction].
    intros _ pkg f. rewrite Hp, Hfind. simpl. rewrite Hempty. simpl.
    split; [intros [F|F]; [discriminate | exact F] | now right].
  - injection H as <- <-.
    pose proof (collectPackageNedFiles_pending (nedFiles c) (with_done c true)) as Hpend.
    pose proof (collectPackageNedFiles_sameTypes (nedFiles c) (with_done c true)) as [Ht _].
    rewrite E in Hpend, Ht. simpl in Hpend, Ht.
    pose proof (collectPackageNedFiles_throw _ _ _ _ E)
      as [Hnot (pkg & one & other & Hin & Hp & Hf & He)].
    split.
    + intros ND. exfalso. apply Hnot. split; [exact ND|].
      intros g _. simpl. now rewrite Hempty.
    + intros _. split; [|split; [exact Hpend | exact Ht]].
      exists pkg, one, other.
      (* the file found in the index was put there by the loop *)
      assert (Hother : In other (markerFiles (nedFiles c)) /\ declaredPackageOf other = pkg).
      { clear He Hnot Hpend Ht Hin Hp.
        assert (G : forall files c0 c1 e,
                   collectPackageNedFiles files c0 = (c1, Throw e) ->
                   forall pkg other,
                     SMap.find (packageDotNedFiles c1) pkg = Some other ->
                     SMap.find (packageDotNedFiles c0) pkg = Some other
                     \/ (In other (markerFiles files) /\ declaredPackageOf other = pkg)).
        { clear. induction files as [|[k f] rest IH]; intros c0 c1 e H pkg other F;
            [discriminate|].
          cbn [collectPackageNedFiles] in H. rewrite markerFiles_cons.
          destruct (isPackageNedFile (getFilename f)); [|now apply (IH _ _ _ H)].
          destruct (SMap.find (packageDotNedFiles c0) (declaredPackageOf f)) eqn:F0.
          - injection H as <- _. now left.
          - destruct (IH _ _ _ H pkg other F) as [F1|[Hin Hp]].
            + simpl in F1.
              destruct (String.eqb_spec pkg (declaredPackageOf f)) as [->|Hne].
              * rewrite find_set_same in F1. injection F1 as <-. right. split; auto.
                now left.
              * rewrite find_set_other in F1 by exact Hne. now left.
            + right. split; auto. now right. }
        destruct (G _ _ _ _ E pkg other Hf) as [F0|F0]; [|exact F0].
        simpl in F0. rewrite Hempty in F0. discriminate. }
      destruct Hother as [Ho1 Ho2]. repeat split; auto. now rewrite He.
Qed.

End MarkerFiles.

Lemma doneLoadingNedFiles_markers_witness :
  SMap.find (packageDotNedFiles Sample.finalized) "pkg"
  = Some (Sample.nedFile "/r/pkg/package.ned" [Sample.package "pkg"]).
Proof.
  assert (ND : NoDup (map declaredPackageOf (markerFiles (nedFiles Sample.loaded)))).
  { vm_compute. repeat constructor. intros []. }
  refine (proj2 (proj1 (doneLoadingNedFiles_markers Sample.world Sample.loaded
                          Sample.finalized
                          (snd (doneLoadingNedFiles Sample.world Sample.loaded)) _ _ _)
                       ND "pkg" _) _).
  - vm_compute; reflexivity.
  - vm_compute; reflexivity.
  - unfold Sample.finalized. apply surjective_pairing.
  - split; [vm_compute; auto | reflexivity].
Defined.

(** ** The package files seen from a package *)

(** The marker file of a package, as the list of zero or one file that a turn
    of the loop of [getPackageNedListForLookup] appends. *)
Definition markerOf (c : Cache) (package : string) : list ASTNode :=
  match SMap.find (packageDotNedFiles c) package with
  | Some nedFile => [nedFile]
  | None => []
  end.

(** [pkg] is [package] itself, the default package, or a prefix of [package]
    that ends before one of its dots. *)
Definition packageAbove (pkg package : string) : Prop :=
  pkg = package \/ pkg = "" \/ exists rest, package = pkg +++ "." +++ rest.

Lemma append_prefix_eq (a a' b b' : string) :
  a +++ b = a' +++ b' -> String.length a = String.length a' -> a = a'.
Proof.
  intros E L.
  rewrite <- (substring_0_append a b), <- (substring_0_append a' b'), E, L.
  reflexivity.
Qed.

Lemma getParentPackage_last (pkg name : string) :
  strchr name "." = false -> getParentPackage (pkg +++ "." +++ name) = pkg.
Proof.
  intros H. unfold getParentPackage. change (pkg +++ "." +++ name) with (pkg +++ String "." name).
  rewrite (rfind_append pkg name "." H). apply substring_0_append.
Qed.

Lemma getParentPackage_simple (name : string) :
  strchr name "." = false -> getParentPackage name = "".
Proof.
  intros H. unfold getParentPackage. apply rfind_None_iff in H. now rewrite H.
Qed.

Lemma getParentPackage_cases (package : string) :
  (strchr package "." = false /\ getParentPackage package = "")
  \/ (exists name, strchr name "." = false
                   /\ package = getParentPackage package +++ "." +++ name).
Proof.
  destruct (rfind package ".") as [i|] eqn:R.
  - right. destruct (rfind_split _ _ _ R) as (x & t & -> & Ht & _).
    exists t. split; [exact Ht|].
    change (x +++ String "." t) with (x +++ "." +++ t).
    now rewrite getParentPackage_last.
  - left. apply rfind_None_iff in R. split; [exact R|].
    now apply getParentPackage_simple.
Qed.

Lemma getParentPackage_shorter (package : string) :
  package <> "" -> String.length (getParentPackage package) < String.length package.
Proof.
  intros Hne. destruct (getParentPackage_cases package) as [[_ ->]|(name & _ & E)].
  - destruct package; [congruence | simpl; lia].
  - rewrite E at 2. rewrite length_append. simpl. lia.
Qed.

Lemma packageNedList_step (fuel : nat) (c : Cache) (package : string) :
  packageNedList fuel c package
  = if String.eqb package "" then markerOf c package
    else match fuel with
         | O => markerOf c package
         | S fuel' => markerOf c package ++ packageNedList fuel' c (getParentPackage package)
         end.
Proof. destruct fuel; reflexivity. Qed.

Lemma packageNedList_fuel (c : Cache) (fuel1 : nat) :
  forall fuel2 package,
    String.length package <= fuel1 -> String.length package <= fuel2 ->
    packageNedList fuel1 c package = packageNedList fuel2 c package.
Proof.
  induction fuel1 as [|fuel1 IH]; intros fuel2 package H1 H2.
  - destruct package; [|simpl in H1; lia]. now destruct fuel2.
  - rewrite (packageNedList_step (S fuel1)), (packageNedList_step fuel2).
    destruct (String.eqb_spec package "") as [->|Hne]; [reflexivity|].
    pose proof (getParentPackage_shorter package Hne) as Hs.
    destruct fuel2 as [|fuel2]; [destruct package; [congruence | simpl in H2; lia]|].
    f_equal. apply IH; lia.
Qed.

Lemma getPackageNedListForLookup_unfold (c : Cache) (package : string) :
  package <> "" ->
  getPackageNedListForLookup c package
  = markerOf c package ++ getPackageNedListForLookup c (getParentPackage package).
Proof.
  intros Hne. unfold getPackageNedListForLookup, strlen.
  pose proof (getParentPackage_shorter package Hne) as Hs.
  destruct (String.length package) as [|n] eqn:L; [lia|].
  rewrite packageNedList_step.
  destruct (String.eqb_spec package ""); [congruence|].
  f_equal. apply packageNedList_fuel; lia.
Qed.

Lemma last_dot_split (pkg rest x t : string) :
  pkg +++ "." +++ rest = x +++ "." +++ t ->
  strchr t "." = false ->
  x = pkg \/ exists rest', x = pkg +++ "." +++ rest'.
Proof.
  intros E Ht.
  assert (Rx : rfind (x +++ "." +++ t) "." = Some (String.length x))
    by exact (rfind_append x t "." Ht).
  destruct (rfind rest ".") as [j|] eqn:R.
  - right. destruct (rfind_split _ _ _ R) as (x' & t' & -> & Ht' & _).
    exists x'.
    assert (E' : (pkg +++ "." +++ x') +++ "." +++ t' = x +++ "." +++ t).
    { rewrite <- E. rewrite append_assoc. reflexivity. }
    assert (R' : rfind ((pkg +++ "." +++ x') +++ "." +++ t') "."
                 = Some (String.length (pkg +++ "." +++ x')))
      by exact (rfind_append _ t' "." Ht').
    rewrite E', Rx in R'. injection R' as L.
    symmetry. now apply (append_prefix_eq _ _ _ _ E').
  - left. apply rfind_None_iff in R.
    assert (R' : rfind (pkg +++ "." +++ rest) "." = Some (String.length pkg))
      by exact (rfind_append pkg rest "." R).
    rewrite E, Rx in R'. injection R' as L.
    symmetry. now apply (append_prefix_eq _ _ _ _ E).
Qed.

Lemma packageAbove_step (pkg package : string) :
  package <> "" ->
  packageAbove pkg package <->
  pkg = package \/ packageAbove pkg (getParentPackage package).
Proof.
  intros Hne. unfold packageAbove. split.
  - intros [H|[H|[rest H]]]; [now left | right; now right; left |].
    right. destruct (getParentPackage_cases package) as [[Hno _]|(name & Hname & E)].
    + rewrite H, strchr_append in Hno. simpl in Hno.
      rewrite orb_true_r in Hno. discriminate.
    + rewrite E in H. symmetry in H.
      destruct (last_dot_split _ _ _ _ H Hname) as [->|[rest' ->]].
      * now left.
      * right; right. now exists rest'.
  - intros [H|[H|[H|[rest H]]]]; [now left | | right; now left |].
    + destruct (getParentPackage_cases package) as [[_ E]|(name & _ & E)].
      * right; left. congruence.
      * right; right. exists name. now rewrite H.
    + destruct (getParentPackage_cases package) as [[_ E]|(name & _ & E)].
      * rewrite E in H. destruct pkg; discriminate.
      * right; right. exists (rest +++ "." +++ name).
        rewrite E, H. now rewrite !append_assoc.
Qed.

Lemma packageAbove_root (pkg : string) : packageAbove pkg "" <-> pkg = "".
Proof.
  unfold packageAbove. split; [|now left].
  intros [H|[H|[rest H]]]; auto. destruct pkg; discriminate.
Qed.

Lemma In_markerOf (c : Cache) (package : string) (nedFile : ASTNode) :
  In nedFile (markerOf c package)
  <-> SMap.find (packageDotNedFiles c) package = Some nedFile.
Proof.
  unfold markerOf. destruct (SMap.find _ _) as [f|]; simpl.
  - split; [intros [->|[]]; reflexivity | intros H; injection H as ->; now left].
  - split; [intros [] | discriminate].
Qed.

(** X19: the files that [getPackageNedListForLookup] returns.  The loop ends
    within as many turns as the name has characters (more fuel changes
    nothing), and a file is in the list for a package exactly when it is the
    marker file of the package itself, of the default package, or of a
    package whose name is the package's name cut before one of its dots. *)
Theorem getPackageNedListForLookup_members (c : Cache) (packageName : string) :
  (forall fuel, strlen packageName <= fuel ->
                packageNedList fuel c packageName
                = getPackageNedListForLookup c packageName)
  /\ (forall nedFile,
        In nedFile (getPackageNedListForLookup c packageName)
        <-> exists pkg, packageAbove pkg packageName
                        /\ SMap.find (packageDotNedFiles c) pkg = Some nedFile).
Proof.
  split.
  { intros fuel Hf. unfold getPackageNedListForLookup, strlen in *.
    apply packageNedList_fuel; lia. }
  intros nedFile.
  remember (String.length packageName) as n eqn:Hn.
  revert packageName Hn.
  induction n as [n IH] using lt_wf_ind. intros package Hn.
  destruct (String.eqb_spec package "") as [->|Hne].
  - change (getPackageNedListForLookup c "") with (markerOf c "").
    rewrite In_markerOf. split.
    + intros F. exists "". split; [now left | exact F].
    + intros (pkg & Ha & F). apply packageAbove_root in Ha. now subst.
  - rewrite (getPackageNedListForLookup_unfold c package Hne), in_app_iff, In_markerOf.
    pose proof (getParentPackage_shorter package Hne) as Hs.
    rewrite (IH (String.length (getParentPackage package)) ltac:(lia) _ eq_refl).
    split.
    + intros [F|(pkg & Ha & F)].
      * exists package. split; [now left | exact F].
      * exists pkg. split; [|exact F]. apply packageAbove_step; auto.
    + intros (pkg & Ha & F). apply packageAbove_step in Ha; [|exact Hne].
      destruct Ha as [->|Ha]; [now left | right; now exists pkg].
Qed.

(** X20: the order of the list.  For a package [pkg.name], [name] without a
    dot, the list is the package's own marker file followed by the list for
    [pkg]; for a package with a dot-free, non-empty name it is its own marker
    file followed by that of the default package.  So the files come from the
    package outwards, the one of the default package last. *)
Theorem getPackageNedListForLookup_order (c : Cache) (pkg name : string) :
  strchr name "." = false ->
  getPackageNedListForLookup c (pkg +++ "." +++ name)
  = markerOf c (pkg +++ "." +++ name) ++ getPackageNedListForLookup c pkg
  /\ (name <> "" ->
      getPackageNedListForLookup c name = markerOf c name ++ markerOf c "").
Proof.
  intros H. split.
  - rewrite getPackageNedListForLookup_unfold by (destruct pkg; discriminate).
    now rewrite getParentPackage_last.
  - intros Hne. rewrite getPackageNedListForLookup_unfold by exact Hne.
    now rewrite getParentPackage_simple.
Qed.

Lemma getPackageNedListForLookup_order_witness :
  getPackageNedListForLookup Sample.finalized "pkg.sub"
  = markerOf Sample.finalized "pkg.sub" ++ getPackageNedListForLookup Sample.finalized "pkg".
Proof.
  exact (proj1 (getPackageNedListForLookup_order Sample.finalized "pkg" "sub" eq_refl)).
Defined.

(** ** The folders of a path list *)

Lemma containsName_In (l : list string) (x : string) :
  containsName l x = true <-> In x l.
Proof.
  unfold containsName. rewrite existsb_exists. split.
  - intros (y & Hin & E). apply String.eqb_eq in E. now subst.
  - intros Hin. exists x. split; [exact Hin | apply String.eqb_refl].
Qed.

Lemma NoDup_snoc {A} (l : list A) (x : A) :
  NoDup l -> ~ In x l -> NoDup (l ++ [x]).
Proof.
  induction 1 as [|y l Hy ND IH]; simpl; intros Hx.
  - constructor; [intros [] | constructor].
  - constructor.
    + rewrite in_app_iff. simpl. intros [H|[H|[]]]; [contradiction|]. subst. auto.
    + apply IH. auto.
Qed.

Lemma Subseq_snoc_keep {A} (l1 l2 : list A) (x : A) :
  Subseq l1 l2 -> Subseq (l1 ++ [x]) (l2 ++ [x]).
Proof.
  induction 1; simpl; [repeat constructor | now constructor | now constructor].
Qed.

Lemma Subseq_snoc_drop {A} (l1 l2 : list A) (x : A) :
  Subseq l1 l2 -> Subseq l1 (l2 ++ [x]).
Proof.
  induction 1; simpl; [repeat constructor | now constructor | now constructor].
Qed.

Lemma resolvePathItems_spec (W : World) (dir : string) (items : list string) :
  forall result seen,
    NoDup result -> Subseq result seen ->
    NoDup (resolvePathItems W dir items result)
    /\ (forall x, In x (resolvePathItems W dir items result) <->
                  In x result
                  \/ exists item, In item items
                                  /\ x = canonicalize W dir item
                                  /\ fileExists W dir x = true)
    /\ Subseq (resolvePathItems W dir items result)
              (seen ++ map (canonicalize W dir) items).
Proof.
  induction items as [|item rest IH]; intros result seen ND Sub.
  - simpl. rewrite app_nil_r. repeat split; auto.
    intros [H|(item & [] & _)]. exact H.
  - cbn [resolvePathItems map].
    replace (seen ++ canonicalize W dir item :: map (canonicalize W dir) rest)
      with ((seen ++ [canonicalize W dir item]) ++ map (canonicalize W dir) rest)
      by (rewrite <- app_assoc; reflexivity).
    destruct (fileExists W dir (canonicalize W dir item)) eqn:Ex;
      [destruct (containsName result (canonicalize W dir item)) eqn:Hc|]; simpl.
    + apply containsName_In in Hc.
      destruct (IH result (seen ++ [canonicalize W dir item]) ND
                  (Subseq_snoc_drop _ _ _ Sub)) as (H1 & H2 & H3).
      repeat split; auto.
      * intros H. apply H2 in H. destruct H as [H|(i & Hi & E & F)]; [now left|].
        right. exists i. auto.
      * intros [H|(i & [<-|Hi] & E & F)]; apply H2.
        -- now left.
        -- left. now subst.
        -- right. exists i. auto.
    + assert (Hn : ~ In (canonicalize W dir item) result).
      { intros H. apply containsName_In in H. congruence. }
      destruct (IH (result ++ [canonicalize W dir item])
                  (seen ++ [canonicalize W dir item])
                  (NoDup_snoc _ _ ND Hn) (Subseq_snoc_keep _ _ _ Sub)) as (H1 & H2 & H3).
      repeat split; auto.
      * intros H. apply H2 in H. rewrite in_app_iff in H. simpl in H.
        destruct H as [[H|[H|[]]]|(i & Hi & E & F)]; [now left | | right; exists i; auto].
        right. exists item. subst. auto.
      * intros H. apply H2. rewrite in_app_iff. simpl.
        destruct H as [H|(i & [<-|Hi] & E & F)]; [now left; left | left; right; left; now subst |].
        right. exists i. auto.
    + destruct (IH result (seen ++ [canonicalize W dir item]) ND
                  (Subseq_snoc_drop _ _ _ Sub)) as (H1 & H2 & H3).
      repeat split; auto.
      * intros H. apply H2 in H. destruct H as [H|(i & Hi & E & F)]; [now left|].
        right. exists i. auto.
      * intros [H|(i & [<-|Hi] & E & F)]; apply H2.
        -- now left.
        -- subst. congruence.
        -- right. exists i. auto.
Qed.

(** X21: the folders that [resolvePath] returns.  When the folder of the
    call cannot be entered, the call ends with the exception of [PushDir].
    Otherwise it returns, and with [dir] the working directory set for the
    call, the result holds no folder twice; a folder is in it exactly when it
    is the canonical form of a token of the path list and exists; and the
    folders come in the order of the tokens. *)
Theorem resolvePath_folders (W : World) (cwd folder : string) (items : list string) :
  let dir := chdir W cwd folder in
  match pushDirError W cwd folder with
  | Some msg => resolvePath W cwd folder items = Throw (RuntimeError msg)
  | None =>
      exists result,
        resolvePath W cwd folder items = Ok result
        /\ NoDup result
        /\ (forall x, In x result <->
                      exists item, In item items
                                   /\ x = canonicalize W dir item
                                   /\ fileExists W dir x = true)
        /\ Subseq result (map (canonicalize W dir) items)
  end.
Proof.
  intros dir. unfold resolvePath. fold dir.
  destruct (pushDirError W cwd folder) as [msg|]; [reflexivity|].
  exists (resolvePathItems W dir items []). split; [reflexivity|].
  destruct (resolvePathItems_spec W dir items [] [] (NoDup_nil _) Subseq_nil)
    as (H1 & H2 & H3).
  repeat split; auto.
  - intros H. apply H2 in H. destruct H as [[]|H]. exact H.
  - intros H. apply H2. now right.
Qed.

(** ** What a finalization that returns has done *)

(** The package prefix that the second loop of [doneLoadingNedFiles] gives to
    the types of a file. *)
Definition packagePrefixOf (nedFile : ASTNode) : string :=
  match getFirstChildWithTag nedFile NED_PACKAGE with
  | Some packageDecl => getName packageDecl +++ "."
  | None => ""
  end.

Lemma collectPackageNedFiles_files (files : list (string * ASTNode)) :
  forall c, nedFiles (fst (collectPackageNedFiles files c)) = nedFiles c.
Proof.
  induction files as [|[k nedFile] rest IH]; simpl; intros c; [reflexivity|].
  destruct (isPackageNedFile _); [|apply IH].
  destruct (SMap.find _ _); [reflexivity|]. now rewrite IH.
Qed.

Lemma collectFromFiles_files (files : list (string * ASTNode)) :
  forall c, nedFiles (collectFromFiles files c) = nedFiles c.
Proof.
  induction files as [|[k nedFile] rest IH]; simpl; intros c; [reflexivity|].
  now rewrite IH.
Qed.

Lemma collectFromFiles_pending (files : list (string * ASTNode)) :
  forall c,
    pendingList (collectFromFiles files c)
    = pendingList c
      ++ flat_map (fun entry => collectNedTypesFrom (snd entry) []
                                  (packagePrefixOf (snd entry)) false) files.
Proof.
  induction files as [|[k nedFile] rest IH]; simpl; intros c.
  - now rewrite app_nil_r.
  - rewrite IH. unfold collectNedTypes. simpl. now rewrite <- app_assoc.
Qed.

Section Finalized.

Variable W : World.

(** X22: a finalization that returns has registered everything.  When
    [doneLoadingNedFiles] returns on a cache that was not finalized, the
    pending list is empty, the file index is as it was, and the type index
    has a type for every entry that was pending and for every type declared
    (at any depth) in any loaded file, under the package prefix of the file's
    package declaration; the types registered before are still there. *)
Theorem doneLoadingNedFiles_registers_all (c c' : Cache) :
  doneLoadingNedFilesCalled c = false ->
  doneLoadingNedFiles W c = (c', Ok tt) ->
  pendingList c' = []
  /\ nedFiles c' = nedFiles c
  /\ (forall q, registered c q -> registered c' q)
  /\ (forall p, In p (pendingList c) -> registered c' (pending_qname p))
  /\ (forall k nedFile p,
        In (k, nedFile) (nedFiles c) ->
        In p (collectNedTypesFrom nedFile [] (packagePrefixOf nedFile) false) ->
        registered c' (pending_qname p)).
Proof.
  intros Hdone H. unfold doneLoadingNedFiles in H. rewrite Hdone in H.
  change (nedFiles (with_done c true)) with (nedFiles c) in H.
  pose proof (collectPackageNedFiles_files (nedFiles c) (with_done c true)) as Hf1.
  pose proof (collectPackageNedFiles_pending (nedFiles c) (with_done c true)) as Hp1.
  pose proof (collectPackageNedFiles_sameTypes (nedFiles c) (with_done c true)) as [Ht1 _].
  destruct (collectPackageNedFiles (nedFiles c) (with_done c true)) as [c1 [[]|e]];
    [|discriminate].
  simpl in Hf1, Hp1, Ht1.
  pose proof (registerPendingNedTypes_sameStore W _ _ _ H) as [Hf _].
  pose proof (registerPendingNedTypes_outcome W _ _ _ H) as [(Hreg & Hpend & _) Hok].
  specialize (Hok eq_refl).
  rewrite collectFromFiles_files, Hf1 in Hf.
  rewrite collectFromFiles_pending, Hp1, Hf1 in Hpend.
  assert (Hall : forall p,
             In p (pendingList c
                   ++ flat_map (fun entry => collectNedTypesFrom (snd entry) []
                                               (packagePrefixOf (snd entry)) false)
                        (nedFiles c)) ->
             registered c' (pending_qname p)).
  { intros p Hin. destruct (Hpend p Hin) as [Hp|Hp]; [|exact Hp].
    rewrite Hok in Hp. destruct Hp. }
  split; [exact Hok|]. split; [exact Hf|]. split; [|split].
  - intros q Hq. apply Hreg. unfold registered, lookup in *.
    pose proof (collectFromFiles_sameTypes (nedFiles c1) c1) as [Ht2 _].
    rewrite Ht2, Ht1. exact Hq.
  - intros p Hin. apply Hall, in_or_app. now left.
  - intros k nedFile p Hk Hin. apply Hall, in_or_app. right.
    apply in_flat_map. exists (k, nedFile). split; [exact Hk | exact Hin].
Qed.

End Finalized.

Lemma doneLoadingNedFiles_registers_all_witness :
  registered Sample.finalized "pkg.sub.C.User".
Proof.
  assert (E : doneLoadingNedFiles Sample.world Sample.loaded = (Sample.finalized, Ok tt)).
  { vm_compute. reflexivity. }
  refine (proj2 (proj2 (proj2 (proj2
            (doneLoadingNedFiles_registers_all Sample.world Sample.loaded
               Sample.finalized _ E))))
            "/r/pkg/sub/C.ned" _
            (mkPending "pkg.sub.C.User" true _) _ _).
  - vm_compute. reflexivity.
  - vm_compute. auto 10.
  - vm_compute. auto 10.
Defined.

(** ** Checked integer casts *)

Section IntCast.

Import IntUtil.
Local Open Scope Z_scope.

Lemma pow2_half (b : Z) : 0 < b -> 2 ^ b = 2 * 2 ^ (b - 1) /\ 0 < 2 ^ (b - 1).
Proof.
  intros H. split.
  - replace b with (Z.succ (b - 1)) at 1 by lia. apply Z.pow_succ_r. lia.
  - apply Z.pow_pos_nonneg; lia.
Qed.

Lemma pow2_mono (a b : Z) : 0 < a -> a <= b -> 2 ^ (a - 1) <= 2 ^ (b - 1).
Proof. intros. apply Z.pow_le_mono_r; lia. Qed.

Lemma pow2_strict (a b : Z) : 0 < a -> a < b -> 2 * 2 ^ (a - 1) <= 2 ^ (b - 1).
Proof.
  intros Ha Hab. rewrite <- (proj1 (pow2_half a Ha)).
  apply Z.pow_le_mono_r; lia.
Qed.

Lemma inRange_iff (T : IntType) (x : Z) :
  inRange T x = true <-> minOf T <= x <= maxOf T.
Proof. unfold inRange. rewrite andb_true_iff, !Z.leb_le. tauto. Qed.

Lemma convert_spec (T : IntType) (x : Z) :
  0 < bits T ->
  inRange T (convert T x) = true
  /\ (exists k, convert T x = x + k * 2 ^ bits T)
  /\ (inRange T x = true -> convert T x = x).
Proof.
  intros Hb. destruct (pow2_half _ Hb) as [Hp Hpos].
  pose proof (Z.mod_pos_bound x (2 ^ bits T) ltac:(lia)) as Hm.
  pose proof (Z.div_mod x (2 ^ bits T) ltac:(lia)) as Hd.
  assert (Hid : 0 <= x < 2 ^ bits T -> x mod 2 ^ bits T = x)
    by (intros; now apply Z.mod_small).
  assert (Hneg : - 2 ^ bits T <= x < 0 -> x mod 2 ^ bits T = x + 2 ^ bits T).
  { intros Hx. symmetry. apply (Z.mod_unique_pos x (2 ^ bits T) (-1)); lia. }
  rewrite !inRange_iff. unfold convert, minOf, maxOf.
  destruct (isSigned T); simpl.
  - destruct (Z.leb_spec (2 ^ (bits T - 1)) (x mod 2 ^ bits T)).
    + split; [lia|]. split.
      * exists (- (x / 2 ^ bits T) - 1). lia.
      * intros Hx. destruct (Z.lt_ge_cases x 0) as [Hlt|Hge].
        -- rewrite Hneg in * by lia. lia.
        -- rewrite Hid in * by lia. lia.
    + split; [lia|]. split.
      * exists (- (x / 2 ^ bits T)). lia.
      * intros Hx. destruct (Z.lt_ge_cases x 0) as [Hlt|Hge].
        -- rewrite Hneg in * by lia. lia.
        -- rewrite Hid in * by lia. lia.
  - split; [lia|]. split.
    + exists (- (x / 2 ^ bits T)). lia.
    + intros Hx. apply Hid. lia.
Qed.


Lemma subIn_exact (C : IntType) (a b : Z) :
  0 < bits C ->
  inRange C a = true -> inRange C b = true ->
  (a < 0 <-> b < 0) ->
  exists d, subIn C a b = Some d /\ (d = 0 <-> a = b).
Proof.
  intros Hb Ha Hb' Hsign. unfold subIn.
  rewrite (proj2 (proj2 (convert_spec C a Hb)) Ha).
  rewrite (proj2 (proj2 (convert_spec C b Hb)) Hb').
  destruct (pow2_half _ Hb) as [Hp Hpos].
  apply inRange_iff in Ha, Hb'.
  destruct (isSigned C) eqn:S.
  - assert (R : inRange C (a - b) = true).
    { apply inRange_iff. unfold minOf, maxOf in *. rewrite S in *. lia. }
    rewrite R. exists (a - b). split; [reflexivity | lia].
  - exists ((a - b) mod 2 ^ bits C). split; [reflexivity|].
    unfold minOf, maxOf in *. rewrite S in *.
    destruct (Z.lt_ge_cases a b) as [Hlt|Hge].
    + rewrite <- (Z.mod_unique_pos (a - b) (2 ^ bits C) (-1) (a - b + 2 ^ bits C)); lia.
    + rewrite Z.mod_small; lia.
Qed.

Lemma commonType_range (intBits : Z) (ToInt FromInt : IntType) (x res : Z) :
  0 < intBits -> 0 < bits ToInt -> 0 < bits FromInt ->
  inRange FromInt x = true -> inRange ToInt res = true ->
  (x < 0 <-> res < 0) ->
  let C := commonType (promote intBits FromInt) (promote intBits ToInt) in
  0 < bits C /\ inRange C x = true /\ inRange C res = true.
Proof.
  intros HI HT HF Hx Hres Hsign C. subst C.
  rewrite !inRange_iff in *.
  destruct ToInt as [bT sT], FromInt as [bF sF].
  unfold minOf, maxOf, commonType, promote in *. simpl in *.
  destruct (pow2_half _ HI) as [PI PI'].
  destruct (pow2_half _ HT) as [PT PT'].
  destruct (pow2_half _ HF) as [PF PF'].
  pose proof (pow2_mono bT bF HT) as M1.
  pose proof (pow2_mono bF bT HF) as M2.
  pose proof (pow2_mono bT intBits HT) as M3.
  pose proof (pow2_mono bF intBits HF) as M4.
  pose proof (pow2_mono intBits bT HI) as M5.
  pose proof (pow2_mono intBits bF HI) as M6.
  pose proof (pow2_strict bT bF HT) as S1.
  pose proof (pow2_strict bF bT HF) as S2.
  pose proof (pow2_strict bT intBits HT) as S3.
  pose proof (pow2_strict bF intBits HF) as S4.
  pose proof (pow2_strict intBits bT HI) as S5.
  pose proof (pow2_strict intBits bF HI) as S6.
  destruct sT, sF;
    destruct (Z.ltb_spec bF intBits), (Z.ltb_spec bT intBits); cbn [bits isSigned Bool.eqb] in *;
    repeat match goal with
           | |- context [(?a <? ?b)] => destruct (Z.ltb_spec a b); cbn [bits isSigned Bool.eqb] in *
           | |- context [(?a <=? ?b)] => destruct (Z.leb_spec a b); cbn [bits isSigned Bool.eqb] in *
           end;
    lia.
Qed.

(** X23: [checked_int_cast] is exact.  For every pair of integer types
    and every value [x] of the source type, whatever the width of [int]:
    when the target type can represent [x] the call returns [x] and does not
    call [intCastError]; when it cannot, the call reports the value to
    [intCastError].  The subtraction of the test never overflows, since it
    is reached only with operands of the same sign. *)
Theorem checked_int_cast_exact (intBits : Z) (ToInt FromInt : IntType) (x : Z) :
  0 < intBits -> 0 < bits ToInt -> 0 < bits FromInt ->
  inRange FromInt x = true ->
  checked_int_cast intBits ToInt FromInt x
  = if inRange ToInt x then Returns x else IntCastError x (convert ToInt x).
Proof.
  intros HI HT HF Hx. unfold checked_int_cast.
  destruct (convert_spec ToInt x HT) as (Rres & _ & Hid).
  destruct (inRange ToInt x) eqn:Rx.
  - rewrite (Hid eq_refl). rewrite Bool.eqb_reflx. simpl.
    destruct (commonType_range intBits ToInt FromInt x x HI HT HF Hx Rx (iff_refl _))
      as (HC & Cx & _).
    destruct (subIn_exact _ x x HC Cx Cx (iff_refl _)) as (d & -> & Hd).
    rewrite (proj2 Hd eq_refl). reflexivity.
  - assert (Hne : x <> convert ToInt x) by (intros E; rewrite <- E in Rres; congruence).
    destruct (Bool.eqb (x <? 0) (convert ToInt x <? 0)) eqn:Hs; simpl; [|reflexivity].
    apply Bool.eqb_prop in Hs.
    assert (Hsign : x < 0 <-> convert ToInt x < 0).
    { rewrite <- !Z.ltb_lt. now rewrite Hs. }
    destruct (commonType_range intBits ToInt FromInt x _ HI HT HF Hx Rres Hsign)
      as (HC & Cx & Cres).
    destruct (subIn_exact _ x _ HC Cx Cres Hsign) as (d & -> & Hd).
    destruct (Z.eqb_spec d 0) as [E|E]; simpl; [|reflexivity].
    apply Hd in E. contradiction.
Qed.

End IntCast.

Lemma checked_int_cast_exact_witness :
  IntUtil.checked_int_cast 32 (IntUtil.mkIntType 32 true) (IntUtil.mkIntType 64 true)
    2147483648
  = IntUtil.IntCastError 2147483648 (-2147483648).
Proof.
  exact (checked_int_cast_exact 32 (IntUtil.mkIntType 32 true) (IntUtil.mkIntType 64 true)
           2147483648 eq_refl eq_refl eq_refl eq_refl).
Defined.

(** ** Excluded packages in a folder load *)

(** The package expected in the folder reached from a folder of package
    [package] through the sub-folders [names], outermost first. *)
Definition packageBelow (package : string) (names : list string) : string :=
  fold_left (fun p filename => opp_join "." p filename) names package.

(** [reaches dir names sub]: from the folder [dir] the walk comes to the
    folder [sub] through the sub-folders [names], outermost first, each an
    entry of the one before with a name that does not begin with a dot. *)
Inductive reaches : FsEntry -> list string -> FsEntry -> Prop :=
| reaches_here (filename : string) (content : list FsEntry) :
    reaches (FsDir filename content) [] (FsDir filename content)
| reaches_down (filename : string) (content : list FsEntry)
               (name : string) (sub : list FsEntry)
               (names : list string) (found : FsEntry) :
    In (FsDir name sub) content ->
    startsWithDot name = false ->
    reaches (FsDir name sub) names found ->
    reaches (FsDir filename content) (name :: names) found.

(** The name of an entry. *)
Definition entryName (e : FsEntry) : string :=
  match e with
  | FsFile filename => filename
  | FsDir filename _ => filename
  end.

(** The working directory after entering the folders [names] one after the
    other, as [PushDir] does on the way down. *)
Definition enterAll (W : World) (cwd : string) (names : list string) : string :=
  fold_left (chdir W) names cwd.

Section ExcludedPackages.

Variable W : World.

Lemma visitedFiles_chain (excluded : list string) (k : string) (e : option string)
      (dir : FsEntry) :
  forall cwd expectedPackage,
    In (k, e) (visitedFiles W cwd dir (Some expectedPackage) excluded) ->
    exists names dname content fname,
      reaches dir names (FsDir dname content)
      /\ In (FsFile fname) content
      /\ startsWithDot fname = false
      /\ opp_stringendswith fname ".ned" = true
      /\ k = canonicalize W (enterAll W cwd (entryName dir :: names)) fname
      /\ e = Some (packageBelow expectedPackage names)
      /\ forall n, isExcluded (Some (packageBelow expectedPackage (firstn n names)))
                              excluded = false.
Proof.
  induction dir as [filename|filename content IH] using FsEntry_induction;
    intros cwd expectedPackage Hin; simpl in Hin; [destruct Hin|].
  destruct (isExcluded (Some expectedPackage) excluded) eqn:Hex; [destruct Hin|].
  apply in_concat in Hin. destruct Hin as (l & Hl & Hin).
  apply in_map_iff in Hl. destruct Hl as (entry & <- & Hentry).
  rewrite Forall_forall in IH. specialize (IH entry Hentry).
  destruct entry as [name|name sub].
  - destruct (startsWithDot name) eqn:Hdot; [destruct Hin|].
    destruct (opp_stringendswith name ".ned") eqn:Hned; [|destruct Hin].
    destruct Hin as [Hin|[]]. injection Hin as <- <-.
    exists [], filename, content, name.
    split; [constructor|]. repeat split; auto.
    intros n. now rewrite firstn_nil.
  - destruct (startsWithDot name) eqn:Hdot; [destruct Hin|].
    simpl in Hin. apply IH in Hin.
    destruct Hin as (names & dname & dcontent & fname & Hr & Hf & H1 & H2 & -> & -> & Hn).
    exists (name :: names), dname, dcontent, fname.
    split; [econstructor; eauto|]. repeat split; auto.
    intros [|n]; [exact Hex | exact (Hn n)].
Qed.

(** X24: an excluded package shuts out everything below it.  Every file
    that [loadNedSourceFolder] adds to the file index was found in a folder
    that the walk reaches from the source folder through a chain of
    sub-folders: it is an entry of that folder with a name ending in [.ned]
    and not beginning with a dot, its key is its canonical name in that
    folder, it declares the root package joined with the names of the
    sub-folders of the chain, and neither that package nor the package of any
    folder on the way down is in the list of excluded packages (the empty
    root package apart, which cannot be excluded). *)
Theorem loadNedSourceFolder_skips_excluded
        (cwd folderName : string) (excludedPackagesStr : option string)
        (c c' : Cache) (r : Res nat) (rootPackageName k : string) (tree : ASTNode) :
  determineRootPackageName W cwd folderName = Ok rootPackageName ->
  loadNedSourceFolder W cwd folderName excludedPackagesStr c = (c', r) ->
  SMap.find (nedFiles c) k = None ->
  SMap.find (nedFiles c') k = Some tree ->
  exists names dname content fname,
    reaches (FsDir folderName (folderContent W cwd folderName)) names (FsDir dname content)
    /\ In (FsFile fname) content
    /\ startsWithDot fname = false
    /\ opp_stringendswith fname ".ned" = true
    /\ k = canonicalize W (enterAll W cwd (folderName :: names)) fname
    /\ declaredPackageOf tree = packageBelow rootPackageName names
    /\ forall n, isExcluded (Some (packageBelow rootPackageName (firstn n names)))
                            (Excluded.parse excludedPackagesStr) = false.
Proof.
  intros Hroot H Hnew Hfound. unfold loadNedSourceFolder in H. rewrite Hroot in H.
  match type of H with
  | context [doLoadNedSourceFolder W cwd ?d ?p ?x ?c1] =>
      pose proof (doLoadNedSourceFolder_filesStep W d cwd p x c1) as F
  end.
  assert (Hc' : c' = fst (doLoadNedSourceFolder W cwd
                            (FsDir folderName (folderContent W cwd folderName))
                            (Some rootPackageName) (Excluded.parse excludedPackagesStr)
                            (with_folderPackages c
                               (SMap.set (folderPackages c) (canonicalize W cwd folderName)
                                         rootPackageName)))).
  { destruct (doLoadNedSourceFolder W cwd _ _ _ _) as [c1 [m|ex]];
      now injection H as <- _. }
  rewrite <- Hc' in F. destruct F as (_ & N & _).
  destruct (N k tree Hfound) as [Hold|(e & Hin & Hexp & _)].
  - simpl in Hold. congruence.
  - apply visitedFiles_chain in Hin.
    destruct Hin as (names & dname & content & fname & Hr & Hf & H1 & H2 & Hk & -> & Hn).
    exists names, dname, content, fname. repeat split; auto.
    destruct Hexp as [Hexp|Hexp]; [discriminate | now injection Hexp as <-].
Qed.

End ExcludedPackages.

Lemma loadNedSourceFolder_skips_excluded_witness :
  exists names dname content fname,
    reaches (FsDir "/r/pkg" (folderContent Sample.world "/" "/r/pkg")) names
            (FsDir dname content)
    /\ In (FsFile fname) content
    /\ startsWithDot fname = false
    /\ opp_stringendswith fname ".ned" = true
    /\ "/r/pkg/sub/C.ned"
       = canonicalize Sample.world (enterAll Sample.world "/" ("/r/pkg" :: names)) fname
    /\ declaredPackageOf (Sample.nedFile "/r/pkg/sub/C.ned"
                            [Sample.package "pkg.sub"; Sample.import "pkg.*";
                             Sample.element NED_COMPOUND_MODULE "C"
                               [Sample.extends "A";
                                mkNode NED_TYPES []
                                  [Sample.element NED_SIMPLE_MODULE "Inner" [];
                                   Sample.element NED_COMPOUND_MODULE "User"
                                     [Sample.extends "Inner"]]]])
       = packageBelow "pkg" names
    /\ forall n, isExcluded (Some (packageBelow "pkg" (firstn n names)))
                            (Excluded.parse (Some "pkg.skip")) = false.
Proof.
  refine (loadNedSourceFolder_skips_excluded Sample.world "/" "/r/pkg" (Some "pkg.skip")
            emptyCache Sample.loaded
            (snd (loadNedSourceFolder Sample.world "/" "/r/pkg" (Some "pkg.skip") emptyCache))
            "pkg" "/r/pkg/sub/C.ned" _ _ _ _ _).
  - vm_compute. reflexivity.
  - unfold Sample.loaded. apply surjective_pairing.
  - reflexivity.
  - vm_compute. reflexivity.
Defined.
